(** * sash: tee with a live tail window

    A shallow embedding of the line history (ringbuf.c), the line
    sanitizer, the frame compositor and the terminal session controller
    (display.c), and the tee loop of sash.c, followed by the properties
    the specification states about them and by further properties of the
    code: the line copies on the heap, the draw buffer, the cursor probe,
    the child's command line (process.c) and the exit of the process.
    The sanitizer of display.c is the plain one; the decorative mode,
    which only tests/test_sanitize.c refers to, is modelled from the
    specification in [Decorative].

    Conventions of the embedding:
    - a [char] buffer is a [list byte]; a [char *] that may be [NULL] is an
      [option (list byte)];
    - C arrays indexed by [size_t] are lists read with [!!] and written with
      [<[i:=x]>]; indices and lengths are [nat].  The two arrays of a
      [RingBuf] come from [calloc (cap, 8)], so [cap < 2^61] and no index
      sum of the ring buffer wraps around;
    - [int] globals are [Z]; where a computation on [int]s can leave
      their range (the row [atoi] returns, the fit test of [setup_window])
      the two's-complement result is written out with [to_int]; the
      [size_t] line counter is a [Z] with its wrap-around modulo [2^64]
      written out;
    - what the operating system decides (allocation, [fwrite] and [write]
      results, the window size, the bytes the terminal answers) is passed
      in as an argument. *)

From Stdlib Require Import ZArith Lia List Bool.
From Stdlib Require Import Strings.String Strings.Ascii Strings.Byte.
From Stdlib Require Import DecimalString.
From Stdlib Require DecimalN.
From stdpp Require Import base list.

Local Open Scope nat_scope.

(** ** Bytes *)

Definition code (b : byte) : N := Byte.to_N b.

Definition bytes (s : string) : list byte := list_byte_of_string s.

Definition NUL : byte := x00.
Definition TAB : byte := x09.
Definition LF : byte := x0a.
Definition CR : byte := x0d.
Definition ESC : byte := x1b.
Definition SPACE : byte := x20.
Definition DOT : byte := x2e.
Definition DEL : byte := x7f.

(** ** Line history (ringbuf.c) *)

Module Ring.

Record RingBuf := mkRingBuf {
  lines : list (option (list byte));
  lengths : list nat;
  capacity : nat;
  head : nat;
  count : nat
}.

(** [strlen]: the bytes before the first NUL. *)
Fixpoint c_string (s : list byte) : list byte :=
  match s with
  | [] => []
  | b :: s' => if N.eqb (code b) 0 then [] else b :: c_string s'
  end.

(** [strndup (line, len)]: a fresh copy of at most [len] bytes of [line],
    stopping at the first NUL; [NULL] when the allocation fails.  [line] is
    the content of the caller's buffer up to its terminating NUL. *)
Definition strndup (alloc_ok : bool) (line : list byte) (len : nat)
  : option (list byte) :=
  if alloc_ok then Some (c_string (take len line)) else None.

Definition ringbuf_init (cap : nat) : RingBuf :=
  {| lines := replicate cap None;
     lengths := replicate cap 0;
     capacity := cap;
     head := 0;
     count := 0 |}.

Definition ringbuf_push (alloc_ok : bool) (rb : RingBuf)
    (line : list byte) (len : nat) : RingBuf :=
  let slot :=
    if count rb <? capacity rb
    then (head rb + count rb) mod capacity rb
    else head rb in
  let head' :=
    if count rb <? capacity rb
    then head rb
    else (head rb + 1) mod capacity rb in
  let count' :=
    if count rb <? capacity rb then S (count rb) else count rb in
  let dup := strndup alloc_ok line len in
  {| lines := <[slot := dup]> (lines rb);
     lengths := <[slot := match dup with None => 0 | Some _ => len end]>
                  (lengths rb);
     capacity := capacity rb;
     head := head';
     count := count' |}.

(** The result is the returned pointer ([None] for [NULL], [Some []] for
    the literal [""]) and the value stored through [len]. *)
Definition ringbuf_get (rb : RingBuf) (i : nat)
  : option (list byte) * nat :=
  if count rb <=? i then (Some [], 0)
  else
    let idx := (head rb + i) mod capacity rb in
    (default None (lines rb !! idx), default 0 (lengths rb !! idx)).

(** One call of [ringbuf_push] as the caller and the allocator decide it. *)
Record push_call := mkPush {
  p_line : list byte;
  p_len : nat;
  p_alloc : bool
}.

Definition push_all (rb : RingBuf) (ps : list push_call) : RingBuf :=
  fold_left (fun r p => ringbuf_push (p_alloc p) r (p_line p) (p_len p))
            ps rb.

(** The representation invariant every caller of the module maintains. *)
Record wf (rb : RingBuf) : Prop := mkWf {
  wf_cap : 0 < capacity rb;
  wf_lines : length (lines rb) = capacity rb;
  wf_lengths : length (lengths rb) = capacity rb;
  wf_head : head rb < capacity rb;
  wf_count : count rb <= capacity rb
}.

(** The retained window, oldest first, as [ringbuf_get] shows it. *)
Definition retained (rb : RingBuf) : list (option (list byte) * nat) :=
  map (ringbuf_get rb) (seq 0 (count rb)).

End Ring.

(** ** Terminal display and draw buffer (display.c) *)

Module Display.

(** Outcome of code that reads and writes raw memory: a value, or the
    first access outside the object it was given, or the use of a block
    that was handed to [free] before. *)
Inductive fault := OobRead | OobWrite | UseAfterFree.

Inductive res (A : Type) : Type :=
| Ok (a : A)
| Fault (f : fault).
Arguments Ok {A} a.
Arguments Fault {A} f.

#[global] Instance res_ret : MRet res := fun _ a => Ok a.
#[global] Instance res_bind : MBind res := fun _ _ k m =>
  match m with
  | Ok a => k a
  | Fault f => Fault f
  end.

(** [dst[i] = b] on a buffer of [length dst] bytes. *)
Definition store (dst : list byte) (i : nat) (b : byte) : res (list byte) :=
  if i <? length dst then Ok (<[i := b]> dst) else Fault OobWrite.

(** [src[i]] on an object of [length src] bytes. *)
Definition load (src : list byte) (i : nat) : res byte :=
  match src !! i with
  | Some b => Ok b
  | None => Fault OobRead
  end.

(** [while (col < stop && col < dst_cap) dst[col++] = ' ';] with
    [n = stop - col] iterations left before [col] reaches [stop]. *)
Fixpoint tab_loop (n : nat) (dst_cap col : nat) (dst : list byte)
  : res (nat * list byte) :=
  match n with
  | 0 => Ok (col, dst)
  | S n' =>
      if col <? dst_cap then
        dst' ← store dst col SPACE;
        tab_loop n' dst_cap (S col) dst'
      else Ok (col, dst)
  end.

(** The body of the [for] loop of [sanitize_line], with [n = src_len - i]
    iterations left before [i] reaches [src_len]. *)
Fixpoint sanitize_loop (n : nat) (dst_cap : nat) (src : list byte)
    (i col : nat) (dst : list byte) : res (nat * list byte) :=
  match n with
  | 0 => Ok (col, dst)
  | S n' =>
      if col <? dst_cap then
        ch ← load src i;
        if N.eqb (code ch) (code LF) || N.eqb (code ch) (code CR) then
          sanitize_loop n' dst_cap src (S i) col dst
        else if N.eqb (code ch) (code TAB) then
          let stop := (col / 8 + 1) * 8 in
          '(col', dst') ← tab_loop (stop - col) dst_cap col dst;
          sanitize_loop n' dst_cap src (S i) col' dst'
        else if N.ltb (code ch) 32 || N.eqb (code ch) 127 then
          dst' ← store dst col DOT;
          sanitize_loop n' dst_cap src (S i) (S col) dst'
        else
          dst' ← store dst col ch;
          sanitize_loop n' dst_cap src (S i) (S col) dst'
      else Ok (col, dst)
  end.

(** [sanitize_line (dst, dst_cap, src, src_len)]: the returned column count
    and the destination buffer afterwards. *)
Definition sanitize_line (dst : list byte) (dst_cap : nat)
    (src : list byte) (src_len : nat) : res (nat * list byte) :=
  sanitize_loop src_len dst_cap src 0 0 dst.

(** The bytes the caller then copies out: [dst[0 .. col)]. *)
Definition sanitized (dst : list byte) (dst_cap : nat)
    (src : list byte) (src_len : nat) : res (list byte) :=
  '(col, dst') ← sanitize_line dst dst_cap src src_len;
  Ok (take col dst').

(** *** Globals of sash.h and the draw buffer

    [g_draw_buf] holds the [g_draw_len] bytes appended since the last
    reset; [tty] is the terminal device: the bytes it accepted, one entry
    per [write] call. *)
Record State := mkState {
  g_ring : Ring.RingBuf;
  g_tty_fd : Z;
  g_is_tty : bool;
  g_line_numbers : bool;
  g_color : bool;
  g_win_height : Z;
  g_term_cols : Z;
  g_term_rows : Z;
  g_scroll_bottom : Z;
  g_win_top : Z;
  g_started : bool;
  g_total_lines : Z;
  g_resize : bool;
  g_draw_buf : list byte;
  g_draw_cap : nat;
  tty : list (list byte)
}.

Definition g_draw_len (st : State) : nat := length (g_draw_buf st).

Definition set_ring (rb : Ring.RingBuf) (st : State) : State :=
  mkState rb (g_tty_fd st) (g_is_tty st) (g_line_numbers st) (g_color st)
    (g_win_height st) (g_term_cols st) (g_term_rows st) (g_scroll_bottom st)
    (g_win_top st) (g_started st) (g_total_lines st) (g_resize st)
    (g_draw_buf st) (g_draw_cap st) (tty st).

Definition set_size (cols rows : Z) (st : State) : State :=
  mkState (g_ring st) (g_tty_fd st) (g_is_tty st) (g_line_numbers st)
    (g_color st) (g_win_height st) cols rows (g_scroll_bottom st)
    (g_win_top st) (g_started st) (g_total_lines st) (g_resize st)
    (g_draw_buf st) (g_draw_cap st) (tty st).

Definition set_window (top bottom : Z) (st : State) : State :=
  mkState (g_ring st) (g_tty_fd st) (g_is_tty st) (g_line_numbers st)
    (g_color st) (g_win_height st) (g_term_cols st) (g_term_rows st) bottom
    top (g_started st) (g_total_lines st) (g_resize st)
    (g_draw_buf st) (g_draw_cap st) (tty st).

Definition set_started (b : bool) (st : State) : State :=
  mkState (g_ring st) (g_tty_fd st) (g_is_tty st) (g_line_numbers st)
    (g_color st) (g_win_height st) (g_term_cols st) (g_term_rows st)
    (g_scroll_bottom st) (g_win_top st) b (g_total_lines st) (g_resize st)
    (g_draw_buf st) (g_draw_cap st) (tty st).

Definition set_total_lines (n : Z) (st : State) : State :=
  mkState (g_ring st) (g_tty_fd st) (g_is_tty st) (g_line_numbers st)
    (g_color st) (g_win_height st) (g_term_cols st) (g_term_rows st)
    (g_scroll_bottom st) (g_win_top st) (g_started st) n (g_resize st)
    (g_draw_buf st) (g_draw_cap st) (tty st).

Definition set_resize (b : bool) (st : State) : State :=
  mkState (g_ring st) (g_tty_fd st) (g_is_tty st) (g_line_numbers st)
    (g_color st) (g_win_height st) (g_term_cols st) (g_term_rows st)
    (g_scroll_bottom st) (g_win_top st) (g_started st) (g_total_lines st) b
    (g_draw_buf st) (g_draw_cap st) (tty st).

Definition set_draw (buf : list byte) (cap : nat) (st : State) : State :=
  mkState (g_ring st) (g_tty_fd st) (g_is_tty st) (g_line_numbers st)
    (g_color st) (g_win_height st) (g_term_cols st) (g_term_rows st)
    (g_scroll_bottom st) (g_win_top st) (g_started st) (g_total_lines st)
    (g_resize st) buf cap (tty st).

Definition set_tty (out : list (list byte)) (st : State) : State :=
  mkState (g_ring st) (g_tty_fd st) (g_is_tty st) (g_line_numbers st)
    (g_color st) (g_win_height st) (g_term_cols st) (g_term_rows st)
    (g_scroll_bottom st) (g_win_top st) (g_started st) (g_total_lines st)
    (g_resize st) (g_draw_buf st) (g_draw_cap st) out.

(** *** Draw buffer *)

Definition dbuf_reset (st : State) : State :=
  set_draw [] (g_draw_cap st) st.

(** [realloc] is taken to succeed: its failure ends the process. *)
Definition dbuf_ensure (need : nat) (st : State) : State :=
  if g_draw_cap st <? g_draw_len st + need
  then set_draw (g_draw_buf st) ((g_draw_len st + need) * 2) st
  else st.

(** [dbuf_append (s, n)], for [n] within [s], as every call passes it: a
    larger [n] would make [memcpy] read behind [s], and nothing is said
    about such a call. *)
Definition dbuf_append (s : list byte) (n : nat) (st : State) : State :=
  let st := dbuf_ensure n st in
  set_draw (g_draw_buf st ++ take n s) (g_draw_cap st) st.

(** [dbuf_printf]: [formatted] is what [vsnprintf] produces for the format
    and its arguments; [tmp] keeps at most 255 bytes of it. *)
Definition dbuf_printf (formatted : list byte) (st : State) : State :=
  let n := length formatted in
  if 0 <? n
  then dbuf_append formatted (if n <? 256 then n else 255) st
  else st.

(** *** printf conversions *)

Definition fmt_u (n : N) : list byte :=
  bytes (NilZero.string_of_uint (N.to_uint n)).

(** [%d] *)
Definition fmt_d (z : Z) : list byte :=
  if (z <? 0)%Z then bytes "-" ++ fmt_u (Z.to_N (- z)) else fmt_u (Z.to_N z).

(** [%5zu] *)
Definition fmt_5zu (z : Z) : list byte :=
  let d := fmt_u (Z.to_N z) in
  replicate (5 - length d) SPACE ++ d.

(** U+2502, the gutter separator, in UTF-8. *)
Definition BAR : list byte := [xe2; x94; x82].

(** ["\033[%d;1H"] *)
Definition cursor_to (row : Z) : list byte :=
  ESC :: bytes "[" ++ fmt_d row ++ bytes ";1H".

(** ["\033[1;%dr"] *)
Definition scroll_region (bottom : Z) : list byte :=
  ESC :: bytes "[1;" ++ fmt_d bottom ++ bytes "r".

Definition scroll_reset : list byte := ESC :: bytes "[r".
Definition clear_line : list byte := CR :: ESC :: bytes "[2K".
Definition hide_cursor : list byte := ESC :: bytes "[?25l".
Definition dim_on : list byte := ESC :: bytes "[90m".
Definition dim_off : list byte := ESC :: bytes "[0m".
Definition dsr_query : list byte := ESC :: bytes "[6n".

(** *** TTY output *)

(** [tty_write]: one [write], whose result [accepted] is discarded. *)
Definition tty_write (accepted : Z) (buf : list byte) (len : nat)
    (st : State) : State :=
  if (0 <=? g_tty_fd st)%Z && (0 <? len)
  then set_tty (tty st ++ [take (Z.to_nat accepted) (take len buf)]) st
  else st.

Definition dbuf_flush (accepted : Z) (st : State) : State :=
  tty_write accepted (g_draw_buf st) (g_draw_len st) st.

(** *** Terminal size *)

(** [ws] is [Some (ws_col, ws_row)] when the [ioctl] succeeds. *)
Definition get_terminal_size (ws : option (Z * Z)) (st : State) : State :=
  match ws with
  | Some (ws_col, ws_row) =>
      if (0 <=? g_tty_fd st)%Z then
        let st :=
          if (0 <? ws_col)%Z then set_size ws_col (g_term_rows st) st
          else st in
        if (0 <? ws_row)%Z then set_size (g_term_cols st) ws_row st else st
      else st
  | None => st
  end.

(** *** Rendering *)

(** The height every routine recomputes from the globals. *)
Definition window_height (st : State) : Z :=
  let height := g_win_height st in
  let height :=
    if (g_term_rows st - 1 <? height)%Z then (g_term_rows st - 1)%Z
    else height in
  if (height <? 1)%Z then 1%Z else height.

Definition size_t (z : Z) : Z := (z mod 2 ^ 64)%Z.

(** The bytes of the object a [const char *] points to: a heap copy or a
    literal with its terminating NUL; nothing behind [NULL]. *)
Definition c_object (p : option (list byte)) : list byte :=
  match p with
  | Some s => s ++ [NUL]
  | None => []
  end.

(** One iteration of the row loop of [build_redraw]; [san] is the scratch
    buffer shared by all rows. *)
Definition draw_row (height content_cols : nat) (base : Z) (row : nat)
    (san : list byte) (st : State) : res (list byte * State) :=
  let st := dbuf_append clear_line 5 st in
  let rb := g_ring st in
  let '(line, len, st) :=
    if row <? Ring.count rb then
      let idx :=
        if Ring.count rb <=? height then row
        else Ring.count rb - height + row in
      let '(line, len) := Ring.ringbuf_get rb idx in
      let st :=
        if g_line_numbers st then
          let st := if g_color st then dbuf_append dim_on 5 st else st in
          let st :=
            dbuf_printf (fmt_5zu (size_t (base + Z.of_nat row)) ++ BAR) st in
          if g_color st then dbuf_append dim_off 4 st else st
        else st in
      (line, len, st)
    else
      let st :=
        if g_line_numbers st then
          let st := if g_color st then dbuf_append dim_on 5 st else st in
          let st := dbuf_append (bytes "     " ++ BAR) 8 st in
          if g_color st then dbuf_append dim_off 4 st else st
        else st in
      (Some [], 0, st) in
  '(slen, san') ← sanitize_line san content_cols (c_object line) len;
  let st := if 0 <? slen then dbuf_append san' slen st else st in
  let st := if row <? height - 1 then dbuf_append [LF] 1 st else st in
  Ok (san', st).

(** [for (int row = 0; row < height; row++)] with [n = height - row]. *)
Fixpoint draw_rows (n : nat) (height content_cols : nat) (base : Z)
    (row : nat) (san : list byte) (st : State) : res State :=
  match n with
  | 0 => Ok st
  | S n' =>
      '(san', st') ← draw_row height content_cols base row san st;
      draw_rows n' height content_cols base (S row) san' st'
  end.

(** [malloc] is taken to succeed (its failure ends the process); the
    fresh block is shown filled with NUL, and no byte of it is read before
    it is written. *)
Definition build_redraw (st : State) : res State :=
  let height := window_height st in
  let win_top := g_win_top st in
  let margin := if g_line_numbers st then 6%Z else 0%Z in
  let content_cols := (g_term_cols st - margin)%Z in
  let content_cols := if (content_cols <? 1)%Z then 1%Z else content_cols in
  let st := dbuf_printf (cursor_to win_top) st in
  let san := replicate (Z.to_nat content_cols + 1) NUL in
  let visible :=
    if Ring.count (g_ring st) <? Z.to_nat height
    then Ring.count (g_ring st) else Z.to_nat height in
  let base := size_t (g_total_lines st - Z.of_nat visible + 1) in
  st ← draw_rows (Z.to_nat height) (Z.to_nat height)
         (Z.to_nat content_cols) base 0 san st;
  Ok (if (0 <? g_scroll_bottom st)%Z
      then dbuf_printf (cursor_to (g_scroll_bottom st)) st
      else st).

Definition redraw_window (accepted : Z) (st : State) : res State :=
  if g_is_tty st then
    st ← build_redraw (dbuf_reset st);
    Ok (dbuf_flush accepted st)
  else Ok st.

(** *** Cursor and window setup *)

(** What the terminal does during the cursor probe: whether the two
    [termios] calls succeed, and the bytes it delivers before the 100 ms
    read timeout. *)
Record probe := mkProbe {
  tcgetattr_ok : bool;
  tcsetattr_ok : bool;
  query_accepted : Z;
  response : list byte
}.

(** The read loop: at most [n] bytes, up to and including the first 'R'. *)
Fixpoint read_response (n : nat) (input : list byte) : list byte :=
  match n, input with
  | S n', b :: rest =>
      if N.eqb (code b) (code "R"%byte) then [b]
      else b :: read_response n' rest
  | _, _ => []
  end.

(** [strchr (s, c)]: the suffix of [s] from the first [c] on. *)
Fixpoint strchr (s : list byte) (c : byte) : option (list byte) :=
  match s with
  | [] => None
  | b :: rest => if N.eqb (code b) (code c) then Some s else strchr rest c
  end.

Definition isspace (b : byte) : bool :=
  N.eqb (code b) 32 || (N.leb 9 (code b) && N.leb (code b) 13).

Definition isdigit (b : byte) : bool :=
  N.leb 48 (code b) && N.leb (code b) 57.

Fixpoint digits (acc : Z) (s : list byte) : Z :=
  match s with
  | b :: rest =>
      if isdigit b then digits (acc * 10 + (Z.of_N (code b) - 48)) rest
      else acc
  | [] => acc
  end.

Fixpoint skip_space (s : list byte) : list byte :=
  match s with
  | b :: rest => if isspace b then skip_space rest else s
  | [] => []
  end.

(** The value of an [int] expression whose mathematical value is [z]: what
    lies beyond 32 bits wraps around in two's complement, as the compiled
    program computes a conversion from [long] and a sum of [int]s. *)
Definition to_int (z : Z) : Z := ((z + 2 ^ 31) mod 2 ^ 32 - 2 ^ 31)%Z.

(** [strtol (s, NULL, 10)]: the decimal value, kept within a 64-bit
    [long]. *)
Definition strtol (s : list byte) : Z :=
  let value :=
    match skip_space s with
    | b :: rest =>
        if N.eqb (code b) (code "-"%byte) then (- digits 0 rest)%Z
        else if N.eqb (code b) (code "+"%byte) then digits 0 rest
        else digits 0 (b :: rest)
    | [] => 0%Z
    end in
  Z.max (- 2 ^ 63) (Z.min (2 ^ 63 - 1) value).

(** [atoi (s)], which the C library computes as [(int) strtol (s, NULL,
    10)]. *)
Definition atoi (s : list byte) : Z := to_int (strtol s).

(** The row of a Device Status Report answer [ESC [ row ; col R], 0 when
    there is none.  The query itself goes to the terminal. *)
Definition get_cursor_row (pr : probe) (st : State) : Z * State :=
  if (g_tty_fd st <? 0)%Z then (0%Z, st)
  else if negb (tcgetattr_ok pr) then (0%Z, st)
  else if negb (tcsetattr_ok pr) then (0%Z, st)
  else
    let st :=
      set_tty (tty st ++ [take (Z.to_nat (query_accepted pr)) dsr_query]) st in
    let resp := Ring.c_string (read_response 31 (response pr)) in
    let row :=
      match strchr resp "["%byte with
      | Some p => atoi (drop 1 p)
      | None => 0%Z
      end in
    (row, st).

(** [for (int i = 0; i < newlines; i++) dbuf_append ("\n", 1);] *)
Fixpoint reserve_rows (n : nat) (st : State) : State :=
  match n with
  | 0 => st
  | S n' => reserve_rows n' (dbuf_append [LF] 1 st)
  end.

Definition setup_window (ws : option (Z * Z)) (pr : probe) (accepted : Z)
    (st : State) : res State :=
  if g_is_tty st then
    let st := get_terminal_size ws st in
    let height := window_height st in
    let '(cursor_row, st) := get_cursor_row pr st in
    let '(win_top, newlines) :=
      if (0 <? cursor_row)%Z
         && (to_int (cursor_row + height - 1) <=? g_term_rows st)%Z
      then (cursor_row, 0%Z)
      else ((g_term_rows st - height + 1)%Z, (height - 1)%Z) in
    let st := set_window win_top (win_top - 1)%Z st in
    let st := dbuf_reset st in
    let st := reserve_rows (Z.to_nat newlines) st in
    let st := dbuf_append hide_cursor 6 st in
    let st :=
      if (2 <=? g_scroll_bottom st)%Z
      then dbuf_printf (scroll_region (g_scroll_bottom st)) st
      else st in
    st ← build_redraw st;
    Ok (set_started true (dbuf_flush accepted st))
  else Ok st.

(** *** Resize handling *)

Definition handle_resize (ws : option (Z * Z)) (accepted : Z) (st : State)
  : res State :=
  let st := set_resize false st in
  let st := get_terminal_size ws st in
  let height := window_height st in
  let win_top := (g_term_rows st - height + 1)%Z in
  let st := set_window win_top (win_top - 1)%Z st in
  if g_started st then
    let st := dbuf_reset st in
    let st :=
      if (2 <=? g_scroll_bottom st)%Z
      then dbuf_printf (scroll_region (g_scroll_bottom st)) st
      else dbuf_append scroll_reset 3 st in
    st ← build_redraw st;
    Ok (dbuf_flush accepted st)
  else Ok st.

End Display.

(** ** The tee loop (sash.c) *)

Module Tee.

Import Display.

(** The process around the display: [g_files[i]] is shown as whether it is
    not [NULL]; [sink] holds the bytes each stream has accepted, [closed]
    the [fclose] calls and [write_errors] the "write error on file %d"
    diagnostics on stderr, each by file index. *)
Record Sash := mkSash {
  disp : State;
  g_files : list bool;
  g_flush : bool;
  sink : list (list byte);
  closed : list nat;
  write_errors : list nat;
  stdout : list byte
}.

Definition g_nfiles (s : Sash) : nat := length (g_files s).

Definition set_disp (d : State) (s : Sash) : Sash :=
  mkSash d (g_files s) (g_flush s) (sink s) (closed s) (write_errors s)
    (stdout s).

Definition set_stdout (out : list byte) (s : Sash) : Sash :=
  mkSash (disp s) (g_files s) (g_flush s) (sink s) (closed s)
    (write_errors s) out.

(** [fwrite (buf, 1, len, g_files[i])] returning [k]: the stream accepts
    [k] bytes of [buf]. *)
Definition fwrite (buf : list byte) (len : nat) (i k : nat) (s : Sash)
  : Sash :=
  mkSash (disp s) (g_files s) (g_flush s)
    (alter (fun old => old ++ take k (take len buf)) i (sink s))
    (closed s) (write_errors s) (stdout s).

(** The failure branch: the diagnostic, [fclose], [g_files[i] = NULL]. *)
Definition disable (i : nat) (s : Sash) : Sash :=
  mkSash (disp s) (<[i := false]> (g_files s)) (g_flush s) (sink s)
    (closed s ++ [i]) (write_errors s ++ [i]) (stdout s).

(** The body of the [for] loop of [write_to_files] at index [i];
    [written i] is what [fwrite] returns for file [i].  [fflush] leaves
    the accepted bytes as they are. *)
Definition file_step (written : nat -> nat) (buf : list byte) (len i : nat)
    (s : Sash) : Sash :=
  if default false (g_files s !! i) then
    if written i <? len
    then disable i (fwrite buf len i (written i) s)
    else fwrite buf len i (written i) s
  else s.

(** [for (int i = 0; i < g_nfiles; i++)] with [n = g_nfiles - i]. *)
Fixpoint write_loop (n : nat) (written : nat -> nat) (buf : list byte)
    (len : nat) (i : nat) (s : Sash) : Sash :=
  match n with
  | 0 => s
  | S n' => write_loop n' written buf len (S i) (file_step written buf len i s)
  end.

Definition write_to_files (written : nat -> nat) (buf : list byte)
    (len : nat) (s : Sash) : Sash :=
  write_loop (g_nfiles s) written buf len 0 s.

(** One line of input and what the environment decides while it is
    processed: whether SIGWINCH arrived during [getline], the window size
    the [ioctl] then reports, the result of every [fwrite], whether
    [strndup] finds memory, and what the terminal accepts of the resize
    frame and of the redraw. *)
Record event := mkEvent {
  ev_line : list byte;
  ev_sigwinch : bool;
  ev_winsize : option (Z * Z);
  ev_written : nat -> nat;
  ev_alloc : bool;
  ev_resize_accepted : Z;
  ev_redraw_accepted : Z
}.

(** The body of the main loop for a line of [nread = length line] bytes. *)
Definition loop_body (ev : event) (s : Sash) : res Sash :=
  let line := ev_line ev in
  let nread := length line in
  let d := disp s in
  let d := if ev_sigwinch ev then set_resize true d else d in
  d ← (if g_resize d
       then handle_resize (ev_winsize ev) (ev_resize_accepted ev) d
       else Ok d);
  let d := set_total_lines (size_t (g_total_lines d + 1)) d in
  let s := write_to_files (ev_written ev) line nread (set_disp d s) in
  if g_is_tty d then
    let d := set_ring (Ring.ringbuf_push (ev_alloc ev) (g_ring d) line nread)
               d in
    d ← redraw_window (ev_redraw_accepted ev) d;
    Ok (set_disp d s)
  else
    Ok (set_stdout (stdout s ++ take nread line) s).

(** [while ((nread = getline (...)) > 0)]: the loop ends with the input,
    or at a read that returns no byte. *)
Fixpoint main_loop (input : list event) (s : Sash) : res Sash :=
  match input with
  | [] => Ok s
  | ev :: rest =>
      if 0 <? length (ev_line ev) then
        s' ← loop_body ev s;
        main_loop rest s'
      else Ok s
  end.

End Tee.

(** ** Vocabulary of the specification *)

Module Spec.

(** The last [k] elements of a list, oldest first. *)
Definition lastn {A} (k : nat) (l : list A) : list A :=
  drop (length l - k) l.

(** What [ringbuf_push] leaves in its slot: the copy and its length. *)
Definition entry (p : Ring.push_call) : option (list byte) * nat :=
  match Ring.strndup (Ring.p_alloc p) (Ring.p_line p) (Ring.p_len p) with
  | Some s => (Some s, Ring.p_len p)
  | None => (None, 0)
  end.

(** A push of a text line: [len] bytes without NUL, copied successfully. *)
Definition text_push (p : Ring.push_call) : Prop :=
  Ring.p_alloc p = true /\
  Ring.p_len p = length (Ring.p_line p) /\
  Forall (fun b => code b <> 0%N) (Ring.p_line p).

(** Neither a C0 control byte nor DEL. *)
Definition plain (b : byte) : Prop := (32 <= code b)%N /\ code b <> 127%N.

(** What one column shows for a byte that is not a terminator or a tab:
    controls and DEL become a dot. *)
Definition shown (ch : byte) : byte :=
  if N.ltb (code ch) 32 || N.eqb (code ch) 127 then DOT else ch.

(** The sanitizer's rules read as a function from a line to its display
    text: [col] columns are used so far, [cap] is the column budget. *)
Fixpoint render (cap col : nat) (src : list byte) : list byte :=
  match src with
  | [] => []
  | ch :: rest =>
      if col <? cap then
        if N.eqb (code ch) (code LF) || N.eqb (code ch) (code CR) then
          render cap col rest
        else if N.eqb (code ch) (code TAB) then
          let n := min (8 - col mod 8) (cap - col) in
          replicate n SPACE ++ render cap (col + n) rest
        else shown ch :: render cap (S col) rest
      else []
  end.

(** A byte that takes one column: not LF, CR or TAB. *)
Definition one_column (b : byte) : Prop :=
  code b <> code LF /\ code b <> code CR /\ code b <> code TAB.

(** A retained entry whose recorded length lies within the object its
    pointer leads to, so that the compositor may read that many bytes. *)
Definition readable_entry (e : option (list byte) * nat) : Prop :=
  e.2 <= length (Display.c_object e.1).

Definition readable (rb : Ring.RingBuf) : Prop :=
  Forall readable_entry (Ring.retained rb).

(** What [dbuf_printf] appends: the formatted text, cut to [tmp]. *)
Definition printed (s : list byte) : list byte := take 255 s.

(** Row mappings, from the number of retained lines, the window height
    and a row to the logical index shown there, if any.  [newest_last] is
    the one of the specification: the newest line on the last row, older
    lines upward.  [oldest_first] fills a window that is not yet full from
    its first row down. *)
Definition newest_last (count height row : nat) : option nat :=
  if height <=? count + row then Some (count + row - height) else None.

Definition oldest_first (count height row : nat) : option nat :=
  if row <? count
  then Some (if count <=? height then row else count - height + row)
  else None.

Section Frame.

Import Display.

Variable index : nat -> nat -> nat -> option nat.

Definition height (st : State) : nat := Z.to_nat (window_height st).

Definition content_cols (st : State) : nat :=
  let cols := (g_term_cols st - (if g_line_numbers st then 6 else 0))%Z in
  Z.to_nat (if (cols <? 1)%Z then 1%Z else cols).

Definition base (st : State) : Z :=
  size_t (g_total_lines st
          - Z.of_nat (min (Ring.count (g_ring st)) (height st)) + 1).

(** The line-number gutter around [label], dimmed when colour is on. *)
Definition gutter (st : State) (label : list byte) : list byte :=
  if g_line_numbers st then
    (if g_color st then dim_on else []) ++ label ++
    (if g_color st then dim_off else [])
  else [].

(** The text of one row: the gutter and the sanitized history entry, or
    the blank gutter alone. *)
Definition row_text (st : State) (row : nat) : list byte :=
  match index (Ring.count (g_ring st)) (height st) row with
  | Some idx =>
      let '(line, len) := Ring.ringbuf_get (g_ring st) idx in
      gutter st (printed (fmt_5zu (size_t (base st + Z.of_nat row)) ++ BAR))
      ++ render (content_cols st) 0 (take len (c_object line))
  | None => gutter st (bytes "     " ++ BAR)
  end.

Definition row_bytes (st : State) (row : nat) : list byte :=
  clear_line ++ row_text st row ++
  (if row <? height st - 1 then [LF] else []).

Definition rows (st : State) : list (list byte) :=
  map (row_bytes st) (seq 0 (height st)).

(** One frame: to the top row, the rows, and the cursor parked at the
    bottom of the scroll region when there is one. *)
Definition frame (st : State) : list byte :=
  printed (cursor_to (g_win_top st)) ++ concat (rows st) ++
  (if (0 <? g_scroll_bottom st)%Z
   then printed (cursor_to (g_scroll_bottom st)) else []).

End Frame.

(** [draws st0 st b]: [st] is [st0] with [b] in the draw buffer and some
    buffer capacity. *)
Definition draws (st0 st : Display.State) (b : list byte) : Prop :=
  exists cap, st = Display.set_draw b cap st0.

(** What composing a frame must leave alone: the line history, the line
    counter and the terminal geometry. *)
Definition unchanged (st st' : Display.State) : Prop :=
  Display.g_ring st' = Display.g_ring st /\
  Display.g_total_lines st' = Display.g_total_lines st /\
  Display.g_term_rows st' = Display.g_term_rows st /\
  Display.g_term_cols st' = Display.g_term_cols st /\
  Display.g_win_top st' = Display.g_win_top st /\
  Display.g_scroll_bottom st' = Display.g_scroll_bottom st /\
  Display.g_win_height st' = Display.g_win_height st.

End Spec.

(** ** The tee data path, said without the program *)

Module TeeSpec.

Import Tee.

(** A sink as the specification sees it: whether it is still open, and the
    bytes it holds. *)
Definition sink_state : Type := bool * list byte.

(** One line offered to one sink, of which the sink takes [k] bytes: an
    open sink gets the bytes and stays open when it took them all; a sink
    that is not open gets nothing. *)
Definition sink_step (line : list byte) (k : nat) (x : sink_state)
  : sink_state :=
  if x.1 then (length line <=? k, x.2 ++ take k line) else (false, x.2).

(** Sink [i] over a whole input. *)
Definition sink_run (i : nat) (input : list event) (x : sink_state)
  : sink_state :=
  fold_left (fun x ev => sink_step (ev_line ev) (ev_written ev i) x) input x.

(** The file table after one line: a slot stays open when its write was
    complete. *)
Definition files_step (ev : event) (files : list bool) : list bool :=
  imap (fun j b => b && negb (ev_written ev j <? length (ev_line ev))) files.

(** The files disabled by one line, in index order: those open with a
    short write. *)
Definition failing (ev : event) (files : list bool) : list nat :=
  List.filter
    (fun j => default false (files !! j)
              && (ev_written ev j <? length (ev_line ev)))
    (seq 0 (length files)).

Fixpoint files_run (input : list event) (files : list bool) : list bool :=
  match input with
  | [] => files
  | ev :: rest => files_run rest (files_step ev files)
  end.

(** The diagnostics of a whole input, one per disabled file. *)
Fixpoint diagnostics (input : list event) (files : list bool) : list nat :=
  match input with
  | [] => []
  | ev :: rest => failing ev files ++ diagnostics rest (files_step ev files)
  end.


(** A line the loop can take: at least one byte, and none of them NUL
    when a terminal is attached and the line goes to the history. *)
Definition text_line (is_tty : bool) (line : list byte) : Prop :=
  line <> [] /\ (is_tty = true -> Forall (fun b => code b <> 0%N) line).


(** The calls of [ringbuf_push] the loop makes for an input. *)
Definition pushes (input : list event) : list Ring.push_call :=
  map (fun ev => Ring.mkPush (ev_line ev) (length (ev_line ev)) (ev_alloc ev))
      input.

(** The state [main] enters its loop with, as far as the loop needs it:
    a well-formed, readable line history, one sink per file, and a line
    counter that is a [size_t]. *)
Definition ready (s : Sash) : Prop :=
  Ring.wf (Display.g_ring (disp s)) /\
  Spec.readable (Display.g_ring (disp s)) /\
  length (sink s) = length (g_files s) /\
  (0 <= Display.g_total_lines (disp s) < 2 ^ 64)%Z.

End TeeSpec.

(** ** Sample sessions *)

Module Sample.

Import Display.

(** A window of height 3 on an 80x24 terminal, rows 22 to 24, after the
    single line "x" has arrived. *)
Definition one_line : State :=
  {| g_ring := Ring.ringbuf_push true (Ring.ringbuf_init 3)
                 (bytes "x" ++ [LF]) 2;
     g_tty_fd := 3; g_is_tty := true;
     g_line_numbers := false; g_color := false;
     g_win_height := 3; g_term_cols := 80; g_term_rows := 24;
     g_scroll_bottom := 21; g_win_top := 22;
     g_started := true; g_total_lines := 1; g_resize := false;
     g_draw_buf := []; g_draw_cap := 0; tty := [] |}.

(** The globals as [main] has them when it calls [setup_window], for a
    window height of [n]. *)
Definition at_start (n : Z) : State :=
  {| g_ring := Ring.ringbuf_init (Z.to_nat n);
     g_tty_fd := 3; g_is_tty := true;
     g_line_numbers := false; g_color := false;
     g_win_height := n; g_term_cols := 80; g_term_rows := 24;
     g_scroll_bottom := 0; g_win_top := 0;
     g_started := false; g_total_lines := 0; g_resize := false;
     g_draw_buf := []; g_draw_cap := 0; tty := [] |}.

(** A one-row window with line numbers and colour on, holding the line
    ESC "[31mred". *)
Definition coloured : State :=
  {| g_ring := Ring.ringbuf_push true (Ring.ringbuf_init 1)
                 (ESC :: bytes "[31mred" ++ [LF]) 9;
     g_tty_fd := 3; g_is_tty := true;
     g_line_numbers := true; g_color := true;
     g_win_height := 1; g_term_cols := 80; g_term_rows := 24;
     g_scroll_bottom := 23; g_win_top := 24;
     g_started := true; g_total_lines := 1; g_resize := false;
     g_draw_buf := []; g_draw_cap := 0; tty := [] |}.

(** An established session on an 80x24 terminal with the default window
    height of 10: rows 15 to 24, scroll region over rows 1 to 14. *)
Definition established : State :=
  {| g_ring := Ring.ringbuf_init 10;
     g_tty_fd := 3; g_is_tty := true;
     g_line_numbers := false; g_color := false;
     g_win_height := 10; g_term_cols := 80; g_term_rows := 24;
     g_scroll_bottom := 14; g_win_top := 15;
     g_started := true; g_total_lines := 0; g_resize := true;
     g_draw_buf := []; g_draw_cap := 0; tty := [] |}.

(** The process as it enters the main loop with that session and two
    open files. *)
Definition tee_start : Tee.Sash :=
  {| Tee.disp := established;
     Tee.g_files := [true; true]; Tee.g_flush := false;
     Tee.sink := [[]; []]; Tee.closed := []; Tee.write_errors := [];
     Tee.stdout := [] |}.

(** Two lines, "a" and "b".  The first file takes one byte of the first
    line only; the terminal takes nothing at all. *)
Definition first_line : Tee.event :=
  {| Tee.ev_line := bytes "a" ++ [LF]; Tee.ev_sigwinch := true;
     Tee.ev_winsize := Some (80, 24)%Z;
     Tee.ev_written := fun i => if i =? 0 then 1 else 2;
     Tee.ev_alloc := true;
     Tee.ev_resize_accepted := (-1)%Z; Tee.ev_redraw_accepted := (-1)%Z |}.

Definition second_line : Tee.event :=
  {| Tee.ev_line := bytes "b" ++ [LF]; Tee.ev_sigwinch := false;
     Tee.ev_winsize := None;
     Tee.ev_written := fun _ => 2;
     Tee.ev_alloc := true;
     Tee.ev_resize_accepted := (-1)%Z; Tee.ev_redraw_accepted := 0%Z |}.

Definition two_lines : list Tee.event := [first_line; second_line].

End Sample.

(** ** Proof steps *)

(** Case analysis on every comparison of two indices in the goal. *)
Ltac index_cases :=
  repeat match goal with
    | |- context [?a <=? ?b] => destruct (Nat.leb_spec a b)
    | |- context [?a <? ?b] => destruct (Nat.ltb_spec a b)
    end;
  cbn [andb]; try lia; try reflexivity.

(** ** The sanitizer's decorative mode *)

Module Decorative.

(** A line as the claim about the decorative mode sees it: escape
    sequences and printable bytes. *)
Inductive piece :=
| Sequence (s : list byte)
| Printable (b : byte).



(** The columns a line of pieces asks for: one per printable byte. *)
Fixpoint visible (ps : list piece) : nat :=
  match ps with
  | [] => 0
  | Sequence _ :: rest => visible rest
  | Printable _ :: rest => S (visible rest)
  end.


(** Where the scan of a line stands: in text, behind an ESC that starts a
    two-byte sequence, behind an ESC that starts a sequence [ESC [ ...],
    or inside such a sequence. *)
Inductive scan := Text | Escape | Opening | Parameters.

(** The final bytes of a control sequence in ECMA-48, '@' to '~', which
    the sequences of tests/test_sanitize.c end in; used in the examples
    only. *)
Definition csi_final (b : byte) : bool :=
  N.leb 64 (code b) && N.leb (code b) 126.

Definition is_eol (b : byte) : bool :=
  N.eqb (code b) (code LF) || N.eqb (code b) (code CR).


(** Modelled from the spec: "Strip trailing \n/\r", the first rule of the
    line sanitizer, whose decorative mode is missing from src/. *)
Fixpoint strip_trailing (s : list byte) : list byte :=
  match s with
  | [] => []
  | b :: rest =>
      match strip_trailing rest with
      | [] => if is_eol b then [] else [b]
      | tail => b :: tail
      end
  end.

Section Mode.

(** The bytes that end a sequence [ESC [ ...]: the specification speaks of
    "the terminator" and does not say which bytes these are. *)
Variable terminator : byte -> bool.



(** Modelled from the spec: the scan of the decorative mode, the rules of
    section 4.2 behind the first, applied left to right and stopping once
    the column budget [cap] is used up.  A tab is expanded to the next
    multiple of 8 within the budget; an escape sequence (ESC, '[' and the
    bytes up to a terminator, or else ESC and one byte) is copied through
    and takes no column; any other control byte or DEL is shown as '.';
    a printable byte is copied and takes one column.  An ESC that nothing
    follows starts no sequence and is a control byte.  The result is the
    output and the columns used. *)
Fixpoint decorative (cap col : nat) (m : scan) (src : list byte)
  : list byte * nat :=
  match src with
  | [] => ([], col)
  | ch :: rest =>
      match m with
      | Parameters =>
          let '(out, c) :=
            decorative cap col (if terminator ch then Text else Parameters)
              rest in
          (ch :: out, c)
      | Opening =>
          let '(out, c) := decorative cap col Parameters rest in
          (ch :: out, c)
      | Escape =>
          let '(out, c) := decorative cap col Text rest in
          (ch :: out, c)
      | Text =>
          if col <? cap then
            if N.eqb (code ch) (code TAB) then
              let n := min (8 - col mod 8) (cap - col) in
              let '(out, c) := decorative cap (col + n) Text rest in
              (replicate n SPACE ++ out, c)
            else if N.eqb (code ch) (code ESC) then
              match rest with
              | [] => ([DOT], S col)
              | b :: rest' =>
                  let m' :=
                    if N.eqb (code b) (code "["%byte)
                       && existsb terminator rest'
                    then Opening else Escape in
                  let '(out, c) := decorative cap col m' rest in
                  (ch :: out, c)
              end
            else
              let '(out, c) := decorative cap (S col) Text rest in
              (Spec.shown ch :: out, c)
          else ([], col)
      end
  end.

(** Modelled from the spec: the line sanitizer in decorative mode.
    Missing from src/ is the [sanitize_line] of three arguments with its
    flag [g_ansi], which tests/test_sanitize.c calls; the display.c under
    src/ has the plain mode only.  The input is the line and the column
    budget; the result is the text for the window and its visible
    columns. *)
Definition sanitize_line (max_cols : nat) (input : list byte)
  : list byte * nat :=
  decorative max_cols 0 Text (strip_trailing input).

End Mode.

End Decorative.

(** ** Further sample sessions *)

Module MoreSamples.

Import Display.

(** The process as it enters the main loop when [/dev/tty] could not be
    opened: no descriptor, no window, one open output file. *)
Definition no_terminal : Tee.Sash :=
  {| Tee.disp :=
       {| g_ring := Ring.ringbuf_init 10;
          g_tty_fd := -1; g_is_tty := false;
          g_line_numbers := false; g_color := false;
          g_win_height := 10; g_term_cols := 80; g_term_rows := 24;
          g_scroll_bottom := 0; g_win_top := 0;
          g_started := false; g_total_lines := 0; g_resize := false;
          g_draw_buf := []; g_draw_cap := 0; tty := [] |};
     Tee.g_files := [true]; Tee.g_flush := false;
     Tee.sink := [[]]; Tee.closed := []; Tee.write_errors := [];
     Tee.stdout := [] |}.

(** A session with line numbers and a window of two rows, as it enters
    the main loop. *)
Definition numbered : Tee.Sash :=
  {| Tee.disp :=
       {| g_ring := Ring.ringbuf_init 2;
          g_tty_fd := 3; g_is_tty := true;
          g_line_numbers := true; g_color := false;
          g_win_height := 2; g_term_cols := 80; g_term_rows := 24;
          g_scroll_bottom := 22; g_win_top := 23;
          g_started := true; g_total_lines := 0; g_resize := false;
          g_draw_buf := []; g_draw_cap := 0; tty := [] |};
     Tee.g_files := []; Tee.g_flush := false;
     Tee.sink := []; Tee.closed := []; Tee.write_errors := [];
     Tee.stdout := [] |}.

(** The line 'a', 'b', NUL, 'c', LF, which every file takes in full. *)
Definition nul_line : Tee.event :=
  {| Tee.ev_line := bytes "ab" ++ [NUL] ++ bytes "c" ++ [LF];
     Tee.ev_sigwinch := false; Tee.ev_winsize := None;
     Tee.ev_written := fun _ => 5; Tee.ev_alloc := true;
     Tee.ev_resize_accepted := 1000; Tee.ev_redraw_accepted := 1000 |}.

Definition line (text : string) : Tee.event :=
  {| Tee.ev_line := bytes text ++ [LF]; Tee.ev_sigwinch := false;
     Tee.ev_winsize := None; Tee.ev_written := fun _ => 0;
     Tee.ev_alloc := true;
     Tee.ev_resize_accepted := 0; Tee.ev_redraw_accepted := 1000 |}.

End MoreSamples.

(** ** The line copies on the heap (ringbuf.c) *)

Module Heap.

Import Ring.

(** The pointers [ringbuf_push] hands to [free]: the line in the slot it
    is about to overwrite when the buffer is full, and no call while the
    buffer fills.  A [NULL] pointer is [None]. *)
Definition freed_by_push (rb : RingBuf) : list (option (list byte)) :=
  if count rb <? capacity rb then []
  else [default None (lines rb !! head rb)].

(** The pointers the loop of [ringbuf_free] hands to [free], slot by
    slot. *)
Definition ringbuf_free (rb : RingBuf) : list (option (list byte)) :=
  map (fun i => default None (lines rb !! i)) (seq 0 (capacity rb)).

(** Every [free] of a line over a sequence of pushes. *)
Fixpoint frees (rb : RingBuf) (ps : list push_call)
  : list (option (list byte)) :=
  match ps with
  | [] => []
  | p :: rest =>
      freed_by_push rb
      ++ frees (ringbuf_push (p_alloc p) rb (p_line p) (p_len p)) rest
  end.

(** The copies [strndup] returned over a sequence of pushes. *)
Definition copies (ps : list push_call) : list (list byte) :=
  omap (fun p => strndup (p_alloc p) (p_line p) (p_len p)) ps.

(** What a list of [free] calls releases: [free (NULL)] does nothing. *)
Definition released (calls : list (option (list byte))) : list (list byte) :=
  omap id calls.

End Heap.

(** ** Command line of the child (process.c) *)

Module Process.

Import Display.

(** [memcpy (dst + p, src, n)] on a block of [length dst] bytes. *)
Definition memcpy (dst : list byte) (p : nat) (src : list byte) (n : nat)
  : res (list byte) :=
  if p + n <=? length dst
  then Ok (take p dst ++ take n src ++ drop (p + n) dst)
  else Fault OobWrite.

(** The first loop of [join_args]; an element of [argv] is the text of
    one argument, the bytes before its NUL, so its length is its
    [strlen]. *)
Definition join_len (argv : list (list byte)) : nat :=
  fold_left (fun len arg => len + (length arg + 1)) argv 0.

(** The second loop, from index [i] on, with [p] the offset of the write
    pointer in [buf]. *)
Fixpoint join_loop (argv : list (list byte)) (i p : nat) (buf : list byte)
  : res (nat * list byte) :=
  match argv with
  | [] => Ok (p, buf)
  | arg :: rest =>
      '(p, buf) ← (if 0 <? i
                   then buf' ← store buf p SPACE; Ok (S p, buf')
                   else Ok (p, buf));
      let n := length arg in
      buf ← memcpy buf p arg n;
      join_loop rest (S i) (p + n) buf
  end.

(** [join_args (argv)]: [malloc] is taken to succeed (its failure ends
    the process) and returns a block whose bytes are all [junk]. *)
Definition join_args (junk : byte) (argv : list (list byte))
  : res (list byte) :=
  let len := join_len argv in
  let buf := replicate len junk in
  '(p, buf) ← join_loop argv 0 0 buf;
  store buf p NUL.

End Process.

(** ** Process exit (sash.c, [cleanup]) *)

Module Exit.

Import Display Tee.

(** The process at exit: the tee state, whether the [FILE *] of
    [/dev/tty] is open, the child's pid (0 for none), two logs: the pids
    sent SIGTERM and waited for, and the [fclose] calls on the terminal
    stream; and whether the memory of the ring and of the draw buffer went
    back to the allocator. *)
Record Proc := mkProc {
  sash : Sash;
  g_tty : bool;
  g_child_pid : Z;
  terminated : list Z;
  tty_closed : nat;
  ring_freed : bool;
  draw_buf_freed : bool
}.

Definition set_tty_fd (fd : Z) (st : State) : State :=
  mkState (g_ring st) fd (g_is_tty st) (g_line_numbers st) (g_color st)
    (g_win_height st) (g_term_cols st) (g_term_rows st) (g_scroll_bottom st)
    (g_win_top st) (g_started st) (g_total_lines st) (g_resize st)
    (g_draw_buf st) (g_draw_cap st) (tty st).

Definition show_cursor : list byte := ESC :: bytes "[?25h".

(** ["\033[r\033[%d;1H\n\033[?25h"] *)
Definition teardown (after : Z) : list byte :=
  scroll_reset ++ cursor_to after ++ [LF] ++ show_cursor.

(** The terminal part of [cleanup].  [snprintf] leaves at most 63 bytes
    of the text and a NUL in [buf], the rest of the 64 bytes is shown as
    NUL, and returns the length of the whole text, which [tty_write] then
    reads from [buf]. *)
Definition restore_terminal (accepted : Z) (st : State) : res State :=
  if g_is_tty st && g_started st && (0 <=? g_tty_fd st)%Z then
    let height := window_height st in
    let after := (g_win_top st + height)%Z in
    let after :=
      if (g_term_rows st <? after)%Z then g_term_rows st else after in
    let text := teardown after in
    let n := length text in
    let buf := take 63 text ++ replicate (64 - min n 63) NUL in
    if 0 <? n then
      if n <=? 64 then Ok (tty_write accepted buf n st) else Fault OobRead
    else Ok st
  else Ok st.

Definition fclose (i : nat) (s : Sash) : Sash :=
  mkSash (disp s) (g_files s) (g_flush s) (sink s) (closed s ++ [i])
    (write_errors s) (stdout s).

(** [for (int i = 0; i < g_nfiles; i++) if (g_files[i]) fclose (...)]
    with [n = g_nfiles - i]. *)
Fixpoint close_loop (n i : nat) (s : Sash) : Sash :=
  match n with
  | 0 => s
  | S n' =>
      close_loop n' (S i)
        (if default false (g_files s !! i) then fclose i s else s)
  end.

(** [ringbuf_free (&g_ring)] on the ring that [main] initialised: the
    lines, the array of lines and the array of lengths go back to the
    allocator, and [g_ring] keeps its pointers and its capacity.  A call
    on a ring that was freed reads the lines from the freed array and
    frees every block again. *)
Definition ringbuf_free (p : Proc) : res Proc :=
  if ring_freed p then Fault UseAfterFree
  else Ok (mkProc (sash p) (g_tty p) (g_child_pid p) (terminated p)
             (tty_closed p) true (draw_buf_freed p)).

(** [display_free_drawbuf]: [free (g_draw_buf); g_draw_buf = NULL;], and
    [free (NULL)] does nothing, so the call may be repeated. *)
Definition display_free_drawbuf (p : Proc) : Proc :=
  mkProc (sash p) (g_tty p) (g_child_pid p) (terminated p) (tty_closed p)
    (ring_freed p) true.

(** [cleanup], which [main] registers with [atexit]. *)
Definition cleanup (accepted : Z) (p : Proc) : res Proc :=
  let p :=
    if (0 <? g_child_pid p)%Z
    then mkProc (sash p) (g_tty p) 0 (terminated p ++ [g_child_pid p])
           (tty_closed p) (ring_freed p) (draw_buf_freed p)
    else p in
  d ← restore_terminal accepted (disp (sash p));
  let s := set_disp d (sash p) in
  let s := close_loop (g_nfiles s) 0 s in
  let s :=
    mkSash (disp s) [] (g_flush s) (sink s) (closed s) (write_errors s)
      (stdout s) in
  let p :=
    if g_tty p
    then mkProc (set_disp (set_tty_fd (-1) (disp s)) s) false
           (g_child_pid p) (terminated p) (S (tty_closed p))
           (ring_freed p) (draw_buf_freed p)
    else mkProc s (g_tty p) (g_child_pid p) (terminated p) (tty_closed p)
           (ring_freed p) (draw_buf_freed p) in
  p ← ringbuf_free p;
  Ok (display_free_drawbuf p).

(** A value of a C [int]. *)
Definition int_range (z : Z) : Prop := (- 2 ^ 31 <= z < 2 ^ 31)%Z.

End Exit.

(** * Properties *)

(** ** The repository's unit tests, run on the embedding *)

Section UnitTests.

Import Ring Display.

Let push (rb : RingBuf) (s : string) : RingBuf :=
  ringbuf_push true rb (bytes s) (length (bytes s)).

(** tests/test_ringbuf.c *)

Example test_init :
  count (ringbuf_init 3) = 0 /\ capacity (ringbuf_init 3) = 3.
Proof. split; reflexivity. Qed.

Example test_push_and_get :
  let rb := push (push (push (ringbuf_init 3) "aaa") "bbb") "ccc" in
  count rb = 3 /\
  ringbuf_get rb 0 = (Some (bytes "aaa"), 3) /\
  ringbuf_get rb 1 = (Some (bytes "bbb"), 3) /\
  ringbuf_get rb 2 = (Some (bytes "ccc"), 3).
Proof. repeat split. Qed.

Example test_wrap_around :
  let rb :=
    push (push (push (push (ringbuf_init 3) "aaa") "bbb") "ccc") "ddd" in
  count rb = 3 /\
  ringbuf_get rb 0 = (Some (bytes "bbb"), 3) /\
  ringbuf_get rb 1 = (Some (bytes "ccc"), 3) /\
  ringbuf_get rb 2 = (Some (bytes "ddd"), 3).
Proof. repeat split. Qed.

Example test_multiple_wraps :
  let rb :=
    push (push (push (push (push (ringbuf_init 2) "1") "2") "3") "4") "5" in
  ringbuf_get rb 0 = (Some (bytes "4"), 1) /\
  ringbuf_get rb 1 = (Some (bytes "5"), 1).
Proof. repeat split. Qed.

Example test_out_of_bounds :
  ringbuf_get (push (ringbuf_init 3) "x") 5 = (Some [], 0).
Proof. reflexivity. Qed.

Example test_capacity_one :
  let rb := push (ringbuf_init 1) "first" in
  ringbuf_get rb 0 = (Some (bytes "first"), 5) /\
  ringbuf_get (push rb "second") 0 = (Some (bytes "second"), 6) /\
  count (push rb "second") = 1.
Proof. repeat split. Qed.

(** A failed [strndup] leaves a [NULL] line of length 0 in the slot. *)
Example test_failed_copy :
  ringbuf_get (ringbuf_push false (ringbuf_init 3) (bytes "x") 1) 0
  = (None, 0).
Proof. reflexivity. Qed.

(** tests/test_sanitize.c, the default-mode cases, on a scratch buffer of
    [max_cols + 1] bytes. *)

Let sanitize (input : list byte) (max_cols : nat) : res (list byte) :=
  sanitized (replicate (max_cols + 1) NUL) max_cols input (length input).

Example test_printable : sanitize (bytes "hello") 80 = Ok (bytes "hello").
Proof. reflexivity. Qed.

Example test_truncate : sanitize (bytes "hello world") 5 = Ok (bytes "hello").
Proof. reflexivity. Qed.

Example test_newline_stripped :
  sanitize (bytes "abc" ++ [LF]) 80 = Ok (bytes "abc").
Proof. reflexivity. Qed.

Example test_carriage_return_stripped :
  sanitize (bytes "abc" ++ [CR]) 80 = Ok (bytes "abc").
Proof. reflexivity. Qed.

Example test_control_char :
  sanitize (bytes "a" ++ [x01] ++ bytes "z") 80 = Ok (bytes "a.z").
Proof. reflexivity. Qed.

Example test_del :
  sanitize (bytes "a" ++ [DEL] ++ bytes "z") 80 = Ok (bytes "a.z").
Proof. reflexivity. Qed.

Example test_tab : sanitize [TAB] 80 = Ok (bytes "        ").
Proof. reflexivity. Qed.

Example test_tab_mid_line :
  sanitize (bytes "ab" ++ [TAB]) 80 = Ok (bytes "ab      ").
Proof. reflexivity. Qed.

Example test_escape_replaced :
  sanitize (ESC :: bytes "[31m") 80 = Ok (bytes ".[31m").
Proof. reflexivity. Qed.

Example test_empty : sanitize [] 80 = Ok [].
Proof. reflexivity. Qed.

End UnitTests.

(** ** Line history *)

Section RingFacts.

Import Ring.

Lemma mod_wrap (h a c : nat) :
  h < c -> a <= c ->
  (h + a) mod c = if h + a <? c then h + a else h + a - c.
Proof.
  intros Hh Ha. destruct (Nat.ltb_spec (h + a) c) as [Hlt | Hge].
  - apply Nat.mod_small. exact Hlt.
  - remember (h + a - c) as r eqn:Hr.
    assert (h + a = r + 1 * c) as -> by lia.
    rewrite Nat.Div0.mod_add. apply Nat.mod_small. lia.
Qed.

Lemma wf_init (cap : nat) : 0 < cap -> wf (ringbuf_init cap).
Proof.
  intros Hc. constructor; simpl; rewrite ?length_replicate; lia.
Qed.

Lemma wf_push ok rb line len : wf rb -> wf (ringbuf_push ok rb line len).
Proof.
  intros [Hc Hl Hn Hh Hk].
  constructor; simpl; rewrite ?length_insert; try assumption.
  - destruct (Nat.ltb_spec (count rb) (capacity rb)); [assumption|].
    apply Nat.mod_upper_bound. lia.
  - destruct (Nat.ltb_spec (count rb) (capacity rb)); lia.
Qed.

Lemma wf_push_all ps : forall rb, wf rb -> wf (push_all rb ps).
Proof.
  induction ps as [|p ps IH]; intros rb Hwf; simpl; [assumption|].
  apply IH, wf_push, Hwf.
Qed.

Lemma push_all_snoc rb ps p :
  push_all rb (ps ++ [p]) =
  ringbuf_push (p_alloc p) (push_all rb ps) (p_line p) (p_len p).
Proof. unfold push_all. rewrite fold_left_app. reflexivity. Qed.

Lemma count_push ok rb line len :
  count (ringbuf_push ok rb line len) =
  if count rb <? capacity rb then S (count rb) else count rb.
Proof. reflexivity. Qed.

Lemma capacity_push_all ps : forall rb, capacity (push_all rb ps) = capacity rb.
Proof.
  induction ps as [|p ps IH]; intros rb; simpl; [reflexivity|].
  rewrite IH. reflexivity.
Qed.

(** The slot just written reads back as the new entry. *)
Lemma get_push_slot ok rb line len slot :
  slot < capacity rb -> wf rb ->
  (default None (<[slot := strndup ok line len]> (lines rb) !! slot),
   default 0 (<[slot := match strndup ok line len with
                        | None => 0 | Some _ => len end]>
                (lengths rb) !! slot))
  = Spec.entry (mkPush line len ok).
Proof.
  intros Hs [Hc Hl Hn Hh Hk].
  rewrite !list_lookup_insert_eq by lia. unfold Spec.entry. simpl.
  destruct (strndup ok line len); reflexivity.
Qed.

(** While the buffer is filling, a push leaves the retained lines where
    they are and appends the new one. *)
Lemma get_push_filling_old ok rb line len i :
  wf rb -> count rb < capacity rb -> i < count rb ->
  ringbuf_get (ringbuf_push ok rb line len) i = ringbuf_get rb i.
Proof.
  intros Hwf Hlt Hi. pose proof Hwf as [Hc Hl Hn Hh Hk].
  unfold ringbuf_get, ringbuf_push. simpl.
  assert ((count rb <? capacity rb) = true) as -> by (apply Nat.ltb_lt; lia).
  assert ((S (count rb) <=? i) = false) as -> by (apply Nat.leb_gt; lia).
  assert ((count rb <=? i) = false) as -> by (apply Nat.leb_gt; lia).
  assert ((head rb + count rb) mod capacity rb
          <> (head rb + i) mod capacity rb) as Hne.
  { rewrite !mod_wrap by lia.
    destruct (Nat.ltb_spec (head rb + count rb) (capacity rb));
    destruct (Nat.ltb_spec (head rb + i) (capacity rb)); lia. }
  rewrite !list_lookup_insert_ne by exact Hne. reflexivity.
Qed.

Lemma get_push_filling_new ok rb line len :
  wf rb -> count rb < capacity rb ->
  ringbuf_get (ringbuf_push ok rb line len) (count rb)
  = Spec.entry (mkPush line len ok).
Proof.
  intros Hwf Hlt. pose proof Hwf as [Hc Hl Hn Hh Hk].
  unfold ringbuf_get, ringbuf_push. simpl.
  assert ((count rb <? capacity rb) = true) as -> by (apply Nat.ltb_lt; lia).
  assert ((S (count rb) <=? count rb) = false) as -> by (apply Nat.leb_gt; lia).
  apply get_push_slot; [|exact Hwf].
  apply Nat.mod_upper_bound. lia.
Qed.

(** Once full, a push shifts every retained line one index down and puts
    the new one last. *)
Lemma get_push_full_old ok rb line len i :
  wf rb -> count rb = capacity rb -> S i < capacity rb ->
  ringbuf_get (ringbuf_push ok rb line len) i = ringbuf_get rb (S i).
Proof.
  intros Hwf Hfull Hi. pose proof Hwf as [Hc Hl Hn Hh Hk].
  unfold ringbuf_get, ringbuf_push. simpl.
  assert ((count rb <? capacity rb) = false) as -> by (apply Nat.ltb_ge; lia).
  assert ((count rb <=? i) = false) as -> by (apply Nat.leb_gt; lia).
  assert ((count rb <=? S i) = false) as -> by (apply Nat.leb_gt; lia).
  rewrite Nat.Div0.add_mod_idemp_l.
  replace (head rb + 1 + i) with (head rb + S i) by lia.
  assert (head rb <> (head rb + S i) mod capacity rb) as Hne.
  { rewrite mod_wrap by lia.
    destruct (Nat.ltb_spec (head rb + S i) (capacity rb)); lia. }
  rewrite !list_lookup_insert_ne by exact Hne. reflexivity.
Qed.

Lemma get_push_full_new ok rb line len :
  wf rb -> count rb = capacity rb ->
  ringbuf_get (ringbuf_push ok rb line len) (capacity rb - 1)
  = Spec.entry (mkPush line len ok).
Proof.
  intros Hwf Hfull. pose proof Hwf as [Hc Hl Hn Hh Hk].
  unfold ringbuf_get, ringbuf_push. simpl.
  assert ((count rb <? capacity rb) = false) as -> by (apply Nat.ltb_ge; lia).
  assert ((count rb <=? capacity rb - 1) = false) as ->
    by (apply Nat.leb_gt; lia).
  rewrite Nat.Div0.add_mod_idemp_l.
  replace (head rb + 1 + (capacity rb - 1)) with (head rb + 1 * capacity rb)
    by lia.
  rewrite Nat.Div0.mod_add, Nat.mod_small by lia.
  apply get_push_slot; [lia | exact Hwf].
Qed.

Lemma retained_push ok rb line len :
  wf rb ->
  retained (ringbuf_push ok rb line len) =
  (if count rb <? capacity rb then retained rb else drop 1 (retained rb))
  ++ [Spec.entry (mkPush line len ok)].
Proof.
  intros Hwf. pose proof Hwf as [Hc Hl Hn Hh Hk].
  unfold retained. rewrite count_push.
  destruct (Nat.ltb_spec (count rb) (capacity rb)) as [Hlt | Hge].
  - rewrite seq_S, map_app. simpl. f_equal.
    + apply map_ext_in. intros i Hi. apply in_seq in Hi.
      apply get_push_filling_old; [exact Hwf | lia | lia].
    + rewrite get_push_filling_new by assumption. reflexivity.
  - assert (count rb = capacity rb) as Hfull by lia.
    pose proof (get_push_full_new ok rb line len Hwf Hfull) as Hnew.
    assert (forall i, S i < capacity rb ->
              ringbuf_get (ringbuf_push ok rb line len) i
              = ringbuf_get rb (S i)) as Hold
      by (intros i Hi; apply get_push_full_old; assumption).
    rewrite Hfull. destruct (capacity rb) as [|k]; [lia|].
    assert (drop 1 (map (ringbuf_get rb) (seq 0 (S k)))
            = map (ringbuf_get rb) (seq 1 k)) as -> by reflexivity.
    rewrite seq_S, map_app. simpl. f_equal.
    + rewrite <- seq_shift, map_map.
      apply map_ext_in. intros i Hi. apply in_seq in Hi.
      apply Hold. lia.
    + simpl in Hnew. rewrite Nat.sub_0_r in Hnew.
      rewrite Hnew. reflexivity.
Qed.

Lemma length_retained rb : length (retained rb) = count rb.
Proof. unfold retained. rewrite length_map, length_seq. reflexivity. Qed.

Lemma count_push_all cap ps :
  count (push_all (ringbuf_init cap) ps) = min (length ps) cap.
Proof.
  induction ps as [|p ps IH] using rev_ind; [reflexivity|].
  rewrite push_all_snoc, count_push, capacity_push_all, IH, length_app.
  simpl. destruct (Nat.ltb_spec (min (length ps) cap) cap); lia.
Qed.

(** Every push, successful or not, leaves the last [cap] entries. *)
Lemma retained_push_all cap ps :
  0 < cap ->
  retained (push_all (ringbuf_init cap) ps)
  = Spec.lastn cap (map Spec.entry ps).
Proof.
  intros Hcap.
  induction ps as [|p ps IH] using rev_ind; [reflexivity|].
  rewrite push_all_snoc, retained_push
    by (apply wf_push_all, wf_init, Hcap).
  rewrite count_push_all, capacity_push_all, IH. simpl.
  destruct p as [line len ok]. simpl.
  unfold Spec.lastn. rewrite map_app, !length_app, !length_map. simpl.
  destruct (Nat.ltb_spec (min (length ps) cap) cap) as [Hlt | Hge].
  - replace (length ps - cap) with 0 by lia.
    replace (length ps + 1 - cap) with 0 by lia. reflexivity.
  - rewrite drop_drop, drop_app_le by (rewrite length_map; lia).
    f_equal. f_equal. lia.
Qed.

Lemma c_string_text s :
  Forall (fun b => code b <> 0%N) s -> c_string s = s.
Proof.
  induction 1 as [|b s Hb _ IH]; [reflexivity|].
  simpl. destruct (N.eqb_spec (code b) 0); [contradiction|].
  rewrite IH. reflexivity.
Qed.

Lemma entry_text_push p :
  Spec.text_push p ->
  Spec.entry p = (Some (p_line p), length (p_line p)).
Proof.
  intros (Hok & Hlen & Hnul). unfold Spec.entry, strndup.
  rewrite Hok, Hlen, firstn_all, c_string_text by exact Hnul.
  reflexivity.
Qed.

Lemma get_beyond_count (rb : RingBuf) (i : nat) :
  count rb <= i -> ringbuf_get rb i = (Some [], 0).
Proof.
  intros Hi. unfold ringbuf_get.
  destruct (Nat.leb_spec (count rb) i); [reflexivity | lia].
Qed.

Lemma lookup_lastn {A} (k : nat) (l : list A) (i : nat) :
  Spec.lastn k l !! i = l !! (length l - k + i).
Proof. unfold Spec.lastn. apply lookup_drop. Qed.

Lemma entry_whole_line p :
  p_len p = length (p_line p) ->
  Forall (fun b => code b <> 0%N) (p_line p) ->
  Spec.entry p
  = if p_alloc p then (Some (p_line p), length (p_line p)) else (None, 0).
Proof.
  intros Hlen Hnul. unfold Spec.entry, strndup.
  destruct (p_alloc p); [|reflexivity].
  rewrite Hlen, firstn_all, c_string_text by exact Hnul. reflexivity.
Qed.

(** C2, as stated, fails.  A push whose [strndup] finds no memory leaves
    a [NULL] line of length 0 in its slot, not the pushed line; and the
    push of the 5 bytes 'a', 'b', NUL, 'c', LF keeps a copy that ends at
    the NUL, the 2 bytes "ab", under the length 5. *)
Lemma ringbuf_pushed_line_counterexample :
  ringbuf_get (ringbuf_push false (ringbuf_init 3) (bytes "aaa") 3) 0
  = (None, 0) /\
  ringbuf_get (ringbuf_push false (ringbuf_init 3) (bytes "aaa") 3) 0
  <> (Some (bytes "aaa"), 3) /\
  ringbuf_get
    (ringbuf_push true (ringbuf_init 3)
       (bytes "ab" ++ [NUL] ++ bytes "c" ++ [LF]) 5) 0
  = (Some (bytes "ab"), 5).
Proof. repeat split. discriminate. Qed.

(** C2, amended: for every capacity [C >= 1] and every sequence of [n]
    pushes, [count] is [min n C] and [ringbuf_get] at [0 .. count-1]
    returns what the last [min n C] pushes stored, oldest first: for a
    push of a whole line without NUL, exactly the pushed line and its
    length when the copy could be made, and a [NULL] line of length 0
    when it could not.  With capacity 3 and pushes "aaa", "bbb", "ccc",
    "ddd" the retained lines are "bbb", "ccc", "ddd". *)
Theorem ringbuf_keeps_last_lines (C : nat) (ps : list push_call) :
  1 <= C ->
  let rb := push_all (ringbuf_init C) ps in
  let pushed p := (Some (p_line p), length (p_line p)) in
  let stored p := if p_alloc p then pushed p else (None, 0) in
  count rb = min (length ps) C /\
  map (ringbuf_get rb) (seq 0 (count rb))
  = map Spec.entry (Spec.lastn C ps) /\
  (Forall (fun p => p_len p = length (p_line p) /\
                    Forall (fun b => code b <> 0%N) (p_line p)) ps ->
   map (ringbuf_get rb) (seq 0 (count rb)) = map stored (Spec.lastn C ps) /\
   forall i, i < count rb ->
     exists p, ps !! (length ps - count rb + i) = Some p /\
               ringbuf_get rb i = stored p) /\
  (Forall Spec.text_push ps ->
   map (ringbuf_get rb) (seq 0 (count rb)) = map pushed (Spec.lastn C ps) /\
   forall i, i < count rb ->
     exists p, ps !! (length ps - count rb + i) = Some p /\
               ringbuf_get rb i = pushed p) /\
  map (ringbuf_get
         (push_all (ringbuf_init 3)
            [mkPush (bytes "aaa") 3 true; mkPush (bytes "bbb") 3 true;
             mkPush (bytes "ccc") 3 true; mkPush (bytes "ddd") 3 true]))
      (seq 0 3)
  = [(Some (bytes "bbb"), 3); (Some (bytes "ccc"), 3);
     (Some (bytes "ddd"), 3)].
Proof.
  intros HC rb pushed stored.
  assert (count rb = min (length ps) C) as Hcount
    by (subst rb; apply count_push_all).
  assert (retained rb = map Spec.entry (Spec.lastn C ps)) as Hentries.
  { subst rb. rewrite retained_push_all by lia.
    unfold Spec.lastn. rewrite length_map, skipn_map. reflexivity. }
  assert (forall f : push_call -> option (list byte) * nat,
            Forall (fun p => Spec.entry p = f p) ps ->
            retained rb = map f (Spec.lastn C ps) /\
            forall i, i < count rb ->
              exists p, ps !! (length ps - count rb + i) = Some p /\
                        ringbuf_get rb i = f p) as Hlines.
  { intros f Hf.
    assert (retained rb = map f (Spec.lastn C ps)) as Hret.
    { rewrite Hentries. apply map_ext_Forall. apply Forall_drop.
      exact Hf. }
    split; [exact Hret|].
    intros i Hi.
    assert (retained rb !! i = Some (ringbuf_get rb i)) as Hget.
    { unfold retained. change map with (@fmap list _).
      rewrite list_lookup_fmap, lookup_seq_lt by exact Hi. reflexivity. }
    rewrite Hret in Hget. change map with (@fmap list _) in Hget.
    rewrite list_lookup_fmap, lookup_lastn in Hget.
    replace (length ps - C) with (length ps - count rb) in Hget by lia.
    destruct (ps !! (length ps - count rb + i)) as [p|]; [|discriminate].
    exists p. split; [reflexivity|]. simpl in Hget. congruence. }
  split; [exact Hcount|]. split; [exact Hentries|].
  split; [|split; [|reflexivity]].
  - intros Hwhole. apply Hlines.
    eapply Forall_impl; [exact Hwhole|].
    intros p [Hlen Hnul]. apply entry_whole_line; assumption.
  - intros Htext. apply Hlines.
    eapply Forall_impl; [exact Htext|].
    intros p Hp. apply entry_text_push, Hp.
Qed.

Lemma ringbuf_keeps_last_lines_witness :
  let ps := [mkPush (bytes "1") 1 true; mkPush (bytes "2") 1 true;
             mkPush (bytes "3") 1 true; mkPush (bytes "4") 1 false;
             mkPush (bytes "5") 1 true] in
  let rb := push_all (ringbuf_init 2) ps in
  count rb = 2 /\
  map (ringbuf_get rb) (seq 0 (count rb))
  = [(None, 0); (Some (bytes "5"), 1)].
Proof.
  intros ps rb.
  assert (Forall (fun p => p_len p = length (p_line p) /\
                           Forall (fun b => code b <> 0%N) (p_line p)) ps)
    as Hwhole.
  { repeat constructor; simpl; discriminate. }
  destruct (ringbuf_keeps_last_lines 2 ps (le_S 1 1 (le_n 1)))
    as (Hcount & _ & Hlines & _).
  destruct (Hlines Hwhole) as (Hret & _).
  split; [exact Hcount | exact Hret].
Defined.

(** C8: for every Line History state and every index [i >= count]
    ([count], [count + 1], arbitrarily large), [ringbuf_get] returns the
    empty string with length 0; it does so without looking at the arrays,
    the head or the capacity, so no slot is read. *)
Theorem ringbuf_get_out_of_range (rb : RingBuf) (i : nat) :
  count rb <= i ->
  ringbuf_get rb i = (Some [], 0) /\
  forall lines' lengths' capacity' head',
    ringbuf_get (mkRingBuf lines' lengths' capacity' head' (count rb)) i
    = (Some [], 0).
Proof.
  intros Hi. split; [apply get_beyond_count, Hi|].
  intros lines' lengths' capacity' head'.
  apply get_beyond_count. exact Hi.
Qed.

Lemma ringbuf_get_out_of_range_witness :
  let rb := push_all (ringbuf_init 3) [mkPush (bytes "x") 1 true] in
  ringbuf_get rb 1 = (Some [], 0) /\
  ringbuf_get rb 2 = (Some [], 0) /\
  ringbuf_get rb 5 = (Some [], 0).
Proof.
  intros rb.
  split; [|split]; apply ringbuf_get_out_of_range; simpl; lia.
Defined.

End RingFacts.

(** ** Line sanitizer *)

Section SanitizeFacts.

Import Display.

Lemma plain_space : Spec.plain SPACE.
Proof. split; [apply N.leb_le; reflexivity | discriminate]. Qed.

Lemma plain_dot : Spec.plain DOT.
Proof. split; [apply N.leb_le; reflexivity | discriminate]. Qed.

Lemma plain_shown ch : Spec.plain (Spec.shown ch).
Proof.
  unfold Spec.shown.
  destruct (N.ltb_spec (code ch) 32) as [Hlt | Hge]; simpl;
    [apply plain_dot|].
  destruct (N.eqb_spec (code ch) 127) as [Heq | Hne];
    [apply plain_dot | split; assumption].
Qed.

Lemma bind_Ok {A B} (a : A) (k : A -> res B) : mbind k (Ok a) = k a.
Proof. reflexivity. Qed.

Lemma store_ok dst i b :
  i < length dst -> store dst i b = Ok (<[i := b]> dst).
Proof.
  intros Hi. unfold store.
  destruct (Nat.ltb_spec i (length dst)); [reflexivity | lia].
Qed.

Lemma take_S_insert (dst : list byte) i b :
  i < length dst -> take (S i) (<[i := b]> dst) = take i dst ++ [b].
Proof.
  intros Hi.
  rewrite (take_S_r _ _ b) by (apply list_lookup_insert_eq; exact Hi).
  rewrite take_insert_ge by lia. reflexivity.
Qed.

Lemma drop_insert_below (dst : list byte) i n b :
  i < n -> drop n (<[i := b]> dst) = drop n dst.
Proof. intros Hi. apply drop_insert_lt. exact Hi. Qed.

Lemma tab_stop col : (col / 8 + 1) * 8 - col = 8 - col mod 8.
Proof. pose proof (Nat.div_mod_eq col 8). lia. Qed.

(** Tab filling: spaces up to the stop or the budget, whichever is first. *)
Lemma tab_loop_spec cap n : forall col dst,
  cap <= length dst -> col <= cap ->
  exists dst',
    tab_loop n cap col dst = Ok (col + min n (cap - col), dst') /\
    length dst' = length dst /\
    drop cap dst' = drop cap dst /\
    take (col + min n (cap - col)) dst'
    = take col dst ++ replicate (min n (cap - col)) SPACE.
Proof.
  induction n as [|n IH]; intros col dst Hcap Hcol; cbn [tab_loop].
  - exists dst. replace (min 0 (cap - col)) with 0 by lia.
    rewrite Nat.add_0_r, app_nil_r. auto.
  - destruct (Nat.ltb_spec col cap) as [Hlt | Hge].
    + rewrite store_ok, bind_Ok by lia.
      destruct (IH (S col) (<[col := SPACE]> dst)) as (dst' & Hrun & Hlen & Hdrop & Htake);
        [rewrite length_insert; lia | lia |].
      exists dst'. rewrite length_insert in Hlen.
      rewrite drop_insert_below in Hdrop by lia.
      rewrite take_S_insert in Htake by lia.
      replace (min (S n) (cap - col)) with (S (min n (cap - S col))) by lia.
      replace (col + S (min n (cap - S col)))
        with (S col + min n (cap - S col)) by lia.
      rewrite Hrun, Htake, <- app_assoc. auto.
    + exists dst. replace (min (S n) (cap - col)) with 0 by lia.
      rewrite Nat.add_0_r, app_nil_r. auto.
Qed.

Lemma render_length cap src : forall col,
  col <= cap -> col + length (Spec.render cap col src) <= cap.
Proof.
  induction src as [|ch rest IH]; intros col Hcol; cbn [Spec.render];
    [simpl; lia|].
  destruct (Nat.ltb_spec col cap) as [Hlt | Hge]; [|simpl; lia].
  destruct (_ || _).
  - apply IH. exact Hcol.
  - destruct (N.eqb _ _).
    + rewrite length_app, length_replicate.
      generalize (col mod 8). intros k.
      specialize (IH (col + min (8 - k) (cap - col))). lia.
    + simpl. specialize (IH (S col)). lia.
Qed.

Lemma render_plain cap src : forall col,
  Forall Spec.plain (Spec.render cap col src).
Proof.
  induction src as [|ch rest IH]; intros col; cbn [Spec.render];
    [constructor|].
  destruct (col <? cap); [|constructor].
  destruct (_ || _); [apply IH|].
  destruct (N.eqb _ _).
  - apply Forall_app. split; [|apply IH].
    apply Forall_replicate, plain_space.
  - constructor; [apply plain_shown | apply IH].
Qed.

(** The loop computes [render] on the bytes it is given, writes it at
    [dst[col ..]] and touches nothing from [dst_cap] on. *)
Lemma sanitize_loop_spec cap src n : forall i col dst,
  i + n <= length src -> cap <= length dst -> col <= cap ->
  let r := Spec.render cap col (take n (drop i src)) in
  exists dst',
    sanitize_loop n cap src i col dst = Ok (col + length r, dst') /\
    length dst' = length dst /\
    drop cap dst' = drop cap dst /\
    take (col + length r) dst' = take col dst ++ r.
Proof.
  induction n as [|n IH]; intros i col dst Hsrc Hcap Hcol;
    cbn [sanitize_loop].
  - exists dst. simpl. rewrite Nat.add_0_r, app_nil_r. auto.
  - destruct (lookup_lt_is_Some_2 src i) as [ch Hch]; [lia|].
    rewrite (drop_S _ _ _ Hch). cbn [take Spec.render].
    destruct (Nat.ltb_spec col cap) as [Hlt | Hge];
      [|exists dst; simpl; rewrite Nat.add_0_r, app_nil_r; auto].
    unfold load. rewrite Hch, bind_Ok.
    destruct (_ || _) eqn:Heol.
    { apply IH; lia. }
    destruct (N.eqb (code ch) (code TAB)) eqn:Htab.
    { rewrite tab_stop.
      destruct (tab_loop_spec cap (8 - col mod 8) col dst Hcap Hcol)
        as (dst1 & Hrun1 & Hlen1 & Hdrop1 & Htake1).
      rewrite Hrun1, bind_Ok.
      set (m := min (8 - col mod 8) (cap - col)) in *.
      destruct (IH (S i) (col + m) dst1) as (dst2 & Hrun2 & Hlen2 & Hdrop2 & Htake2);
        [lia | lia | lia |].
      exists dst2. rewrite length_app, length_replicate.
      rewrite Nat.add_assoc, Hrun2, Htake2, Htake1, <- app_assoc.
      repeat split; congruence. }
    assert (forall b, exists dst',
        (dst1 ← store dst col b; sanitize_loop n cap src (S i) (S col) dst1)
        = Ok (col + S (length (Spec.render cap (S col)
                                 (take n (drop (S i) src)))), dst') /\
        length dst' = length dst /\
        drop cap dst' = drop cap dst /\
        take (col + S (length (Spec.render cap (S col)
                                 (take n (drop (S i) src))))) dst'
        = take col dst ++ b :: Spec.render cap (S col)
                                 (take n (drop (S i) src))) as Hput.
    { intros b. rewrite store_ok, bind_Ok by lia.
      destruct (IH (S i) (S col) (<[col := b]> dst))
        as (dst2 & Hrun2 & Hlen2 & Hdrop2 & Htake2);
        [lia | rewrite length_insert; lia | lia |].
      exists dst2. rewrite length_insert in Hlen2.
      rewrite drop_insert_below in Hdrop2 by lia.
      rewrite take_S_insert in Htake2 by lia.
      replace (col + S (length (Spec.render cap (S col)
                                  (take n (drop (S i) src)))))
        with (S col + length (Spec.render cap (S col)
                                (take n (drop (S i) src)))) by lia.
      rewrite Hrun2, Htake2, <- app_assoc. auto. }
    unfold Spec.shown.
    destruct (N.ltb (code ch) 32 || N.eqb (code ch) 127); apply Hput.
Qed.

(** Whatever [src_len] is, the loop stays inside [dst[0 .. dst_cap)] and
    leaves only plain bytes in the columns it has filled; it can only stop
    early on a read behind the end of [src]. *)
Lemma sanitize_loop_safe cap src n : forall i col dst,
  cap <= length dst -> col <= cap -> Forall Spec.plain (take col dst) ->
  match sanitize_loop n cap src i col dst with
  | Ok (col', dst') =>
      col' <= cap /\ length dst' = length dst /\
      drop cap dst' = drop cap dst /\ Forall Spec.plain (take col' dst')
  | Fault f => f = OobRead /\ length src < i + n
  end.
Proof.
  induction n as [|n IH]; intros i col dst Hcap Hcol Hplain;
    cbn [sanitize_loop]; [auto|].
  destruct (Nat.ltb_spec col cap) as [Hlt | Hge]; [|auto].
  unfold load. destruct (src !! i) as [ch|] eqn:Hch.
  2:{ apply lookup_ge_None_1 in Hch. simpl. split; [reflexivity | lia]. }
  rewrite bind_Ok.
  assert (forall col1 dst1,
    col1 <= cap -> length dst1 = length dst ->
    drop cap dst1 = drop cap dst -> Forall Spec.plain (take col1 dst1) ->
    match sanitize_loop n cap src (S i) col1 dst1 with
    | Ok (col', dst') =>
        col' <= cap /\ length dst' = length dst /\
        drop cap dst' = drop cap dst /\ Forall Spec.plain (take col' dst')
    | Fault f => f = OobRead /\ length src < i + S n
    end) as Hnext.
  { intros col1 dst1 Hcol1 Hlen1 Hdrop1 Hplain1.
    specialize (IH (S i) col1 dst1).
    destruct (sanitize_loop n cap src (S i) col1 dst1) as [[col' dst']|f].
    - rewrite <- Hlen1, <- Hdrop1. apply IH; [lia | exact Hcol1 | exact Hplain1].
    - destruct IH as [-> Hshort]; [lia | exact Hcol1 | exact Hplain1 |].
      split; [reflexivity | lia]. }
  assert (forall b, Spec.plain b ->
    match (dst1 ← store dst col b;
           sanitize_loop n cap src (S i) (S col) dst1) with
    | Ok (col', dst') =>
        col' <= cap /\ length dst' = length dst /\
        drop cap dst' = drop cap dst /\ Forall Spec.plain (take col' dst')
    | Fault f => f = OobRead /\ length src < i + S n
    end) as Hput.
  { intros b Hb. rewrite store_ok, bind_Ok by lia.
    apply Hnext; [lia | apply length_insert | apply drop_insert_below; lia |].
    rewrite take_S_insert by lia. apply Forall_app. split; [exact Hplain|].
    constructor; [exact Hb | constructor]. }
  destruct (_ || _).
  { apply Hnext; [lia | reflexivity | reflexivity | exact Hplain]. }
  destruct (N.eqb (code ch) (code TAB)).
  { rewrite tab_stop.
    destruct (tab_loop_spec cap (8 - col mod 8) col dst Hcap Hcol)
      as (dst1 & Hrun1 & Hlen1 & Hdrop1 & Htake1).
    rewrite Hrun1, bind_Ok.
    apply Hnext; [lia | exact Hlen1 | exact Hdrop1 |].
    rewrite Htake1. apply Forall_app. split; [exact Hplain|].
    apply Forall_replicate, plain_space. }
  destruct (N.ltb_spec (code ch) 32) as [Hctl | Hge32]; simpl.
  { apply Hput, plain_dot. }
  destruct (N.eqb_spec (code ch) 127) as [Hdel | Hne].
  { apply Hput, plain_dot. }
  apply Hput. split; assumption.
Qed.

Lemma plain_not_in (b : byte) (l : list byte) :
  ~ Spec.plain b -> Forall Spec.plain l -> ~ In b l.
Proof.
  intros Hb Hl Hin. rewrite Forall_forall in Hl.
  apply Hb, Hl, list_elem_of_In, Hin.
Qed.

Lemma control_not_plain (b : byte) : (code b < 32)%N -> ~ Spec.plain b.
Proof. intros Hb [Hge _]. lia. Qed.

(** With enough source bytes the sanitizer returns, and what it leaves in
    [dst[0 .. col)] is [render] of the line. *)
Lemma sanitized_render dst cap src n :
  cap <= length dst -> n <= length src ->
  sanitized dst cap src n = Ok (Spec.render cap 0 (take n src)).
Proof.
  intros Hcap Hn. unfold sanitized, sanitize_line.
  destruct (sanitize_loop_spec cap src n 0 0 dst) as (dst' & Hrun & _ & _ & Htake);
    [simpl; lia | exact Hcap | lia |].
  rewrite Hrun, bind_Ok. simpl in Htake. simpl. rewrite Htake. reflexivity.
Qed.

(** C5: for every input line, source length and destination capacity,
    [sanitize_line] returns a column count within the budget, writes no
    byte at or behind [dst[dst_cap]], and leaves in its output no LF, no
    CR, no other C0 control byte and no DEL. *)
Theorem sanitize_line_within_budget (dst src : list byte)
    (dst_cap src_len : nat) :
  dst_cap <= length dst ->
  match sanitize_line dst dst_cap src src_len with
  | Ok (col, dst') =>
      col <= dst_cap /\
      length dst' = length dst /\
      drop dst_cap dst' = drop dst_cap dst /\
      Forall Spec.plain (take col dst') /\
      ~ In LF (take col dst') /\ ~ In CR (take col dst') /\
      ~ In ESC (take col dst') /\ ~ In DEL (take col dst')
  | Fault f => f = OobRead /\ length src < src_len
  end /\
  (src_len <= length src ->
   exists col dst', sanitize_line dst dst_cap src src_len = Ok (col, dst')).
Proof.
  intros Hcap. split.
  - pose proof (sanitize_loop_safe dst_cap src src_len 0 0 dst Hcap
                  (Nat.le_0_l _) (Forall_nil_2 _)) as Hsafe.
    unfold sanitize_line.
    destruct (sanitize_loop src_len dst_cap src 0 0 dst) as [[col dst']|f];
      [|exact Hsafe].
    destruct Hsafe as (Hcol & Hlen & Hdrop & Hplain).
    repeat split; try assumption.
    + apply plain_not_in; [|exact Hplain].
      apply control_not_plain. reflexivity.
    + apply plain_not_in; [|exact Hplain].
      apply control_not_plain. reflexivity.
    + apply plain_not_in; [|exact Hplain].
      apply control_not_plain. reflexivity.
    + apply plain_not_in; [|exact Hplain]. intros [_ Hdel]. apply Hdel.
      reflexivity.
  - intros Hlen. unfold sanitize_line.
    destruct (sanitize_loop_spec dst_cap src src_len 0 0 dst)
      as (dst' & Hrun & _); [simpl; lia | exact Hcap | lia |].
    eauto.
Qed.

Lemma sanitize_line_within_budget_witness :
  exists col dst',
    sanitize_line (replicate 6 NUL) 5 (bytes "hello world") 11
    = Ok (col, dst') /\
    col <= 5 /\ drop 5 dst' = [NUL] /\ take col dst' = bytes "hello".
Proof.
  pose proof (sanitize_line_within_budget (replicate 6 NUL)
                (bytes "hello world") 5 11 (le_S 5 5 (le_n 5))) as [H _].
  destruct (sanitize_line (replicate 6 NUL) 5 (bytes "hello world") 11)
    as [[col dst']|f] eqn:Hrun; [|destruct H; discriminate Hrun].
  exists col, dst'. destruct H as (Hcol & _ & Hdrop & _).
  split; [reflexivity|]. split; [exact Hcol|]. split; [exact Hdrop|].
  vm_compute in Hrun. injection Hrun as <- <-. reflexivity.
Defined.

Lemma render_app cap s1 s2 : forall col,
  col <= cap ->
  Spec.render cap col (s1 ++ s2)
  = Spec.render cap col s1
    ++ Spec.render cap (col + length (Spec.render cap col s1)) s2.
Proof.
  induction s1 as [|ch rest IH]; intros col Hcol.
  - simpl. rewrite Nat.add_0_r. reflexivity.
  - rewrite <- app_comm_cons. cbn [Spec.render].
    destruct (Nat.ltb_spec col cap) as [Hlt | Hge].
    + destruct (_ || _); [apply IH; exact Hcol|].
      destruct (N.eqb _ _).
      * rewrite IH by lia. rewrite length_app, length_replicate.
        rewrite <- app_assoc, Nat.add_assoc. reflexivity.
      * rewrite IH by lia. cbn [length].
        rewrite <- app_comm_cons, Nat.add_succ_r. reflexivity.
    + simpl. rewrite Nat.add_0_r.
      assert (col = cap) as -> by lia.
      destruct s2 as [|b s2]; [reflexivity|]. cbn [Spec.render].
      rewrite Nat.ltb_irrefl. reflexivity.
Qed.

Lemma render_one_column cap src : forall col,
  Forall Spec.one_column src ->
  Spec.render cap col src = take (cap - col) (map Spec.shown src).
Proof.
  induction src as [|ch rest IH]; intros col Hsrc.
  - simpl. rewrite take_nil. reflexivity.
  - inversion Hsrc as [|? ? (Hlf & Hcr & Htab) Hrest]; subst.
    cbn [Spec.render map].
    destruct (Nat.ltb_spec col cap) as [Hlt | Hge].
    + destruct (N.eqb_spec (code ch) (code LF)); [contradiction|].
      destruct (N.eqb_spec (code ch) (code CR)); [contradiction|].
      destruct (N.eqb_spec (code ch) (code TAB)); [contradiction|].
      cbn [orb]. rewrite IH by exact Hrest.
      destruct (cap - col) as [|k] eqn:Hk; [lia|].
      cbn [take]. f_equal. f_equal. lia.
    + replace (cap - col) with 0 by lia. reflexivity.
Qed.

Lemma shown_plain b : Spec.plain b -> Spec.shown b = b.
Proof.
  intros [Hge Hne]. unfold Spec.shown.
  destruct (N.ltb_spec (code b) 32); [lia|].
  destruct (N.eqb_spec (code b) 127); [contradiction | reflexivity].
Qed.

Lemma plain_one_column b : Spec.plain b -> Spec.one_column b.
Proof.
  intros [Hge _]. unfold Spec.one_column.
  change (code LF) with 10%N. change (code CR) with 13%N.
  change (code TAB) with 9%N. lia.
Qed.

Lemma render_plain_text cap src : forall col,
  Forall Spec.plain src -> Spec.render cap col src = take (cap - col) src.
Proof.
  intros col Hsrc. rewrite render_one_column.
  - f_equal. rewrite <- (map_id src) at 2.
    apply map_ext_Forall. eapply Forall_impl; [exact Hsrc|].
    intros b Hb. apply shown_plain, Hb.
  - eapply Forall_impl; [exact Hsrc|]. intros b Hb.
    apply plain_one_column, Hb.
Qed.

Lemma render_tab cap col :
  col < cap ->
  Spec.render cap col [TAB]
  = replicate (min (8 - col mod 8) (cap - col)) SPACE.
Proof.
  intros Hlt. cbn [Spec.render].
  assert ((col <? cap) = true) as -> by (apply Nat.ltb_lt; exact Hlt).
  change (N.eqb (code TAB) (code LF)) with false.
  change (N.eqb (code TAB) (code CR)) with false.
  change (N.eqb (code TAB) (code TAB)) with true.
  cbn [orb]. apply app_nil_r.
Qed.

(** C9: sanitizing the three bytes 'a', TAB, 'b' with a budget of 80
    columns gives "a       b" ('b' at column 8); in general a tab after
    [pre] is shown as spaces up to the next multiple of 8, cut at the
    column budget. *)
Theorem sanitize_line_tab_expansion :
  (forall dst, 80 <= length dst ->
     sanitized dst 80 (bytes "a" ++ [TAB] ++ bytes "b") 3
     = Ok (bytes "a       b")) /\
  (forall dst dst_cap pre,
     dst_cap <= length dst ->
     Forall Spec.plain pre ->
     let stop := (length pre / 8 + 1) * 8 in
     sanitized dst dst_cap (pre ++ [TAB]) (length pre + 1)
     = Ok (take dst_cap (pre ++ replicate (stop - length pre) SPACE))).
Proof.
  split.
  - intros dst Hdst. rewrite sanitized_render by (simpl; lia). reflexivity.
  - intros dst cap pre Hcap Hpre stop.
    rewrite sanitized_render by (rewrite ?length_app; simpl; lia).
    rewrite take_ge by (rewrite length_app; simpl; lia).
    rewrite render_app, render_plain_text by (lia || exact Hpre).
    rewrite Nat.sub_0_r, Nat.add_0_l, length_take.
    subst stop. rewrite tab_stop.
    destruct (Nat.le_gt_cases cap (length pre)) as [Hfull | Hroom].
    + rewrite Nat.min_l by exact Hfull. cbn [Spec.render].
      rewrite Nat.ltb_irrefl, app_nil_r, take_app_le by exact Hfull.
      reflexivity.
    + rewrite Nat.min_r, render_tab by lia.
      rewrite take_ge by lia.
      rewrite take_app_ge by lia. f_equal.
      rewrite take_replicate, Nat.min_comm. reflexivity.
Qed.

Lemma sanitize_line_tab_expansion_witness :
  sanitized (replicate 81 NUL) 80 (bytes "ab" ++ [TAB]) 3
  = Ok (bytes "ab      ") /\
  sanitized (replicate 5 NUL) 4 (bytes "ab" ++ [TAB]) 3 = Ok (bytes "ab  ").
Proof.
  destruct sanitize_line_tab_expansion as [_ Htab].
  split.
  - apply (Htab (replicate 81 NUL) 80 (bytes "ab")).
    + simpl. lia.
    + repeat constructor; vm_compute; discriminate.
  - apply (Htab (replicate 5 NUL) 4 (bytes "ab")).
    + simpl. lia.
    + repeat constructor; vm_compute; discriminate.
Defined.

(** The [sanitize_line] of four arguments of display.c is the plain mode:
    it takes no flag and knows no escape sequence.  For the line
    ESC "[31mred" it returns 8 columns holding ".[31mred", and the frame
    shows the same text with line numbers and colour on. *)
Example sanitize_line_plain_escape :
  sanitized (replicate 81 NUL) 80 (ESC :: bytes "[31mred") 8
  = Ok (DOT :: bytes "[31mred") /\
  match build_redraw Sample.coloured with
  | Ok st' =>
      g_draw_buf st'
      = (ESC :: bytes "[24;1H")
        ++ clear_line
        ++ dim_on ++ bytes "    1" ++ BAR ++ dim_off
        ++ (DOT :: bytes "[31mred")
        ++ (ESC :: bytes "[23;1H")
  | Fault _ => False
  end.
Proof. split; reflexivity. Qed.

(** X22: the [sanitize_line] of four arguments of display.c, the plain
    mode.  An ESC byte is shown as a dot, like every other control byte,
    and no output ever holds an ESC.  In a line without LF, CR and TAB
    every byte, the bytes after an ESC included, takes exactly one column
    until the budget is used up, and plain bytes are copied unchanged. *)
Theorem sanitize_line_one_column_per_byte (dst src : list byte)
    (dst_cap : nat) :
  dst_cap <= length dst ->
  (exists col dst',
     sanitize_line dst dst_cap src (length src) = Ok (col, dst') /\
     ~ In ESC (take col dst') /\
     (Forall Spec.one_column src ->
      col = min (length src) dst_cap /\
      take col dst' = take dst_cap (map Spec.shown src))) /\
  Spec.shown ESC = DOT /\
  (forall b, Spec.plain b -> Spec.shown b = b).
Proof.
  intros Hcap. split; [|split; [reflexivity | exact shown_plain]].
  destruct (sanitize_loop_spec dst_cap src (length src) 0 0 dst)
    as (dst' & Hrun & _ & _ & Htake); [simpl; lia | exact Hcap | lia |].
  rewrite drop_0, firstn_all, Nat.add_0_l in Hrun, Htake.
  simpl in Htake.
  eexists. exists dst'. split; [exact Hrun|]. split.
  - rewrite Htake. apply plain_not_in; [|apply render_plain].
    apply control_not_plain. reflexivity.
  - intros Hsrc. rewrite Htake, render_one_column by exact Hsrc.
    rewrite Nat.sub_0_r, length_take, length_map.
    split; [apply Nat.min_comm | reflexivity].
Qed.

Lemma sanitize_line_one_column_per_byte_witness :
  exists dst',
    sanitize_line (replicate 81 NUL) 80 (ESC :: bytes "[31mred") 8
    = Ok (8, dst') /\
    take 8 dst' = DOT :: bytes "[31mred".
Proof.
  destruct (sanitize_line_one_column_per_byte (replicate 81 NUL)
              (ESC :: bytes "[31mred") 80)
    as ((col & dst' & Hrun & _ & Hcols) & _).
  - simpl. lia.
  - destruct Hcols as (Hcol & Htake).
    + repeat constructor; vm_compute; discriminate.
    + exists dst'. rewrite Hcol in Hrun, Htake.
      split; [exact Hrun | exact Htake].
Defined.

End SanitizeFacts.

(** ** The decorative mode *)

Section DecorativeFacts.

Import Decorative.

Variable terminator : byte -> bool.












End DecorativeFacts.


(** The ANSI cases of tests/test_sanitize.c.  The tests expect the colour
    reset ESC "[0m" behind the text in this mode, about which the
    specification says nothing; it is added here to what the mode
    returns. *)
Section DecorativeTests.

Import Decorative.

Let ansi (input : list byte) (max_cols : nat) : list byte :=
  (sanitize_line csi_final max_cols input).1 ++ Display.dim_off.

Example test_ansi_printable :
  ansi (bytes "hello") 80 = bytes "hello" ++ ESC :: bytes "[0m".
Proof. reflexivity. Qed.

Example test_ansi_csi_passed_through :
  ansi (ESC :: bytes "[31mred" ++ ESC :: bytes "[0m") 80
  = ESC :: bytes "[31mred" ++ ESC :: bytes "[0m" ++ ESC :: bytes "[0m".
Proof. reflexivity. Qed.

Example test_ansi_csi_takes_no_column :
  ansi (ESC :: bytes "[31mred" ++ ESC :: bytes "[0m") 3
  = ESC :: bytes "[31mred" ++ ESC :: bytes "[0m".
Proof. reflexivity. Qed.

Example test_ansi_truncation :
  ansi (ESC :: bytes "[31mhello world" ++ ESC :: bytes "[0m") 5
  = ESC :: bytes "[31mhello" ++ ESC :: bytes "[0m".
Proof. reflexivity. Qed.

Example test_ansi_two_byte_escape :
  ansi (ESC :: bytes "Mtext") 80 = ESC :: bytes "Mtext" ++ ESC :: bytes "[0m".
Proof. reflexivity. Qed.

Example test_ansi_control_char :
  ansi (bytes "a" ++ [x01] ++ bytes "z") 80
  = bytes "a.z" ++ ESC :: bytes "[0m".
Proof. reflexivity. Qed.

Example test_ansi_newline_stripped :
  ansi (bytes "abc" ++ [LF]) 80 = bytes "abc" ++ ESC :: bytes "[0m".
Proof. reflexivity. Qed.

Example test_ansi_tab :
  ansi [TAB] 80 = bytes "        " ++ ESC :: bytes "[0m".
Proof. reflexivity. Qed.

End DecorativeTests.

(** ** Frame compositor and session controller *)

Section DisplayFacts.

Import Display.

Lemma set_draw_same st : set_draw (g_draw_buf st) (g_draw_cap st) st = st.
Proof. destruct st. reflexivity. Qed.

Lemma draws_start st : Spec.draws st st (g_draw_buf st).
Proof. exists (g_draw_cap st). symmetry. apply set_draw_same. Qed.

Lemma draws_append st0 st b s n :
  Spec.draws st0 st b -> Spec.draws st0 (dbuf_append s n st) (b ++ take n s).
Proof.
  intros [cap ->]. unfold dbuf_append, dbuf_ensure, g_draw_len.
  destruct (_ <? _); eexists; reflexivity.
Qed.

Lemma draws_append_all st0 st b s :
  Spec.draws st0 st b -> Spec.draws st0 (dbuf_append s (length s) st) (b ++ s).
Proof.
  intros H. pose proof (draws_append st0 st b s (length s) H) as Happ.
  rewrite firstn_all in Happ. exact Happ.
Qed.

Lemma draws_printf st0 st b s :
  Spec.draws st0 st b -> Spec.draws st0 (dbuf_printf s st) (b ++ Spec.printed s).
Proof.
  intros H. unfold dbuf_printf, Spec.printed.
  destruct (Nat.ltb_spec 0 (length s)) as [Hpos | Hzero].
  - destruct (Nat.ltb_spec (length s) 256) as [Hfit | Hcut].
    + rewrite (take_ge s 255) by lia. apply draws_append_all, H.
    + apply draws_append, H.
  - destruct s; [|simpl in Hzero; lia]. simpl. rewrite app_nil_r. exact H.
Qed.

Lemma draws_reset st0 st b : Spec.draws st0 st b -> Spec.draws st0 (dbuf_reset st) [].
Proof. intros [cap ->]. eexists. reflexivity. Qed.

Lemma draws_when st0 st b (c : bool) (f : State -> State) x :
  (Spec.draws st0 st b -> Spec.draws st0 (f st) (b ++ x)) ->
  Spec.draws st0 st b ->
  Spec.draws st0 (if c then f st else st) (b ++ (if c then x else [])).
Proof.
  intros Hf H. destruct c; [apply Hf, H | rewrite app_nil_r; exact H].
Qed.

(** Only the draw buffer tells [st] from [st0]. *)
Lemma draws_frame st0 st b :
  Spec.draws st0 st b ->
  g_draw_buf st = b /\
  g_ring st = g_ring st0 /\ g_total_lines st = g_total_lines st0 /\
  g_term_rows st = g_term_rows st0 /\ g_term_cols st = g_term_cols st0 /\
  g_win_top st = g_win_top st0 /\
  g_scroll_bottom st = g_scroll_bottom st0 /\
  g_win_height st = g_win_height st0 /\
  g_tty_fd st = g_tty_fd st0 /\ g_is_tty st = g_is_tty st0 /\
  g_line_numbers st = g_line_numbers st0 /\ g_color st = g_color st0 /\
  g_started st = g_started st0 /\ g_resize st = g_resize st0 /\
  tty st = tty st0.
Proof. intros [cap ->]. repeat split. Qed.

Lemma draws_eq st0 st b b' : Spec.draws st0 st b -> b = b' -> Spec.draws st0 st b'.
Proof. intros H <-. exact H. Qed.

(** The gutter code of [build_redraw], for either kind of label. *)
Lemma draws_gutter st0 st b (put : State -> State) label :
  (forall st1 b1, Spec.draws st0 st1 b1 -> Spec.draws st0 (put st1) (b1 ++ label)) ->
  Spec.draws st0 st b ->
  Spec.draws st0
    (if g_line_numbers st then
       let st := if g_color st then dbuf_append dim_on 5 st else st in
       let st := put st in
       if g_color st then dbuf_append dim_off 4 st else st
     else st)
    (b ++ Spec.gutter st0 label).
Proof.
  intros Hput H. unfold Spec.gutter.
  destruct (draws_frame _ _ _ H) as (_ & _ & _ & _ & _ & _ & _ & _ & _ & _
                                      & Hnum & Hcol & _).
  rewrite Hnum. destruct (g_line_numbers st0);
    [|rewrite app_nil_r; exact H].
  cbv zeta.
  assert (Spec.draws st0 (if g_color st then dbuf_append dim_on 5 st else st)
            (b ++ (if g_color st0 then dim_on else []))) as H1.
  { rewrite Hcol. apply (draws_when st0 st b (g_color st0)
                           (dbuf_append dim_on 5) dim_on); [|exact H].
    apply (draws_append st0 st b dim_on 5). }
  apply Hput in H1.
  set (st2 := put _) in *.
  destruct (draws_frame _ _ _ H1) as (_ & _ & _ & _ & _ & _ & _ & _ & _ & _
                                       & _ & Hcol2 & _).
  rewrite Hcol2.
  eapply draws_eq.
  - eapply draws_when with (f := dbuf_append dim_off 4) (x := dim_off);
      [|exact H1].
    apply (draws_append st0 st2).
  - rewrite <- !app_assoc. reflexivity.
Qed.

Lemma readable_get rb i :
  Spec.readable rb -> Spec.readable_entry (Ring.ringbuf_get rb i).
Proof.
  intros Hrb. destruct (Nat.le_gt_cases (Ring.count rb) i) as [Hout | Hin].
  - rewrite get_beyond_count by exact Hout.
    unfold Spec.readable_entry. simpl. lia.
  - unfold Spec.readable in Hrb. rewrite Forall_forall in Hrb. apply Hrb.
    unfold Ring.retained. apply list_elem_of_In, in_map, in_seq. lia.
Qed.

(** One row of the loop appends [row_bytes] under the compositor's row
    mapping. *)
Lemma draw_row_spec st0 st b san row :
  Spec.draws st0 st b ->
  Spec.readable (g_ring st0) ->
  Spec.content_cols st0 <= length san ->
  exists san' st',
    draw_row (Spec.height st0) (Spec.content_cols st0) (Spec.base st0)
      row san st = Ok (san', st') /\
    length san' = length san /\
    Spec.draws st0 st' (b ++ Spec.row_bytes Spec.oldest_first st0 row).
Proof.
  intros H Hread Hsan. unfold draw_row.
  pose proof (draws_append st0 st b clear_line 5 H) as H1.
  set (st1 := dbuf_append clear_line 5 st) in *.
  destruct (draws_frame _ _ _ H1) as (_ & Hring & _).
  rewrite Hring.
  unfold Spec.row_bytes, Spec.row_text, Spec.oldest_first.
  set (tail := if row <? Spec.height st0 - 1 then [LF] else []).
  assert (forall line len st2 text,
    len <= length (c_object line) ->
    Spec.draws st0 st2 ((b ++ clear_line) ++ text) ->
    exists san' st',
      ('(slen, san') ← sanitize_line san (Spec.content_cols st0)
                         (c_object line) len;
       let st := if 0 <? slen then dbuf_append san' slen st2 else st2 in
       let st := if row <? Spec.height st0 - 1
                 then dbuf_append [LF] 1 st else st in
       Ok (san', st)) = Ok (san', st') /\
      length san' = length san /\
      Spec.draws st0 st'
        (b ++ clear_line ++
         (text ++ Spec.render (Spec.content_cols st0) 0
                    (take len (c_object line))) ++ tail)) as Hrest.
  { intros line len st2 text Hlen H2.
    destruct (sanitize_loop_spec (Spec.content_cols st0) (c_object line) len
                0 0 san) as (san' & Hrun & Hlen' & _ & Htake);
      [simpl; lia | exact Hsan | lia |].
    rewrite drop_0, Nat.add_0_l in Hrun, Htake. simpl in Htake.
    unfold sanitize_line. rewrite Hrun, bind_Ok. cbv zeta.
    set (r := Spec.render _ _ _) in *.
    exists san'. eexists. split; [reflexivity|]. split; [exact Hlen'|].
    eapply draws_eq.
    - eapply draws_when with (f := dbuf_append [LF] 1) (x := [LF]);
        [apply draws_append|].
      eapply draws_when with (f := dbuf_append san' (length r)) (x := r);
        [|exact H2].
      intros H3.
      pose proof (draws_append st0 st2 _ san' (length r) H3) as H4.
      rewrite Htake in H4. exact H4.
    - assert ((if 0 <? length r then r else []) = r) as ->
        by (destruct r; reflexivity).
      subst tail. rewrite <- !app_assoc. reflexivity. }
  destruct (row <? Ring.count (g_ring st0)).
  - destruct (Ring.ringbuf_get (g_ring st0) _) as [line len] eqn:Hget.
    apply Hrest.
    + pose proof (readable_get _ (if Ring.count (g_ring st0) <=? Spec.height st0
                                  then row
                                  else Ring.count (g_ring st0)
                                       - Spec.height st0 + row) Hread)
        as Hentry.
      rewrite Hget in Hentry. exact Hentry.
    + apply draws_gutter; [|exact H1].
      intros st2 b2 H2. apply draws_printf, H2.
  - edestruct (Hrest (Some []) 0) as (san' & st' & Hrun & Hlen & Hdraws);
      [simpl; lia | |].
    + apply draws_gutter; [|exact H1].
      intros st2 b2 H2.
      exact (draws_append_all st0 st2 b2 (bytes "     " ++ BAR) H2).
    + exists san', st'. split; [exact Hrun|]. split; [exact Hlen|].
      eapply draws_eq; [exact Hdraws|].
      cbn [take c_object Spec.render]. rewrite app_nil_r. reflexivity.
Qed.

Lemma draw_rows_spec st0 n : forall row san st b,
  Spec.draws st0 st b ->
  Spec.readable (g_ring st0) ->
  Spec.content_cols st0 <= length san ->
  exists st',
    draw_rows n (Spec.height st0) (Spec.content_cols st0) (Spec.base st0)
      row san st = Ok st' /\
    Spec.draws st0 st'
      (b ++ concat (map (Spec.row_bytes Spec.oldest_first st0) (seq row n))).
Proof.
  induction n as [|n IH]; intros row san st b H Hread Hsan;
    cbn [draw_rows seq map concat].
  - exists st. rewrite app_nil_r. auto.
  - destruct (draw_row_spec st0 st b san row H Hread Hsan)
      as (san' & st1 & Hrun & Hlen & H1).
    rewrite Hrun, bind_Ok.
    destruct (IH (S row) san' st1 _ H1 Hread) as (st' & Hrun' & H');
      [lia|].
    exists st'. split; [exact Hrun'|].
    rewrite app_assoc. exact H'.
Qed.

(** The whole frame, appended to the draw buffer; nothing else changes. *)
Lemma build_redraw_spec st :
  Spec.readable (g_ring st) ->
  exists st',
    build_redraw st = Ok st' /\
    Spec.draws st st' (g_draw_buf st ++ Spec.frame Spec.oldest_first st).
Proof.
  intros Hread. unfold build_redraw.
  pose proof (draws_printf st st _ (cursor_to (g_win_top st))
                (draws_start st)) as H1.
  set (st1 := dbuf_printf (cursor_to (g_win_top st)) st) in *.
  destruct (draws_frame _ _ _ H1) as (_ & Hring & Htotal & _).
  rewrite Hring, Htotal.
  assert ((if Ring.count (g_ring st) <? Z.to_nat (window_height st)
           then Ring.count (g_ring st) else Z.to_nat (window_height st))
          = min (Ring.count (g_ring st)) (Spec.height st)) as ->.
  { unfold Spec.height. destruct (Nat.ltb_spec (Ring.count (g_ring st))
                                    (Z.to_nat (window_height st))); lia. }
  destruct (draw_rows_spec st (Spec.height st) 0
              (replicate (Spec.content_cols st + 1) NUL) st1 _ H1 Hread)
    as (st2 & Hrun & H2); [rewrite length_replicate; lia|].
  change (draw_rows _ _ _ _ 0 _ st1) with
    (draw_rows (Spec.height st) (Spec.height st) (Spec.content_cols st)
       (Spec.base st) 0 (replicate (Spec.content_cols st + 1) NUL) st1).
  rewrite Hrun, bind_Ok.
  eexists. split; [reflexivity|].
  destruct (draws_frame _ _ _ H2) as (_ & _ & _ & _ & _ & _ & Hbottom & _).
  rewrite Hbottom. unfold Spec.frame, Spec.rows.
  eapply draws_eq.
  - eapply draws_when
      with (f := dbuf_printf (cursor_to (g_scroll_bottom st)))
           (x := Spec.printed (cursor_to (g_scroll_bottom st)));
      [apply draws_printf | exact H2].
  - rewrite <- !app_assoc. reflexivity.
Qed.

(** Whether or not its reads succeed, a row leaves [st0] as it is apart
    from the draw buffer. *)
Lemma draw_row_draws st0 st b height cols base row san :
  Spec.draws st0 st b ->
  match draw_row height cols base row san st with
  | Ok (_, st') => exists b', Spec.draws st0 st' b'
  | Fault _ => True
  end.
Proof.
  intros H. unfold draw_row.
  pose proof (draws_append st0 st b clear_line 5 H) as H1.
  set (st1 := dbuf_append clear_line 5 st) in *.
  assert (forall line len st2 b2,
    Spec.draws st0 st2 b2 ->
    match ('(slen, san') ← sanitize_line san cols (c_object line) len;
           let st := if 0 <? slen then dbuf_append san' slen st2 else st2 in
           let st := if row <? height - 1
                     then dbuf_append [LF] 1 st else st in
           Ok (san', st)) with
    | Ok (_, st') => exists b', Spec.draws st0 st' b'
    | Fault _ => True
    end) as Hrest.
  { intros line len st2 b2 H2.
    destruct (sanitize_line san cols (c_object line) len) as [[slen san']|f];
      [|exact I].
    rewrite bind_Ok. cbv zeta. eexists.
    eapply draws_when with (f := dbuf_append [LF] 1) (x := [LF]);
      [apply draws_append|].
    eapply draws_when with (f := dbuf_append san' slen) (x := take slen san');
      [apply draws_append | exact H2]. }
  destruct (row <? Ring.count (g_ring st1)).
  - destruct (Ring.ringbuf_get (g_ring st1) _) as [line len].
    eapply Hrest. apply draws_gutter; [|exact H1].
    intros st2 b2 H2. apply draws_printf, H2.
  - eapply Hrest. apply draws_gutter; [|exact H1].
    intros st2 b2 H2.
    exact (draws_append_all st0 st2 b2 (bytes "     " ++ BAR) H2).
Qed.

Lemma draw_rows_draws st0 height cols base n : forall row san st b,
  Spec.draws st0 st b ->
  match draw_rows n height cols base row san st with
  | Ok st' => exists b', Spec.draws st0 st' b'
  | Fault _ => True
  end.
Proof.
  induction n as [|n IH]; intros row san st b H; cbn [draw_rows].
  - exists b. exact H.
  - pose proof (draw_row_draws st0 st b height cols base row san H) as Hrow.
    destruct (draw_row height cols base row san st) as [[san' st1]|f];
      [|exact I].
    rewrite bind_Ok. destruct Hrow as [b1 H1]. apply (IH _ _ _ _ H1).
Qed.

Lemma build_redraw_draws st0 st b st' :
  Spec.draws st0 st b -> build_redraw st = Ok st' -> exists b', Spec.draws st0 st' b'.
Proof.
  intros H Hrun. unfold build_redraw in Hrun.
  pose proof (draws_printf st0 st b (cursor_to (g_win_top st)) H) as H1.
  set (st1 := dbuf_printf (cursor_to (g_win_top st)) st) in *.
  match type of Hrun with
  | context [draw_rows ?n ?h ?c ?bs 0 ?san st1] =>
      pose proof (draw_rows_draws st0 h c bs n 0 san st1 _ H1) as Hrows;
      destruct (draw_rows n h c bs 0 san st1) as [st2|f];
        [|discriminate Hrun]
  end.
  rewrite bind_Ok in Hrun. injection Hrun as <-.
  destruct Hrows as [b2 H2]. eexists.
  eapply draws_when
    with (f := dbuf_printf (cursor_to (g_scroll_bottom st2)))
         (x := Spec.printed (cursor_to (g_scroll_bottom st2)));
    [apply draws_printf | exact H2].
Qed.

Lemma draws_unchanged st0 st b : Spec.draws st0 st b -> Spec.unchanged st0 st.
Proof. intros [cap ->]. repeat split. Qed.

Lemma unchanged_flush accepted st0 st :
  Spec.unchanged st0 st -> Spec.unchanged st0 (dbuf_flush accepted st).
Proof.
  unfold dbuf_flush, tty_write. destruct (_ && _); [|auto].
  intros H. exact H.
Qed.

Lemma readable_one_line : Spec.readable (g_ring Sample.one_line).
Proof. repeat constructor. Qed.

(** C10: composing and emitting a frame changes the draw buffer only.
    Whenever [build_redraw] or [redraw_window] returns, the line history
    (lines, lengths, head, count), the line counter and the geometry (rows,
    columns, window top, scroll bottom, configured height) are as before;
    and both return whenever the history is readable. *)
Theorem redraw_changes_draw_buffer_only (accepted : Z) (st : State) :
  (forall st', build_redraw st = Ok st' -> Spec.unchanged st st') /\
  (forall st', redraw_window accepted st = Ok st' -> Spec.unchanged st st') /\
  (Spec.readable (g_ring st) ->
   (exists st', build_redraw st = Ok st') /\
   (exists st', redraw_window accepted st = Ok st')).
Proof.
  split; [|split].
  - intros st' Hrun.
    destruct (build_redraw_draws st st _ st' (draws_start st) Hrun)
      as [b' H'].
    apply (draws_unchanged _ _ _ H').
  - intros st' Hrun. unfold redraw_window in Hrun.
    destruct (g_is_tty st).
    + destruct (build_redraw (dbuf_reset st)) as [st1|f] eqn:Hbuild;
        [|discriminate Hrun].
      rewrite bind_Ok in Hrun. injection Hrun as <-.
      destruct (build_redraw_draws st (dbuf_reset st) _ st1
                  (draws_reset st st _ (draws_start st)) Hbuild) as [b' H'].
      apply unchanged_flush, (draws_unchanged _ _ _ H').
    + injection Hrun as <-. repeat split.
  - intros Hread. split.
    + destruct (build_redraw_spec st Hread) as (st' & Hrun & _). eauto.
    + unfold redraw_window. destruct (g_is_tty st); [|eauto].
      destruct (build_redraw_spec (dbuf_reset st) Hread) as (st' & Hrun & _).
      rewrite Hrun, bind_Ok. eauto.
Qed.

Lemma redraw_changes_draw_buffer_only_witness :
  exists st',
    redraw_window 1000 Sample.one_line = Ok st' /\
    Spec.unchanged Sample.one_line st'.
Proof.
  destruct (redraw_changes_draw_buffer_only 1000 Sample.one_line)
    as (_ & Hsame & Hruns).
  destruct (Hruns readable_one_line) as (_ & st' & Hrun).
  exists st'. split; [exact Hrun | exact (Hsame st' Hrun)].
Defined.

(** C3, as stated, fails while the window is filling.  With height 3
    and the single line "x" in the history, the frame shows "x" on the
    first row and leaves the last two rows blank: it is not the frame of
    the mapping that puts the newest line on the last row. *)
Lemma build_redraw_newest_not_last_counterexample :
  match build_redraw Sample.one_line with
  | Ok st' =>
      g_draw_buf st'
      = (ESC :: bytes "[22;1H")
        ++ (clear_line ++ bytes "x" ++ [LF])
        ++ (clear_line ++ [LF])
        ++ clear_line
        ++ (ESC :: bytes "[21;1H") /\
      g_draw_buf st' <> Spec.frame Spec.newest_last Sample.one_line
  | Fault _ => False
  end.
Proof. vm_compute. split; [reflexivity | discriminate]. Qed.

(** C3, amended: every frame has exactly [height] rows, each the gutter
    and sanitized content of one history entry or a blank row with blank
    gutter.  Row [r] shows entry [r] while the history holds at most
    [height] lines, so a window that is not yet full fills from its first
    row down and its blank rows are the last ones; once the history holds
    [height] lines or more, row [r] shows entry [count - height + r] and
    the newest line is on the last row. *)
Theorem build_redraw_rows (st : State) :
  Spec.readable (g_ring st) ->
  (exists st',
     build_redraw st = Ok st' /\
     g_draw_buf st' = g_draw_buf st ++ Spec.frame Spec.oldest_first st) /\
  length (Spec.rows Spec.oldest_first st) = Spec.height st /\
  Z.of_nat (Spec.height st) = window_height st /\
  (forall count height row,
     row < count -> count <= height ->
     Spec.oldest_first count height row = Some row) /\
  (forall count height row,
     count <= row -> Spec.oldest_first count height row = None) /\
  (forall count height row,
     row < height -> height <= count ->
     Spec.oldest_first count height row = Some (count - height + row)) /\
  (forall count height,
     0 < height -> height <= count ->
     Spec.oldest_first count height (height - 1) = Some (count - 1)).
Proof.
  intros Hread. split; [|split; [|split; [|split; [|split; [|split]]]]].
  - destruct (build_redraw_spec st Hread) as (st' & Hrun & H').
    exists st'. split; [exact Hrun|].
    apply (draws_frame _ _ _ H').
  - unfold Spec.rows. rewrite length_map, length_seq. reflexivity.
  - unfold Spec.height, window_height.
    destruct (_ <? g_win_height st)%Z;
      destruct (Z.ltb_spec (g_term_rows st - 1) 1);
      destruct (Z.ltb_spec (g_win_height st) 1); lia.
  - intros count height row Hrow Hcount. unfold Spec.oldest_first.
    destruct (Nat.ltb_spec row count); [|lia].
    destruct (Nat.leb_spec count height); [reflexivity | lia].
  - intros count height row Hrow. unfold Spec.oldest_first.
    destruct (Nat.ltb_spec row count); [lia | reflexivity].
  - intros count height row Hrow Hcount. unfold Spec.oldest_first.
    destruct (Nat.ltb_spec row count); [|lia].
    destruct (Nat.leb_spec count height); f_equal; lia.
  - intros count height Hpos Hcount. unfold Spec.oldest_first.
    destruct (Nat.ltb_spec (height - 1) count); [|lia].
    destruct (Nat.leb_spec count height); f_equal; lia.
Qed.

Lemma build_redraw_rows_witness :
  (exists st',
     build_redraw Sample.one_line = Ok st' /\
     g_draw_buf st' = Spec.frame Spec.oldest_first Sample.one_line) /\
  Spec.rows Spec.oldest_first Sample.one_line
  = [clear_line ++ bytes "x" ++ [LF]; clear_line ++ [LF]; clear_line].
Proof.
  destruct (build_redraw_rows Sample.one_line readable_one_line)
    as ((st' & Hrun & Hbuf) & _).
  split; [|reflexivity].
  exists st'. split; [exact Hrun | exact Hbuf].
Defined.

Lemma window_height_clamp st :
  window_height st
  = Z.max 1 (Z.min (g_win_height st) (g_term_rows st - 1)).
Proof.
  unfold window_height.
  destruct (Z.ltb_spec (g_term_rows st - 1) (g_win_height st));
    [destruct (Z.ltb_spec (g_term_rows st - 1) 1)
    |destruct (Z.ltb_spec (g_win_height st) 1)]; lia.
Qed.

Lemma ring_get_terminal_size ws st :
  g_ring (get_terminal_size ws st) = g_ring st /\
  g_win_height (get_terminal_size ws st) = g_win_height st /\
  g_started (get_terminal_size ws st) = g_started st /\
  g_is_tty (get_terminal_size ws st) = g_is_tty st /\
  g_tty_fd (get_terminal_size ws st) = g_tty_fd st /\
  g_resize (get_terminal_size ws st) = g_resize st /\
  tty (get_terminal_size ws st) = tty st /\
  g_total_lines (get_terminal_size ws st) = g_total_lines st.
Proof.
  unfold get_terminal_size. destruct ws as [[c r]|]; [|repeat split].
  destruct (_ <=? _)%Z; [|repeat split].
  destruct (0 <? c)%Z; destruct (0 <? r)%Z; repeat split.
Qed.

Lemma dbuf_flush_tty_only accepted st :
  dbuf_flush accepted st = set_tty (tty (dbuf_flush accepted st)) st.
Proof.
  unfold dbuf_flush, tty_write. destruct (_ && _); [reflexivity|].
  destruct st. reflexivity.
Qed.

Lemma frame_not_empty idx st b : b ++ Spec.frame idx st <> [].
Proof. intros H. apply app_eq_nil in H. destruct H as [_ H]. discriminate H. Qed.

(** Composing after the prefix [b] and flushing: the draw buffer is [b]
    and the frame, the terminal gets it in one [write], and nothing else
    of [st0] changes. *)
Lemma compose_and_flush st0 st b accepted :
  Spec.draws st0 st b ->
  Spec.readable (g_ring st0) ->
  exists st4 cap out,
    build_redraw st = Ok st4 /\
    dbuf_flush accepted st4
    = set_tty out
        (set_draw (b ++ Spec.frame Spec.oldest_first st0) cap st0) /\
    ((0 <= g_tty_fd st0)%Z ->
     out = tty st0 ++ [take (Z.to_nat accepted)
                         (b ++ Spec.frame Spec.oldest_first st0)]).
Proof.
  intros [cap ->] Hread.
  destruct (build_redraw_spec (set_draw b cap st0) Hread)
    as (st4 & Hrun & [cap4 E4]).
  exists st4, cap4, (tty (dbuf_flush accepted st4)).
  split; [exact Hrun|]. split.
  - rewrite dbuf_flush_tty_only at 1. rewrite E4. reflexivity.
  - intros Hfd. rewrite E4. unfold dbuf_flush, tty_write, g_draw_len.
    cbn [g_tty_fd g_draw_buf set_draw tty set_tty].
    assert ((0 <=? g_tty_fd st0)%Z = true) as ->
      by (apply Z.leb_le; exact Hfd).
    pose proof (frame_not_empty Spec.oldest_first st0 b) as Hne.
    change (Spec.frame Spec.oldest_first (set_draw b cap st0))
      with (Spec.frame Spec.oldest_first st0).
    assert ((0 <? length (b ++ Spec.frame Spec.oldest_first st0)) = true)
      as ->.
    { apply Nat.ltb_lt.
      destruct (b ++ Spec.frame Spec.oldest_first st0);
        [contradiction | simpl; lia]. }
    cbn [andb tty set_tty]. rewrite firstn_all. reflexivity.
Qed.

(** C6: on every resize of an established session, the effective height
    is the requested height clamped to [rows - 1] with minimum 1, the
    window is anchored at the bottom ([top = rows - height + 1], scroll
    bottom [= top - 1]), and the frame sent to the terminal starts with the
    set-scroll-region sequence exactly when the scroll bottom is at least
    2, and with the full-screen reset otherwise; a resize from 80x24 to
    80x10 with requested height 10 gives height 9, window rows 2 to 10 and
    the reset. *)
Theorem handle_resize_layout (ws : option (Z * Z)) (accepted : Z)
    (st : State) :
  g_started st = true ->
  Spec.readable (g_ring st) ->
  (exists st',
     handle_resize ws accepted st = Ok st' /\
     let rows := g_term_rows st' in
     let height := window_height st' in
     g_win_height st' = g_win_height st /\
     height = Z.max 1 (Z.min (g_win_height st) (rows - 1)) /\
     g_win_top st' = (rows - height + 1)%Z /\
     g_scroll_bottom st' = (g_win_top st' - 1)%Z /\
     g_resize st' = false /\
     g_draw_buf st'
     = (if (2 <=? g_scroll_bottom st')%Z
        then Spec.printed (scroll_region (g_scroll_bottom st'))
        else scroll_reset)
       ++ Spec.frame Spec.oldest_first st' /\
     ((0 <= g_tty_fd st)%Z ->
      tty st' = tty st ++ [take (Z.to_nat accepted) (g_draw_buf st')])) /\
  match handle_resize (Some (80, 10)%Z) accepted Sample.established with
  | Ok st' =>
      window_height st' = 9%Z /\
      g_win_top st' = 2%Z /\
      (g_win_top st' + window_height st' - 1 = 10)%Z /\
      g_scroll_bottom st' = 1%Z /\
      take 3 (g_draw_buf st') = scroll_reset /\
      g_draw_buf st'
      = scroll_reset ++ Spec.frame Spec.oldest_first st'
  | Fault _ => False
  end.
Proof.
  intros Hstarted Hread. split; [|vm_compute; repeat split].
  unfold handle_resize.
  set (st1 := get_terminal_size ws (set_resize false st)).
  destruct (ring_get_terminal_size ws (set_resize false st))
    as (Hring1 & Hheight1 & Hstarted1 & _ & Hfd1 & Hresize1 & Htty1 & _).
  fold st1 in Hring1, Hheight1, Hstarted1, Hfd1, Hresize1, Htty1.
  simpl in Hring1, Hheight1, Hstarted1, Hfd1, Hresize1, Htty1.
  set (top := (g_term_rows st1 - window_height st1 + 1)%Z).
  set (st2 := set_window top (top - 1)%Z st1).
  change (g_started st2) with (g_started st1). rewrite Hstarted1, Hstarted.
  set (prefix := if (2 <=? top - 1)%Z
                 then Spec.printed (scroll_region (top - 1)%Z)
                 else scroll_reset).
  assert (Spec.draws st2
            (if (2 <=? g_scroll_bottom (dbuf_reset st2))%Z
             then dbuf_printf (scroll_region
                                 (g_scroll_bottom (dbuf_reset st2)))
                    (dbuf_reset st2)
             else dbuf_append scroll_reset 3 (dbuf_reset st2))
            prefix) as H3.
  { subst prefix. change (g_scroll_bottom (dbuf_reset st2))
      with (top - 1)%Z.
    destruct (2 <=? top - 1)%Z.
    - apply (draws_printf st2 (dbuf_reset st2) []).
      apply (draws_reset st2 st2 _ (draws_start st2)).
    - apply (draws_append st2 (dbuf_reset st2) [] scroll_reset 3).
      apply (draws_reset st2 st2 _ (draws_start st2)). }
  destruct (compose_and_flush st2 _ prefix accepted H3)
    as (st4 & cap & out & Hrun & Hflush & Htty).
  { change (g_ring st2) with (g_ring st1). rewrite Hring1. exact Hread. }
  rewrite Hrun, bind_Ok, Hflush.
  eexists. split; [reflexivity|].
  cbn [g_win_height g_term_rows g_win_top g_scroll_bottom g_resize
       g_draw_buf tty set_tty set_draw set_window].
  change (window_height (set_tty out _)) with (window_height st1).
  change (Spec.frame Spec.oldest_first (set_tty out _))
    with (Spec.frame Spec.oldest_first st2).
  fold top. rewrite window_height_clamp, Hheight1.
  repeat split; try assumption; try reflexivity.
  { subst st2 top. cbn [g_win_top g_term_rows set_window].
    rewrite window_height_clamp, Hheight1. reflexivity. }
  intros Hfd. rewrite Htty by (change (g_tty_fd st2) with (g_tty_fd st1);
                               rewrite Hfd1; exact Hfd).
  change (tty st2) with (tty st1). rewrite Htty1. reflexivity.
Qed.

Lemma handle_resize_layout_witness :
  exists st',
    handle_resize (Some (80, 10)%Z) 1000 Sample.established = Ok st' /\
    window_height st' = 9%Z /\ g_win_top st' = 2%Z /\
    g_scroll_bottom st' = 1%Z /\
    g_draw_buf st' = scroll_reset ++ Spec.frame Spec.oldest_first st'.
Proof.
  destruct (handle_resize_layout (Some (80, 10)%Z) 1000 Sample.established
              eq_refl (Forall_nil_2 _))
    as ((st' & Hrun & _ & Hheight & Htop & Hbottom & _ & Hbuf & _) & _).
  exists st'. split; [exact Hrun|].
  vm_compute in Hrun. injection Hrun as <-.
  repeat split.
Defined.

Lemma draws_reserve_rows st0 n : forall st b,
  Spec.draws st0 st b -> Spec.draws st0 (reserve_rows n st) (b ++ replicate n LF).
Proof.
  induction n as [|n IH]; intros st b H; cbn [reserve_rows replicate].
  - rewrite app_nil_r. exact H.
  - eapply draws_eq.
    + apply IH. apply (draws_append st0 st b [LF] 1 H).
    + rewrite <- app_assoc. reflexivity.
Qed.

Lemma get_cursor_row_tty_only pr st :
  (get_cursor_row pr st).2
  = set_tty (tty (get_cursor_row pr st).2) st.
Proof.
  unfold get_cursor_row.
  destruct (_ <? _)%Z; [destruct st; reflexivity|].
  destruct (tcgetattr_ok pr); [|destruct st; reflexivity].
  destruct (tcsetattr_ok pr); [|destruct st; reflexivity].
  reflexivity.
Qed.

Lemma to_int_range z : (- 2 ^ 31 <= to_int z < 2 ^ 31)%Z.
Proof.
  unfold to_int.
  pose proof (Z.mod_pos_bound (z + 2 ^ 31) (2 ^ 32) ltac:(lia)). lia.
Qed.

Lemma to_int_small z : (- 2 ^ 31 <= z < 2 ^ 31)%Z -> to_int z = z.
Proof. intros H. unfold to_int. rewrite Z.mod_small by lia. lia. Qed.

Lemma get_cursor_row_range pr st :
  (- 2 ^ 31 <= (get_cursor_row pr st).1 < 2 ^ 31)%Z.
Proof.
  unfold get_cursor_row.
  destruct (_ <? _)%Z; [simpl; lia|].
  destruct (tcgetattr_ok pr); [|simpl; lia].
  destruct (tcsetattr_ok pr); [|simpl; lia].
  cbn [negb fst]. destruct (strchr _ _); [apply to_int_range | lia].
Qed.

(** C7: the fit test of [setup_window] adds the probe's row and the
    height as C [int]s.  When the terminal answers the cursor query with
    row 2147483647 on a 24-row terminal with height 5, the sum passes
    [INT_MAX] and comes out below the number of rows, so the window is put
    at that row, far off the terminal, with no newline emitted and a
    scroll region asked for down to row 2147483646, where the claim puts
    it at the bottom, rows 20 to 24, behind 4 newlines. *)
Theorem setup_window_row_overflow :
  match setup_window (Some (80, 24)%Z)
          (mkProbe true true 4 (ESC :: bytes "[2147483647;1R")) 1000
          (Sample.at_start 5) with
  | Ok st' =>
      (get_cursor_row (mkProbe true true 4 (ESC :: bytes "[2147483647;1R"))
         (get_terminal_size (Some (80, 24)%Z) (Sample.at_start 5))).1
      = 2147483647%Z /\
      g_term_rows st' = 24%Z /\ window_height st' = 5%Z /\
      g_win_top st' = 2147483647%Z /\
      g_win_top st' <> (g_term_rows st' - window_height st' + 1)%Z /\
      g_draw_buf st'
      = hide_cursor ++ (ESC :: bytes "[1;2147483646r")
        ++ Spec.frame Spec.oldest_first st' /\
      tty st' = [dsr_query; g_draw_buf st']
  | Fault _ => False
  end.
Proof. vm_compute. repeat split. discriminate. Qed.

(** X20: window placement.  At window setup on a terminal with a
    readable history, when the cursor probe reports a row [r > 0] with
    [r + height - 1 <= rows], the window top is [r] and no newline is
    emitted; when it reports a row that does not fit, or 0 for "unknown",
    and [r + height - 1] is within an [int], the window is flush against
    the bottom ([top = rows - height + 1]) and [height - 1] newlines are
    emitted first.  The scroll region is set over the rows above the
    window, and the terminal is offered all of it in one write behind the
    probe's query.  With height 5 on a 24-row terminal and the cursor on
    row 20, the window is rows 20 to 24 and the region rows 1 to 19. *)
Theorem setup_window_placement (ws : option (Z * Z)) (pr : probe)
    (accepted : Z) (st : State) :
  g_is_tty st = true ->
  Spec.readable (g_ring st) ->
  let r := (get_cursor_row pr (get_terminal_size ws st)).1 in
  (exists st',
     setup_window ws pr accepted st = Ok st' /\
     let rows := g_term_rows st' in
     let height := window_height st' in
     let region :=
       if (2 <=? g_scroll_bottom st')%Z
       then Spec.printed (scroll_region (g_scroll_bottom st')) else [] in
     ((0 < r)%Z -> (r + height - 1 <= rows)%Z ->
      g_win_top st' = r /\
      g_draw_buf st'
      = hide_cursor ++ region ++ Spec.frame Spec.oldest_first st') /\
     ((r + height - 1 < 2 ^ 31)%Z ->
      ~ ((0 < r)%Z /\ (r + height - 1 <= rows)%Z) ->
      g_win_top st' = (rows - height + 1)%Z /\
      g_draw_buf st'
      = replicate (Z.to_nat (height - 1)) LF ++ hide_cursor ++ region
        ++ Spec.frame Spec.oldest_first st') /\
     g_scroll_bottom st' = (g_win_top st' - 1)%Z /\
     g_started st' = true /\
     ((0 <= g_tty_fd st)%Z ->
      tty st'
      = tty (get_cursor_row pr (get_terminal_size ws st)).2
        ++ [take (Z.to_nat accepted) (g_draw_buf st')])) /\
  (response pr = [] -> r = 0%Z) /\
  match setup_window (Some (80, 24)%Z)
          (mkProbe true true 4 (ESC :: bytes "[20;1R")) accepted
          (Sample.at_start 5) with
  | Ok st' =>
      window_height st' = 5%Z /\
      g_win_top st' = 20%Z /\
      (g_win_top st' + window_height st' - 1 = 24)%Z /\
      g_scroll_bottom st' = 19%Z /\
      g_draw_buf st'
      = hide_cursor ++ (ESC :: bytes "[1;19r")
        ++ Spec.frame Spec.oldest_first st'
  | Fault _ => False
  end.
Proof.
  intros Htty Hread r. split; [|split; [|vm_compute; repeat split]].
  2:{ intros Hresp. subst r. unfold get_cursor_row. rewrite Hresp.
      destruct (_ <? _)%Z; [reflexivity|].
      destruct (tcgetattr_ok pr); [|reflexivity].
      destruct (tcsetattr_ok pr); reflexivity. }
  unfold setup_window. rewrite Htty.
  set (st1 := get_terminal_size ws st) in *.
  destruct (ring_get_terminal_size ws st)
    as (Hring1 & _ & _ & _ & Hfd1 & _).
  fold st1 in Hring1, Hfd1.
  pose proof (get_cursor_row_tty_only pr st1) as Hprobe.
  pose proof (get_cursor_row_range pr st1) as Hrange.
  destruct (get_cursor_row pr st1) as [row st2] eqn:Hrow.
  cbn [fst snd] in r, Hprobe, Hrange. subst r.
  set (below := (0 <? row)%Z
                && (to_int (row + window_height st1 - 1)
                    <=? g_term_rows st2)%Z).
  set (top := if below then row
              else (g_term_rows st2 - window_height st1 + 1)%Z).
  set (newlines := if below then 0%Z else (window_height st1 - 1)%Z).
  assert ((if below then (row, 0%Z)
           else ((g_term_rows st2 - window_height st1 + 1)%Z,
                 (window_height st1 - 1)%Z)) = (top, newlines)) as ->
    by (subst top newlines; destruct below; reflexivity).
  set (st3 := set_window top (top - 1)%Z st2).
  set (region := if (2 <=? top - 1)%Z
                 then Spec.printed (scroll_region (top - 1)%Z) else []).
  set (sth := dbuf_append hide_cursor 6
                (reserve_rows (Z.to_nat newlines) (dbuf_reset st3))).
  assert (Spec.draws st3 sth (([] ++ replicate (Z.to_nat newlines) LF)
                         ++ hide_cursor)) as Hh.
  { apply (draws_append st3 _ _ hide_cursor 6).
    apply draws_reserve_rows.
    apply (draws_reset st3 st3 _ (draws_start st3)). }
  destruct (draws_frame _ _ _ Hh) as (_ & _ & _ & _ & _ & _ & Hsb & _).
  rewrite Hsb. change (g_scroll_bottom st3) with (top - 1)%Z.
  assert (Spec.draws st3
            (if (2 <=? top - 1)%Z
             then dbuf_printf (scroll_region (top - 1)%Z) sth else sth)
            (replicate (Z.to_nat newlines) LF ++ hide_cursor ++ region))
    as H3.
  { eapply draws_eq.
    - eapply draws_when
        with (f := dbuf_printf (scroll_region (top - 1)%Z))
             (x := Spec.printed (scroll_region (top - 1)%Z));
        [apply draws_printf | exact Hh].
    - subst region. rewrite <- !app_assoc. reflexivity. }
  destruct (compose_and_flush st3 _ _ accepted H3)
    as (st4 & cap & out & Hrun & Hflush & Hout).
  { subst st3. rewrite Hprobe. change (Spec.readable (g_ring st1)).
    rewrite Hring1. exact Hread. }
  rewrite Hrun, bind_Ok, Hflush.
  eexists. split; [reflexivity|].
  cbn [g_term_rows g_win_top g_scroll_bottom g_started g_draw_buf tty
       set_started set_tty set_draw].
  change (window_height (set_started true _)) with (window_height st3).
  change (Spec.frame Spec.oldest_first (set_started true _))
    with (Spec.frame Spec.oldest_first st3).
  assert (window_height st3 = window_height st1) as Hheight.
  { subst st3. rewrite Hprobe. reflexivity. }
  assert (g_term_rows st3 = g_term_rows st2) as Hrows by reflexivity.
  assert (g_win_top st3 = top) as Htop by reflexivity.
  assert (g_scroll_bottom st3 = (top - 1)%Z) as Hbottom by reflexivity.
  rewrite Hheight, Hrows, Htop, Hbottom. fold region.
  pose proof (window_height_clamp st1) as Hclamp.
  pose proof (to_int_range (row + window_height st1 - 1)) as Hwrap.
  assert ((0 < row)%Z ->
          (row + window_height st1 - 1 <= g_term_rows st2)%Z ->
          below = true) as Hfits.
  { intros Hpos Hfit. subst below.
    destruct (Z.ltb_spec 0 row); [|lia]. cbn [andb]. apply Z.leb_le.
    destruct (Z.lt_ge_cases (row + window_height st1 - 1) (2 ^ 31)) as [Hs|Hb];
      [rewrite to_int_small by lia; exact Hfit | lia]. }
  assert ((row + window_height st1 - 1 < 2 ^ 31)%Z ->
          ~ ((0 < row)%Z /\
             (row + window_height st1 - 1 <= g_term_rows st2)%Z) ->
          below = false) as Hmisses.
  { intros Hsmall Hno. subst below.
    destruct (Z.ltb_spec 0 row); [|reflexivity]. cbn [andb].
    apply Z.leb_gt. rewrite to_int_small by lia. lia. }
  split; [|split; [|split; [|split]]].
  - intros Hpos Hfit. subst top newlines. rewrite (Hfits Hpos Hfit).
    split; [reflexivity | rewrite <- !app_assoc; reflexivity].
  - intros Hsmall Hno. subst top newlines. rewrite (Hmisses Hsmall Hno).
    split; [reflexivity | rewrite <- !app_assoc; reflexivity].
  - reflexivity.
  - reflexivity.
  - intros Hfd. rewrite Hout.
    + subst st3. cbn [tty set_window]. rewrite <- !app_assoc. reflexivity.
    + subst st3. cbn [g_tty_fd set_window]. rewrite Hprobe.
      cbn [g_tty_fd set_tty]. rewrite Hfd1. exact Hfd.
Qed.

Lemma setup_window_placement_witness :
  exists st',
    setup_window (Some (80, 24)%Z) (mkProbe true true 4 []) 1000
      (Sample.at_start 5) = Ok st' /\
    g_win_top st' = 20%Z /\ g_scroll_bottom st' = 19%Z /\
    take 4 (g_draw_buf st') = [LF; LF; LF; LF].
Proof.
  destruct (setup_window_placement (Some (80, 24)%Z)
              (mkProbe true true 4 []) 1000 (Sample.at_start 5)
              eq_refl (Forall_nil_2 _))
    as ((st' & Hrun & _ & Hbottom & _) & _).
  exists st'. split; [exact Hrun|].
  vm_compute in Hrun. injection Hrun as <-.
  repeat split.
Defined.

End DisplayFacts.

(** ** The tee loop *)

Section TeeFacts.

Import Display Tee TeeSpec.

Lemma file_step_spec written buf len i s :
  let s1 := file_step written buf len i s in
  let fails j := default false (g_files s !! j) && (written j <? len) in
  (disp s1 = disp s /\ stdout s1 = stdout s /\ g_flush s1 = g_flush s /\
   length (g_files s1) = length (g_files s) /\
   length (sink s1) = length (sink s)) /\
  (forall j, g_files s1 !! j
     = if j =? i
       then (fun b => b && negb (written j <? len)) <$> g_files s !! j
       else g_files s !! j) /\
  (forall j, sink s1 !! j
     = if (j =? i) && default false (g_files s !! j)
       then (fun d => d ++ take (written j) (take len buf)) <$> sink s !! j
       else sink s !! j) /\
  write_errors s1 = write_errors s ++ (if fails i then [i] else []) /\
  closed s1 = closed s ++ (if fails i then [i] else []).
Proof.
  cbv zeta. unfold file_step.
  destruct (g_files s !! i) as [[|]|] eqn:Hb; cbn [default from_option id].
  - destruct (written i <? len) eqn:Hw;
      cbn [disable fwrite disp stdout g_flush g_files sink write_errors
           closed andb id].
    + rewrite length_insert, length_alter. repeat split.
      * intros j. destruct (Nat.eqb_spec j i) as [->|Hne].
        -- rewrite list_lookup_insert_eq
             by (apply lookup_lt_Some in Hb; exact Hb).
           rewrite Hb. unfold fmap, option_fmap, option_map. rewrite ?Hw. reflexivity.
        -- rewrite list_lookup_insert_ne by congruence. reflexivity.
      * intros j. destruct (Nat.eqb_spec j i) as [->|Hne].
        -- rewrite Hb, list_lookup_alter_eq. reflexivity.
        -- rewrite list_lookup_alter_ne by congruence. reflexivity.
    + rewrite length_alter, !app_nil_r. repeat split.
      * intros j. destruct (Nat.eqb_spec j i) as [->|Hne]; [|reflexivity].
        rewrite Hb. unfold fmap, option_fmap, option_map. rewrite ?Hw. reflexivity.
      * intros j. destruct (Nat.eqb_spec j i) as [->|Hne].
        -- rewrite Hb, list_lookup_alter_eq. reflexivity.
        -- rewrite list_lookup_alter_ne by congruence. reflexivity.
  - cbn [andb]. rewrite !app_nil_r. repeat split.
    + intros j. destruct (Nat.eqb_spec j i) as [->|Hne]; [|reflexivity].
      rewrite Hb. reflexivity.
    + intros j. destruct (Nat.eqb_spec j i) as [->|Hne]; [|reflexivity].
      rewrite Hb. reflexivity.
  - cbn [andb]. rewrite !app_nil_r. repeat split.
    + intros j. destruct (Nat.eqb_spec j i) as [->|Hne]; [|reflexivity].
      rewrite Hb. reflexivity.
    + intros j. destruct (Nat.eqb_spec j i) as [->|Hne]; [|reflexivity].
      rewrite Hb. reflexivity.
Qed.

(** One pass of the file loop over the indices [i .. i + n): what each
    slot, each sink and the two logs look like afterwards. *)
Lemma write_loop_spec written buf len n : forall i s,
  let s' := write_loop n written buf len i s in
  let fails j := default false (g_files s !! j) && (written j <? len) in
  disp s' = disp s /\ stdout s' = stdout s /\ g_flush s' = g_flush s /\
  length (g_files s') = length (g_files s) /\
  length (sink s') = length (sink s) /\
  (forall j,
     g_files s' !! j
     = if (i <=? j) && (j <? i + n)
       then (fun b => b && negb (written j <? len)) <$> g_files s !! j
       else g_files s !! j) /\
  (forall j,
     sink s' !! j
     = if (i <=? j) && (j <? i + n) && default false (g_files s !! j)
       then (fun d => d ++ take (written j) (take len buf)) <$> sink s !! j
       else sink s !! j) /\
  write_errors s' = write_errors s ++ List.filter fails (seq i n) /\
  closed s' = closed s ++ List.filter fails (seq i n).
Proof.
  induction n as [|n IH]; intros i s; cbn [write_loop].
  - cbn zeta. repeat split; try (cbn; rewrite app_nil_r; reflexivity).
    + intros j. destruct (Nat.leb_spec i j); [|reflexivity].
      destruct (Nat.ltb_spec j (i + 0)); [lia | reflexivity].
    + intros j. destruct (Nat.leb_spec i j); [|reflexivity].
      destruct (Nat.ltb_spec j (i + 0)); [lia | reflexivity].
  - destruct (file_step_spec written buf len i s)
      as ((Hd1 & Ho1 & Hfl1 & Hlf1 & Hls1) & Hfiles1 & Hsink1 & Herr1 & Hcl1).
    set (s1 := file_step written buf len i s) in *.
    specialize (IH (S i) s1). cbv zeta in IH.
    destruct IH as (Hd & Ho & Hfl & Hlf & Hls & Hfiles & Hsink & Herr & Hcl).
    assert (List.filter (fun j => default false (g_files s1 !! j)
                             && (written j <? len)) (seq (S i) n)
            = List.filter (fun j => default false (g_files s !! j)
                               && (written j <? len)) (seq (S i) n)) as Hsame.
    { apply filter_ext_in. intros j Hj. apply in_seq in Hj.
      rewrite Hfiles1. destruct (Nat.eqb_spec j i); [lia | reflexivity]. }
    rewrite Hsame in Herr, Hcl.
    cbv zeta.
    split; [congruence|]. split; [congruence|]. split; [congruence|].
    split; [congruence|]. split; [congruence|].
    split; [|split; [|split]].
    + intros j. rewrite Hfiles, Hfiles1.
      destruct (Nat.eqb_spec j i) as [->|Hne].
      * destruct (Nat.leb_spec (S i) i); [lia|].
        destruct (Nat.leb_spec i i); [|lia].
        destruct (Nat.ltb_spec i (i + S n)); [|lia]. reflexivity.
      * destruct (Nat.leb_spec (S i) j); destruct (Nat.leb_spec i j);
          try lia; cbn [andb]; try reflexivity.
        destruct (Nat.ltb_spec j (S i + n));
          destruct (Nat.ltb_spec j (i + S n)); try lia; reflexivity.
    + intros j. rewrite Hsink, Hsink1, Hfiles1.
      destruct (Nat.eqb_spec j i) as [->|Hne].
      * destruct (Nat.leb_spec (S i) i); [lia|].
        destruct (Nat.leb_spec i i); [|lia].
        destruct (Nat.ltb_spec i (i + S n)); [|lia]. reflexivity.
      * destruct (Nat.leb_spec (S i) j); destruct (Nat.leb_spec i j);
          try lia; cbn [andb]; try reflexivity.
        destruct (Nat.ltb_spec j (S i + n));
          destruct (Nat.ltb_spec j (i + S n)); try lia; reflexivity.
    + rewrite Herr, Herr1. cbn [seq List.filter].
      destruct (default false (g_files s !! i) && (written i <? len));
        rewrite <- app_assoc; reflexivity.
    + rewrite Hcl, Hcl1. cbn [seq List.filter].
      destruct (default false (g_files s !! i) && (written i <? len));
        rewrite <- app_assoc; reflexivity.
Qed.

Lemma write_to_files_spec ev s :
  let s' := write_to_files (ev_written ev) (ev_line ev)
              (length (ev_line ev)) s in
  disp s' = disp s /\ stdout s' = stdout s /\ g_flush s' = g_flush s /\
  length (sink s') = length (sink s) /\
  g_files s' = files_step ev (g_files s) /\
  (forall j open data,
     g_files s !! j = Some open -> sink s !! j = Some data ->
     sink s' !! j
     = Some (sink_step (ev_line ev) (ev_written ev j) (open, data)).2 /\
     files_step ev (g_files s) !! j
     = Some (sink_step (ev_line ev) (ev_written ev j) (open, data)).1) /\
  write_errors s' = write_errors s ++ failing ev (g_files s) /\
  closed s' = closed s ++ failing ev (g_files s).
Proof.
  cbv zeta. unfold write_to_files, g_nfiles.
  destruct (write_loop_spec (ev_written ev) (ev_line ev)
              (length (ev_line ev)) (length (g_files s)) 0 s)
    as (Hd & Ho & Hfl & Hlf & Hls & Hfiles & Hsink & Herr & Hcl).
  split; [exact Hd|]. split; [exact Ho|]. split; [exact Hfl|].
  split; [exact Hls|]. split; [|split; [|split; [exact Herr | exact Hcl]]].
  - apply list_eq. intros j. unfold files_step.
    rewrite Hfiles, list_lookup_imap. cbn [Nat.leb andb Nat.add].
    destruct (Nat.ltb_spec j (length (g_files s))) as [Hlt | Hge];
      [reflexivity|].
    rewrite (lookup_ge_None_2 _ _ Hge). reflexivity.
  - intros j open data Hopen Hdata. unfold files_step.
    rewrite Hsink, list_lookup_imap, Hopen, Hdata.
    cbn [Nat.leb andb Nat.add default from_option id fmap option_fmap
         option_map].
    assert ((j <? length (g_files s)) = true) as ->
      by (apply Nat.ltb_lt; apply lookup_lt_Some in Hopen; exact Hopen).
    unfold sink_step. cbn [fst snd]. rewrite firstn_all.
    destruct open; cbn [andb fst snd]; split; try reflexivity.
    f_equal. destruct (Nat.ltb_spec (ev_written ev j) (length (ev_line ev)));
      destruct (Nat.leb_spec (length (ev_line ev)) (ev_written ev j));
      try lia; reflexivity.
Qed.

Lemma handle_resize_keeps ws accepted st :
  Spec.readable (g_ring st) ->
  exists st',
    handle_resize ws accepted st = Ok st' /\
    g_ring st' = g_ring st /\ g_total_lines st' = g_total_lines st /\
    g_is_tty st' = g_is_tty st.
Proof.
  intros Hread. unfold handle_resize.
  destruct (ring_get_terminal_size ws (set_resize false st))
    as (Hring1 & _ & _ & Htty1 & _ & _ & _ & Htotal1).
  set (st1 := get_terminal_size ws (set_resize false st)) in *.
  simpl in Hring1, Htty1, Htotal1.
  set (top := (g_term_rows st1 - window_height st1 + 1)%Z).
  set (st2 := set_window top (top - 1)%Z st1).
  destruct (g_started st2).
  - match goal with
    | |- context [build_redraw ?s] =>
        assert (exists b, Spec.draws st2 s b) as [b H3]
    end.
    { destruct (2 <=? _)%Z; eexists.
      - apply draws_printf. apply (draws_reset st2 st2 _ (draws_start st2)).
      - apply draws_append.
        apply (draws_reset st2 st2 _ (draws_start st2)). }
    destruct (compose_and_flush st2 _ b accepted H3)
      as (st4 & cap & out & Hrun & Hflush & _).
    { change (g_ring st2) with (g_ring st1). rewrite Hring1. exact Hread. }
    rewrite Hrun, bind_Ok, Hflush. eexists. split; [reflexivity|].
    cbn [g_ring g_total_lines g_is_tty set_tty set_draw].
    change (g_ring st2) with (g_ring st1).
    change (g_total_lines st2) with (g_total_lines st1).
    change (g_is_tty st2) with (g_is_tty st1). auto.
  - exists st2. split; [reflexivity|].
    change (g_ring st2) with (g_ring st1).
    change (g_total_lines st2) with (g_total_lines st1).
    change (g_is_tty st2) with (g_is_tty st1). auto.
Qed.

Lemma redraw_window_keeps accepted st :
  Spec.readable (g_ring st) ->
  exists st',
    redraw_window accepted st = Ok st' /\
    g_ring st' = g_ring st /\ g_total_lines st' = g_total_lines st /\
    g_is_tty st' = g_is_tty st.
Proof.
  intros Hread. unfold redraw_window. destruct (g_is_tty st) eqn:Htty.
  - destruct (compose_and_flush st (dbuf_reset st) [] accepted
                (draws_reset st st _ (draws_start st)) Hread)
      as (st4 & cap & out & Hrun & Hflush & _).
    rewrite Hrun, bind_Ok, Hflush. eexists. split; [reflexivity|].
    cbn [g_ring g_total_lines g_is_tty set_tty set_draw]. auto.
  - exists st. auto.
Qed.

Lemma readable_push ok rb line :
  Ring.wf rb -> Spec.readable rb ->
  Forall (fun b => code b <> 0%N) line ->
  Spec.readable (Ring.ringbuf_push ok rb line (length line)).
Proof.
  intros Hwf Hread Hline. unfold Spec.readable.
  rewrite retained_push by exact Hwf. apply Forall_app. split.
  - destruct (_ <? _); [exact Hread | apply Forall_drop, Hread].
  - constructor; [|constructor].
    unfold Spec.readable_entry, Spec.entry, Ring.strndup. cbn.
    destruct ok; cbn; [|lia].
    rewrite firstn_all, c_string_text, length_app by exact Hline.
    cbn. lia.
Qed.

Lemma size_t_succ z k :
  size_t (size_t z + k) = size_t (z + k).
Proof. unfold size_t. apply Zplus_mod_idemp_l. Qed.

(** One turn of the main loop on a line of text. *)
Lemma loop_body_spec ev s :
  ready s -> text_line (g_is_tty (disp s)) (ev_line ev) ->
  exists s',
    loop_body ev s = Ok s' /\
    ready s' /\
    g_is_tty (disp s') = g_is_tty (disp s) /\
    g_total_lines (disp s') = size_t (g_total_lines (disp s) + 1) /\
    g_ring (disp s')
    = (if g_is_tty (disp s)
       then Ring.ringbuf_push (ev_alloc ev) (g_ring (disp s)) (ev_line ev)
              (length (ev_line ev))
       else g_ring (disp s)) /\
    stdout s'
    = (if g_is_tty (disp s) then stdout s else stdout s ++ ev_line ev) /\
    g_files s' = files_step ev (g_files s) /\
    (forall j open data,
       g_files s !! j = Some open -> sink s !! j = Some data ->
       sink s' !! j
       = Some (sink_step (ev_line ev) (ev_written ev j) (open, data)).2 /\
       files_step ev (g_files s) !! j
       = Some (sink_step (ev_line ev) (ev_written ev j) (open, data)).1) /\
    write_errors s' = write_errors s ++ failing ev (g_files s) /\
    closed s' = closed s ++ failing ev (g_files s).
Proof.
  intros (Hwf & Hread & Hlen & Hrange) (Hne & Htext). unfold loop_body.
  set (d0 := if ev_sigwinch ev then set_resize true (disp s) else disp s).
  assert (g_ring d0 = g_ring (disp s) /\
          g_total_lines d0 = g_total_lines (disp s) /\
          g_is_tty d0 = g_is_tty (disp s)) as (Hr0 & Ht0 & Hy0)
    by (subst d0; destruct (ev_sigwinch ev); auto).
  assert (exists d1,
            (if g_resize d0
             then handle_resize (ev_winsize ev) (ev_resize_accepted ev) d0
             else Ok d0) = Ok d1 /\
            g_ring d1 = g_ring (disp s) /\
            g_total_lines d1 = g_total_lines (disp s) /\
            g_is_tty d1 = g_is_tty (disp s)) as (d1 & -> & Hr1 & Ht1 & Hy1).
  { destruct (g_resize d0); [|exists d0; auto].
    destruct (handle_resize_keeps (ev_winsize ev) (ev_resize_accepted ev) d0)
      as (d1 & Hrun & Hr & Ht & Hy); [rewrite Hr0; exact Hread|].
    exists d1. split; [exact Hrun|]. split; [congruence|].
    split; congruence. }
  rewrite bind_Ok.
  set (d2 := set_total_lines (size_t (g_total_lines d1 + 1)) d1).
  destruct (write_to_files_spec ev (set_disp d2 s))
    as (Hd & Ho & _ & Hls & Hfiles & Hsink & Herr & Hcl).
  set (s3 := write_to_files (ev_written ev) (ev_line ev)
               (length (ev_line ev)) (set_disp d2 s)) in *.
  cbn [set_disp disp stdout sink g_files write_errors closed]
    in Hd, Ho, Hls, Hfiles, Hsink, Herr, Hcl.
  change (g_is_tty d2) with (g_is_tty d1). rewrite Hy1.
  destruct (g_is_tty (disp s)) eqn:Htty.
  - set (d3 := set_ring _ d2).
    assert (g_ring d3 = Ring.ringbuf_push (ev_alloc ev) (g_ring (disp s))
                          (ev_line ev) (length (ev_line ev))) as Hr3
      by (subst d3 d2; cbn; rewrite Hr1; reflexivity).
    assert (Spec.readable (g_ring d3)) as Hread3
      by (rewrite Hr3; apply readable_push; auto).
    destruct (redraw_window_keeps (ev_redraw_accepted ev) d3 Hread3)
      as (d4 & Hrun & Hr4 & Ht4 & Hy4).
    rewrite Hrun, bind_Ok. eexists. split; [reflexivity|]. unfold ready.
    cbn [set_disp disp stdout sink g_files write_errors closed].
    rewrite Hr4, Ht4, Hy4, Hr3.
    split; [|repeat split; try assumption; try congruence].
    + split; [apply wf_push, Hwf|]. split; [rewrite <- Hr3; exact Hread3|].
      split; [rewrite Hls, Hfiles; unfold files_step;
              rewrite length_imap; exact Hlen|].
      subst d3 d2. cbn [g_total_lines set_ring set_total_lines].
      apply Z.mod_pos_bound. reflexivity.
    + subst d3 d2. cbn. rewrite Ht1. reflexivity.
    + apply Hsink; assumption.
    + apply Hsink with (data := data); assumption.
  - eexists. split; [reflexivity|]. unfold ready.
    cbn [set_stdout disp stdout sink g_files write_errors closed].
    rewrite Hd, Ho, firstn_all.
    change (g_ring d2) with (g_ring d1).
    change (g_is_tty d2) with (g_is_tty d1).
    change (g_total_lines d2) with (size_t (g_total_lines d1 + 1)).
    rewrite Hr1, Ht1, Hy1.
    split; [|repeat split; try assumption; try congruence].
    + split; [exact Hwf|]. split; [exact Hread|].
      split; [rewrite Hls, Hfiles; unfold files_step;
              rewrite length_imap; exact Hlen|].
      apply Z.mod_pos_bound. reflexivity.
    + apply Hsink; assumption.
    + apply Hsink with (data := data); assumption.
Qed.

Lemma sink_run_cons i ev rest x :
  sink_run i (ev :: rest) x
  = sink_run i rest (sink_step (ev_line ev) (ev_written ev i) x).
Proof. reflexivity. Qed.

(** The whole loop on lines of text: it reads every line and returns, and
    each part of the data path is a function of the lines and of the
    [fwrite] results alone. *)
Lemma main_loop_spec input : forall s,
  ready s ->
  Forall (fun ev => text_line (g_is_tty (disp s)) (ev_line ev)) input ->
  exists s',
    main_loop input s = Ok s' /\
    ready s' /\
    g_is_tty (disp s') = g_is_tty (disp s) /\
    g_total_lines (disp s')
    = size_t (g_total_lines (disp s) + Z.of_nat (length input)) /\
    g_ring (disp s')
    = (if g_is_tty (disp s)
       then Ring.push_all (g_ring (disp s)) (pushes input)
       else g_ring (disp s)) /\
    stdout s'
    = (if g_is_tty (disp s) then stdout s
       else stdout s ++ concat (map ev_line input)) /\
    g_files s' = files_run input (g_files s) /\
    (forall j open data,
       g_files s !! j = Some open -> sink s !! j = Some data ->
       sink s' !! j = Some (sink_run j input (open, data)).2 /\
       files_run input (g_files s) !! j
       = Some (sink_run j input (open, data)).1) /\
    write_errors s' = write_errors s ++ diagnostics input (g_files s) /\
    closed s' = closed s ++ diagnostics input (g_files s).
Proof.
  induction input as [|ev rest IH]; intros s Hready Htext.
  - exists s. cbn. rewrite Z.add_0_r, !app_nil_r.
    split; [reflexivity|]. split; [exact Hready|]. split; [reflexivity|].
    split.
    { destruct Hready as (_ & _ & _ & Hrange). unfold size_t.
      symmetry. apply Z.mod_small. exact Hrange. }
    split; [destruct (g_is_tty (disp s)); reflexivity|].
    split; [destruct (g_is_tty (disp s)); reflexivity|].
    split; [reflexivity|]. split; [|split; reflexivity].
    intros j open data Hopen Hdata. split; assumption.
  - inversion Htext as [|? ? Hev Hrest]; subst.
    destruct (loop_body_spec ev s Hready Hev)
      as (s1 & Hrun1 & Hready1 & Htty1 & Htotal1 & Hring1 & Hout1 & Hfiles1
          & Hsink1 & Herr1 & Hcl1).
    rewrite <- Htty1 in Hrest.
    destruct (IH s1 Hready1 Hrest)
      as (s' & Hrun & Hready' & Htty & Htotal & Hring & Hout & Hfiles
          & Hsink & Herr & Hcl).
    exists s'. cbn [main_loop].
    assert ((0 <? length (ev_line ev)) = true) as ->.
    { apply Nat.ltb_lt. destruct Hev as [Hne _].
      destruct (ev_line ev); [contradiction | simpl; lia]. }
    rewrite Hrun1, bind_Ok.
    split; [exact Hrun|]. split; [exact Hready'|].
    split; [congruence|].
    split.
    { rewrite Htotal, Htotal1, size_t_succ. f_equal.
      cbn [length]. lia. }
    split.
    { rewrite Hring, Htty1, Hring1.
      destruct (g_is_tty (disp s)); reflexivity. }
    split.
    { rewrite Hout, Htty1, Hout1.
      destruct (g_is_tty (disp s)); [reflexivity|].
      cbn [map concat]. rewrite <- app_assoc. reflexivity. }
    split; [rewrite Hfiles, Hfiles1; reflexivity|].
    split.
    { intros j open data Hopen Hdata.
      destruct (Hsink1 j open data Hopen Hdata) as (Hs1 & Hf1).
      rewrite <- Hfiles1 in Hf1.
      destruct (Hsink j _ _ Hf1 Hs1) as (Hs & Hf).
      rewrite sink_run_cons.
      destruct (sink_step (ev_line ev) (ev_written ev j) (open, data))
        as [open1 data1].
      rewrite Hfiles1 in Hf. split; [exact Hs | exact Hf]. }
    cbn [diagnostics]. rewrite Herr, Herr1, Hcl, Hcl1, Hfiles1, <- !app_assoc.
    split; reflexivity.
Qed.

Lemma sink_run_not_open i input : forall data,
  sink_run i input (false, data) = (false, data).
Proof.
  induction input as [|ev rest IH]; intros data; [reflexivity|].
  rewrite sink_run_cons. apply IH.
Qed.



Lemma count_occ_filter_seq (f : nat -> bool) i n : forall a,
  count_occ Nat.eq_dec (List.filter f (seq a n)) i
  = if (a <=? i) && (i <? a + n) && f i then 1 else 0.
Proof.
  induction n as [|n IH]; intros a.
  - cbn [seq List.filter count_occ]. index_cases.
  - cbn [seq List.filter]. destruct (f a) eqn:Hfa.
    + cbn [count_occ]. rewrite IH.
      destruct (Nat.eq_dec a i) as [->|Hne].
      * index_cases. rewrite Hfa. reflexivity.
      * index_cases.
    + rewrite IH. destruct (Nat.eq_dec a i) as [->|Hne].
      * index_cases. rewrite Hfa. reflexivity.
      * index_cases.
Qed.

Lemma count_occ_failing ev files i open :
  files !! i = Some open ->
  count_occ Nat.eq_dec (failing ev files) i
  = if open && negb (sink_step (ev_line ev) (ev_written ev i) (open, [])).1
    then 1 else 0.
Proof.
  intros Hopen. unfold failing. rewrite count_occ_filter_seq, Hopen.
  pose proof (lookup_lt_Some _ _ _ Hopen) as Hlt.
  cbn [Nat.leb andb Nat.add default from_option id].
  assert ((i <? length files) = true) as -> by (apply Nat.ltb_lt; exact Hlt).
  unfold sink_step. cbn [fst snd andb].
  destruct open; cbn [andb fst]; [|reflexivity].
  destruct (Nat.ltb_spec (ev_written ev i) (length (ev_line ev)));
    destruct (Nat.leb_spec (length (ev_line ev)) (ev_written ev i));
    try lia; reflexivity.
Qed.


Lemma sink_run_open_data i input : forall open data data',
  (sink_run i input (open, data)).1 = (sink_run i input (open, data')).1.
Proof.
  induction input as [|ev rest IH]; intros open data data'; [reflexivity|].
  rewrite !sink_run_cons. unfold sink_step. cbn [fst snd].
  destruct open; apply IH.
Qed.

Lemma files_step_lookup ev files i open :
  files !! i = Some open ->
  files_step ev files !! i
  = Some (sink_step (ev_line ev) (ev_written ev i) (open, [])).1.
Proof.
  intros Hopen. unfold files_step. rewrite list_lookup_imap, Hopen.
  unfold sink_step. cbn [fst snd fmap option_fmap option_map].
  destruct open; cbn [andb fst]; [|reflexivity].
  f_equal.
  destruct (Nat.ltb_spec (ev_written ev i) (length (ev_line ev)));
    destruct (Nat.leb_spec (length (ev_line ev)) (ev_written ev i));
    try lia; reflexivity.
Qed.

(** A file is reported at most once: exactly when it was open before the
    input and is not open after it. *)
Lemma count_occ_diagnostics i input : forall files open,
  files !! i = Some open ->
  count_occ Nat.eq_dec (diagnostics input files) i
  = if open && negb (sink_run i input (open, [])).1 then 1 else 0.
Proof.
  induction input as [|ev rest IH]; intros files open Hopen.
  - cbn. destruct open; reflexivity.
  - cbn [diagnostics]. rewrite count_occ_app.
    rewrite (count_occ_failing ev files i open Hopen).
    rewrite (IH _ _ (files_step_lookup ev files i open Hopen)).
    rewrite sink_run_cons.
    destruct open.
    + unfold sink_step. cbn [fst snd andb].
      destruct (length (ev_line ev) <=? ev_written ev i); cbn [negb].
      * rewrite Nat.add_0_l.
        rewrite (sink_run_open_data i rest true
                   ([] ++ take (ev_written ev i) (ev_line ev)) []).
        reflexivity.
      * rewrite !sink_run_not_open. reflexivity.
    + reflexivity.
Qed.







(** C1: the display path can end the run.  On a terminal session with
    two open files, the line 'a', 'b', NUL, 'c', LF is written to both
    files in full; the history then keeps a copy that ends at the NUL
    under the length 5, and composing the frame reads the line behind
    that copy.  The loop stops there, whatever lines follow, where the
    claim lets no failure of the display interrupt the data path. *)
Theorem tee_nul_line_stops_run (rest : list event) :
  sink (write_to_files (ev_written MoreSamples.nul_line)
          (ev_line MoreSamples.nul_line) 5 Sample.tee_start)
  = [ev_line MoreSamples.nul_line; ev_line MoreSamples.nul_line] /\
  Ring.ringbuf_get
    (Ring.ringbuf_push true (g_ring (disp Sample.tee_start))
       (ev_line MoreSamples.nul_line) 5) 0
  = (Some (bytes "ab"), 5) /\
  loop_body MoreSamples.nul_line Sample.tee_start = Fault OobRead /\
  main_loop (MoreSamples.nul_line :: rest) Sample.tee_start
  = Fault OobRead.
Proof.
  assert (loop_body MoreSamples.nul_line Sample.tee_start = Fault OobRead)
    as Hbody by (vm_compute; reflexivity).
  split; [reflexivity|]. split; [reflexivity|]. split; [exact Hbody|].
  cbn [main_loop]. rewrite Hbody. reflexivity.
Qed.



End TeeFacts.

(** * Further properties of the code *)

(** ** Line history *)

Section MoreRingFacts.

Import Ring.

Lemma head_push ok rb line len :
  head (ringbuf_push ok rb line len)
  = if count rb <? capacity rb then head rb
    else (head rb + 1) mod capacity rb.
Proof. reflexivity. Qed.

Lemma head_push_all cap ps :
  1 <= cap ->
  head (push_all (ringbuf_init cap) ps)
  = (length ps - count (push_all (ringbuf_init cap) ps)) mod cap.
Proof.
  intros Hcap. induction ps as [|p ps IH] using rev_ind.
  - cbn. rewrite Nat.Div0.mod_0_l. reflexivity.
  - rewrite push_all_snoc, head_push, count_push, capacity_push_all.
    rewrite IH, count_push_all, length_app. cbn [length ringbuf_init capacity].
    destruct (Nat.ltb_spec (min (length ps) cap) cap) as [Hlt | Hge].
    + replace (length ps + 1 - S (min (length ps) cap)) with 0 by lia.
      replace (length ps - min (length ps) cap) with 0 by lia.
      reflexivity.
    + rewrite Nat.Div0.add_mod_idemp_l. f_equal. lia.
Qed.

(** X1: [ringbuf_init] with a capacity of at least 1 and any number of
    pushes after it keep the buffer well formed: the capacity and the
    lengths of both arrays stay as allocated, [head] stays below the
    capacity and [count] at or below it.  [count] never decreases, and
    [head] has advanced once, modulo the capacity, for every push that
    found the buffer full. *)
Theorem ringbuf_stays_well_formed (cap : nat) (ps qs : list push_call) :
  1 <= cap ->
  let rb := push_all (ringbuf_init cap) ps in
  wf rb /\
  capacity rb = cap /\
  head rb = (length ps - count rb) mod cap /\
  count rb <= count (push_all rb qs) /\
  wf (push_all rb qs).
Proof.
  intros Hcap rb.
  assert (wf rb) as Hwf by (apply wf_push_all, wf_init; lia).
  split; [exact Hwf|].
  split; [subst rb; rewrite capacity_push_all; reflexivity|].
  split; [apply head_push_all, Hcap|].
  split; [|apply wf_push_all, Hwf].
  clear Hwf. generalize rb. clear rb.
  induction qs as [|q qs IH] using rev_ind; intros rb; [cbn; lia|].
  rewrite push_all_snoc, count_push. specialize (IH rb).
  destruct (_ <? _); lia.
Qed.

Lemma ringbuf_stays_well_formed_witness :
  let rb := push_all (ringbuf_init 2)
              [mkPush (bytes "1") 1 true; mkPush (bytes "2") 1 true;
               mkPush (bytes "3") 1 true] in
  head rb = 1 /\ count rb = 2 /\ capacity rb = 2.
Proof.
  intros rb.
  destruct (ringbuf_stays_well_formed 2
              [mkPush (bytes "1") 1 true; mkPush (bytes "2") 1 true;
               mkPush (bytes "3") 1 true] [] (le_S 1 1 (le_n 1)))
    as (_ & Hcap & Hhead & _).
  split; [exact Hhead|]. split; [reflexivity | exact Hcap].
Defined.

(** X2: one push on a well-formed buffer.  While the buffer is not full
    every retained entry keeps its index and the new entry is read at
    index [count]; on a full buffer every entry moves down one index, the
    oldest is gone and the new entry is the last. *)
Theorem ringbuf_push_step (ok : bool) (rb : RingBuf) (line : list byte)
    (len : nat) :
  wf rb ->
  let rb' := ringbuf_push ok rb line len in
  let new := Spec.entry (mkPush line len ok) in
  (count rb < capacity rb ->
   count rb' = S (count rb) /\
   (forall i, i < count rb -> ringbuf_get rb' i = ringbuf_get rb i) /\
   ringbuf_get rb' (count rb) = new) /\
  (count rb = capacity rb ->
   count rb' = count rb /\
   (forall i, S i < count rb -> ringbuf_get rb' i = ringbuf_get rb (S i)) /\
   ringbuf_get rb' (count rb - 1) = new).
Proof.
  intros Hwf rb' new. split.
  - intros Hlt. split; [|split].
    + subst rb'. rewrite count_push.
      destruct (Nat.ltb_spec (count rb) (capacity rb)); [reflexivity | lia].
    + intros i Hi. apply get_push_filling_old; assumption.
    + apply get_push_filling_new; assumption.
  - intros Hfull. split; [|split].
    + subst rb'. rewrite count_push.
      destruct (Nat.ltb_spec (count rb) (capacity rb)); [lia | reflexivity].
    + intros i Hi. apply get_push_full_old; [assumption.. | lia].
    + rewrite Hfull. apply get_push_full_new; assumption.
Qed.

Lemma ringbuf_push_step_witness :
  let rb := push_all (ringbuf_init 2)
              [mkPush (bytes "1") 1 true; mkPush (bytes "2") 1 true] in
  let rb' := ringbuf_push true rb (bytes "3") 1 in
  ringbuf_get rb' 0 = ringbuf_get rb 1 /\
  ringbuf_get rb' 1 = (Some (bytes "3"), 1).
Proof.
  intros rb rb'.
  destruct (ringbuf_push_step true rb (bytes "3") 1) as (_ & Hfull).
  - apply wf_push_all, wf_init. simpl. lia.
  - destruct (Hfull eq_refl) as (_ & Hold & Hnew).
    split; [apply Hold; simpl; lia | exact Hnew].
Defined.

Lemma lookup_retained r i :
  i < count r -> retained r !! i = Some (ringbuf_get r i).
Proof.
  intros Hi. unfold retained. change map with (@fmap list _).
  rewrite list_lookup_fmap, lookup_seq_lt by exact Hi. reflexivity.
Qed.

Lemma get_push_newest ok rb line len :
  wf rb ->
  let rb' := ringbuf_push ok rb line len in
  0 < count rb' /\
  ringbuf_get rb' (count rb' - 1) = Spec.entry (mkPush line len ok).
Proof.
  intros Hwf rb'.
  pose proof (retained_push ok rb line len Hwf) as Hr. fold rb' in Hr.
  pose proof (length_retained rb') as Hl. rewrite Hr in Hl.
  rewrite length_app in Hl. cbn [length] in Hl.
  split; [lia|].
  pose proof (lookup_retained rb' (count rb' - 1) ltac:(lia)) as H1.
  rewrite Hr, lookup_app_r in H1 by lia.
  replace (count rb' - 1 - _) with 0 in H1 by lia.
  cbn [lookup list_lookup] in H1. congruence.
Qed.

(** X3: a push whose [strndup] fails is not refused: it takes its slot
    like any other push, so [count] and [head] move as for a successful
    one and a full buffer still loses its oldest line; the slot then reads
    back as a [NULL] line of length 0. *)
Theorem ringbuf_push_failed_copy (rb : RingBuf) (line : list byte)
    (len : nat) :
  wf rb ->
  let failed := ringbuf_push false rb line len in
  let copied := ringbuf_push true rb line len in
  count failed = count copied /\
  head failed = head copied /\
  ringbuf_get failed (count failed - 1) = (None, 0) /\
  forall i, S i < count failed ->
    ringbuf_get failed i = ringbuf_get copied i.
Proof.
  intros Hwf failed copied.
  assert (count failed = count copied) as Hcount by reflexivity.
  split; [exact Hcount|]. split; [reflexivity|].
  pose proof (retained_push false rb line len Hwf) as Hf.
  pose proof (retained_push true rb line len Hwf) as Hc.
  fold failed in Hf. fold copied in Hc.
  set (old := if count rb <? capacity rb
              then retained rb else drop 1 (retained rb)) in *.
  assert (length old = count failed - 1) as Hold.
  { pose proof (length_retained failed) as Hl. rewrite Hf in Hl.
    rewrite length_app in Hl. cbn [length] in Hl. lia. }
  assert (forall r i, i < count r ->
            retained r !! i = Some (ringbuf_get r i)) as Hlook.
  { intros r i Hi. unfold retained. change map with (@fmap list _).
    rewrite list_lookup_fmap, lookup_seq_lt by exact Hi. reflexivity. }
  assert (0 < count failed) as Hpos.
  { pose proof (length_retained failed) as Hl. rewrite Hf in Hl.
    rewrite length_app in Hl. cbn [length] in Hl. lia. }
  split.
  - pose proof (Hlook failed (count failed - 1) ltac:(lia)) as H1.
    rewrite Hf, lookup_app_r, Hold, Nat.sub_diag in H1 by lia.
    change (Spec.entry _) with (@None (list byte), 0) in H1.
    cbn [lookup list_lookup] in H1. congruence.
  - intros i Hi.
    pose proof (Hlook failed i ltac:(lia)) as H1.
    pose proof (Hlook copied i ltac:(lia)) as H2.
    rewrite Hf, lookup_app_l in H1 by lia.
    rewrite Hc, lookup_app_l in H2 by lia.
    congruence.
Qed.

Lemma ringbuf_push_failed_copy_witness :
  let rb := push_all (ringbuf_init 2)
              [mkPush (bytes "1") 1 true; mkPush (bytes "2") 1 true] in
  ringbuf_get (ringbuf_push false rb (bytes "3") 1) 1 = (None, 0) /\
  ringbuf_get (ringbuf_push false rb (bytes "3") 1) 0
  = (Some (bytes "2"), 1).
Proof.
  intros rb.
  destruct (ringbuf_push_failed_copy rb (bytes "3") 1)
    as (_ & _ & Hnew & Hold).
  - apply wf_push_all, wf_init. simpl. lia.
  - split; [exact Hnew|]. rewrite Hold by (simpl; lia). reflexivity.
Defined.

(** *** The copies on the heap *)

Lemma released_app a b :
  Heap.released (a ++ b) = Heap.released a ++ Heap.released b.
Proof. apply omap_app. Qed.

Lemma released_insert (l : list (option (list byte))) i x y :
  l !! i = Some y ->
  Heap.released (<[i := x]> l) ++ option_list y
  ≡ₚ Heap.released l ++ option_list x.
Proof.
  intros Hy. pose proof (lookup_lt_Some _ _ _ Hy) as Hi.
  rewrite insert_take_drop by exact Hi.
  rewrite <- (take_drop_middle l i y Hy) at 3.
  rewrite !released_app.
  change (Heap.released (x :: drop (S i) l))
    with (Heap.released ([x] ++ drop (S i) l)).
  change (Heap.released (y :: drop (S i) l))
    with (Heap.released ([y] ++ drop (S i) l)).
  rewrite !released_app.
  assert (forall z : option (list byte), Heap.released [z] = option_list z)
    as Hone by (intros [z|]; reflexivity).
  rewrite !Hone.
  generalize (Heap.released (take i l)) (Heap.released (drop (S i) l))
    (option_list x) (option_list y).
  intros a b c d. rewrite <- !app_assoc.
  apply Permutation_app_head.
  rewrite (Permutation_app_comm c (b ++ d)), (app_assoc d b c).
  apply Permutation_app_tail, Permutation_app_comm.
Qed.

Lemma frees_snoc ps : forall rb p,
  Heap.frees rb (ps ++ [p])
  = Heap.frees rb ps ++ Heap.freed_by_push (push_all rb ps).
Proof.
  induction ps as [|q ps IH]; intros rb p; cbn [Heap.frees app push_all
    fold_left].
  - rewrite app_nil_r. reflexivity.
  - rewrite <- app_assoc. f_equal. apply IH.
Qed.

(** While the buffer fills, the slots behind [count] have never been
    written. *)
Lemma unused_slots cap ps :
  1 <= cap ->
  let rb := push_all (ringbuf_init cap) ps in
  forall j, count rb <= j -> j < cap -> lines rb !! j = Some None.
Proof.
  intros Hcap. induction ps as [|p ps IH] using rev_ind; intros rb j Hj Hlt.
  - subst rb. cbn [push_all fold_left ringbuf_init lines].
    apply lookup_replicate_2. exact Hlt.
  - subst rb. rewrite push_all_snoc in *. cbv zeta in IH.
    pose proof (head_push_all cap ps Hcap) as Hhead.
    pose proof (capacity_push_all ps (ringbuf_init cap)) as Hc.
    cbn [capacity ringbuf_init] in Hc.
    set (rb := push_all (ringbuf_init cap) ps) in *.
    rewrite count_push, Hc in Hj.
    unfold ringbuf_push. cbn [lines]. rewrite Hc.
    pose proof (count_push_all cap ps) as Hcount. fold rb in Hcount.
    destruct (Nat.ltb_spec (count rb) cap) as [Hfill | Hfull].
    + assert (head rb = 0) as H0.
      { rewrite Hhead. replace (length ps - count rb) with 0 by lia.
        apply Nat.Div0.mod_0_l. }
      rewrite H0, Nat.add_0_l, Nat.mod_small by lia.
      rewrite list_lookup_insert_ne by lia. apply IH; lia.
    + pose proof (wf_push_all ps (ringbuf_init cap)
                    (wf_init cap ltac:(lia))) as [_ _ _ _ Hk].
      fold rb in Hk. rewrite Hc in Hk. lia.
Qed.

(** X4: every line copy is freed exactly once.  Over any sequence of
    pushes into a fresh buffer followed by [ringbuf_free], the copies
    released, by the pushes that overwrite a slot of the full buffer and
    by the final loop over all slots, are exactly the copies [strndup]
    returned, each as often as it was made: none is leaked and none is
    freed twice. *)
Theorem ringbuf_copies_freed_once (cap : nat) (ps : list push_call) :
  1 <= cap ->
  let rb := push_all (ringbuf_init cap) ps in
  Heap.released (Heap.frees (ringbuf_init cap) ps ++ Heap.ringbuf_free rb)
  ≡ₚ Heap.copies ps.
Proof.
  intros Hcap rb.
  assert (Heap.ringbuf_free rb = lines rb) as ->.
  { pose proof (wf_push_all ps (ringbuf_init cap) (wf_init cap ltac:(lia)))
      as [_ Hl _ _ _]. fold rb in Hl.
    unfold Heap.ringbuf_free. rewrite <- Hl. clear.
    generalize (lines rb). intros l. apply list_eq. intros i.
    change map with (@fmap list _). rewrite list_lookup_fmap.
    destruct (Nat.lt_ge_cases i (length l)) as [Hi | Hi].
    - rewrite lookup_seq_lt by exact Hi. cbn.
      destruct (lookup_lt_is_Some_2 l i Hi) as [x ->]. reflexivity.
    - rewrite lookup_seq_ge by exact Hi.
      rewrite lookup_ge_None_2 by exact Hi. reflexivity. }
  subst rb. induction ps as [|p ps IH] using rev_ind.
  - cbn [Heap.frees push_all fold_left app ringbuf_init lines Heap.copies
         omap]. unfold Heap.released.
    induction cap as [|c IHc]; [reflexivity|].
    destruct c; [reflexivity | apply IHc; lia].
  - rewrite frees_snoc, push_all_snoc.
    pose proof (unused_slots cap ps Hcap) as Hunused. cbv zeta in Hunused.
    pose proof (head_push_all cap ps Hcap) as Hhead.
    pose proof (capacity_push_all ps (ringbuf_init cap)) as Hc.
    cbn [capacity ringbuf_init] in Hc.
    pose proof (count_push_all cap ps) as Hcount.
    pose proof (wf_push_all ps (ringbuf_init cap) (wf_init cap ltac:(lia)))
      as [_ Hl _ Hh Hk].
    set (rb := push_all (ringbuf_init cap) ps) in *.
    unfold Heap.copies. rewrite omap_app. fold (Heap.copies ps).
    set (dup := strndup (p_alloc p) (p_line p) (p_len p)).
    assert (omap (fun q => strndup (p_alloc q) (p_line q) (p_len q)) [p]
            = option_list dup) as ->
      by (subst dup; cbn; destruct (strndup _ _ _); reflexivity).
    rewrite <- IH. rewrite !released_app.
    unfold ringbuf_push, Heap.freed_by_push. cbn [lines]. fold dup.
    rewrite Hc in *.
    destruct (Nat.ltb_spec (count rb) cap) as [Hfill | Hfull].
    + assert (head rb = 0) as H0.
      { rewrite Hhead. replace (length ps - count rb) with 0 by lia.
        apply Nat.Div0.mod_0_l. }
      rewrite H0, Nat.add_0_l, Nat.mod_small by lia.
      cbn [Heap.released omap app]. rewrite app_nil_r.
      rewrite <- app_assoc. apply Permutation_app_head.
      pose proof (released_insert (lines rb) (count rb) dup None
                    (Hunused (count rb) ltac:(lia) Hfill)) as Hp.
      cbn [option_list] in Hp. rewrite app_nil_r in Hp. exact Hp.
    + destruct (lookup_lt_is_Some_2 (lines rb) (head rb)) as [y Hy];
        [lia|].
      rewrite Hy. cbn [default from_option id].
      assert (Heap.released [y] = option_list y) as ->
        by (destruct y; reflexivity).
      rewrite <- !app_assoc. apply Permutation_app_head.
      rewrite (Permutation_app_comm (option_list y)).
      apply (released_insert (lines rb) (head rb) dup y Hy).
Qed.

Lemma ringbuf_copies_freed_once_witness :
  Heap.released
    (Heap.frees (ringbuf_init 1)
       [mkPush (bytes "1") 1 true; mkPush (bytes "2") 1 false;
        mkPush (bytes "3") 1 true]
     ++ Heap.ringbuf_free
          (push_all (ringbuf_init 1)
             [mkPush (bytes "1") 1 true; mkPush (bytes "2") 1 false;
              mkPush (bytes "3") 1 true]))
  ≡ₚ [bytes "1"; bytes "3"].
Proof.
  apply (ringbuf_copies_freed_once 1
           [mkPush (bytes "1") 1 true; mkPush (bytes "2") 1 false;
            mkPush (bytes "3") 1 true]).
  lia.
Defined.

End MoreRingFacts.

(** ** Sanitizer *)

Section MoreSanitizeFacts.

Import Display.

Lemma render_full cap col s : cap <= col -> Spec.render cap col s = [].
Proof.
  intros Hge. destruct s as [|ch rest]; [reflexivity|]. cbn [Spec.render].
  destruct (Nat.ltb_spec col cap); [lia | reflexivity].
Qed.

Lemma render_take cap cap' s : forall col,
  col <= cap -> cap <= cap' ->
  Spec.render cap col s = take (cap - col) (Spec.render cap' col s).
Proof.
  induction s as [|ch rest IH]; intros col Hcol Hcap; cbn [Spec.render].
  - rewrite take_nil. reflexivity.
  - destruct (Nat.ltb_spec col cap) as [Hlt | Hge].
    + assert ((col <? cap') = true) as -> by (apply Nat.ltb_lt; lia).
      destruct (_ || _); [apply IH; assumption|].
      destruct (N.eqb _ _).
      * pose proof (Nat.mod_upper_bound col 8 ltac:(lia)) as Hm.
        generalize dependent (col mod 8). intros m Hm.
        destruct (Nat.le_gt_cases (min (8 - m) (cap' - col)) (cap - col))
          as [Hfit | Hcut].
        -- assert (min (8 - m) (cap - col) = min (8 - m) (cap' - col))
             as -> by lia.
           rewrite take_app_ge by (rewrite length_replicate; lia).
           rewrite length_replicate, IH by lia.
           do 2 f_equal. lia.
        -- rewrite take_app_le by (rewrite length_replicate; lia).
           rewrite take_replicate.
           assert (min (8 - m) (cap - col) = cap - col) as -> by lia.
           rewrite render_full by lia. rewrite app_nil_r.
           f_equal. lia.
      * destruct (cap - col) as [|k] eqn:Hk; [lia|]. cbn [take].
        rewrite IH by lia. do 2 f_equal. lia.
    + replace (cap - col) with 0 by lia. rewrite take_0. reflexivity.
Qed.

Lemma render_drop_eol cap s1 s2 b : forall col,
  col <= cap ->
  code b = code LF \/ code b = code CR ->
  Spec.render cap col (s1 ++ b :: s2) = Spec.render cap col (s1 ++ s2).
Proof.
  intros col Hcol Hb. rewrite !render_app by exact Hcol. f_equal.
  pose proof (render_length cap s1 col Hcol) as Hlen.
  cbn [Spec.render].
  destruct (Nat.ltb_spec (col + length (Spec.render cap col s1)) cap)
    as [Hlt | Hge]; [|rewrite render_full by exact Hge; reflexivity].
  assert (N.eqb (code b) (code LF) || N.eqb (code b) (code CR) = true)
    as ->; [|reflexivity].
  destruct Hb as [-> | ->]; rewrite N.eqb_refl; [reflexivity|].
  apply orb_true_r.
Qed.

Lemma sanitize_loop_app cap src n1 n2 : forall i col dst,
  sanitize_loop (n1 + n2) cap src i col dst
  = '(col', dst') ← sanitize_loop n1 cap src i col dst;
    sanitize_loop n2 cap src (i + n1) col' dst'.
Proof.
  induction n1 as [|n1 IH]; intros i col dst.
  - cbn [sanitize_loop Nat.add]. rewrite bind_Ok, Nat.add_0_r. reflexivity.
  - cbn [sanitize_loop Nat.add].
    replace (i + S n1) with (S i + n1) by lia.
    destruct (col <? cap) eqn:Hlt.
    + destruct (load src i) as [ch | f]; [rewrite !bind_Ok | reflexivity].
      destruct (_ || _); [apply IH|].
      destruct (N.eqb _ _).
      { destruct (tab_loop _ _ _ _) as [[col1 dst1] | f];
          [rewrite !bind_Ok; apply IH | reflexivity]. }
      destruct (_ || _);
        (destruct (store _ _ _) as [dst1 | f];
           [rewrite !bind_Ok; apply IH | reflexivity]).
    + rewrite bind_Ok. destruct n2; cbn [sanitize_loop];
        [reflexivity | rewrite Hlt; reflexivity].
Qed.

(** X5: the sanitized text depends on the budget and on the first
    [src_len] bytes of the line only: the previous content of the scratch
    buffer and whatever follows the line in its buffer never show, and
    within these bounds the call cannot fault. *)
Theorem sanitize_line_ignores_scratch (dst dst' src src' : list byte)
    (dst_cap src_len : nat) :
  dst_cap <= length dst -> dst_cap <= length dst' ->
  src_len <= length src -> src_len <= length src' ->
  take src_len src = take src_len src' ->
  sanitized dst dst_cap src src_len = sanitized dst' dst_cap src' src_len /\
  exists out, sanitized dst dst_cap src src_len = Ok out.
Proof.
  intros Hd Hd' Hs Hs' Heq.
  rewrite !sanitized_render by assumption. rewrite Heq. eauto.
Qed.

Lemma sanitize_line_ignores_scratch_witness :
  sanitized (bytes "????") 4 (bytes "ab?") 2
  = sanitized (bytes "----") 4 (bytes "ab") 2.
Proof.
  apply (sanitize_line_ignores_scratch (bytes "????") (bytes "----")
           (bytes "ab?") (bytes "ab") 4 2); simpl; try lia; reflexivity.
Defined.

(** X6: truncation cuts the tail and nothing else: the text sanitized
    with a budget of [dst_cap] columns is the first [dst_cap] bytes of the
    text sanitized with any larger budget, also when the cut falls inside
    an expanded tab. *)
Theorem sanitize_line_truncates_to_prefix (dst src : list byte)
    (dst_cap wider src_len : nat) :
  dst_cap <= wider -> wider <= length dst -> src_len <= length src ->
  exists out full,
    sanitized dst dst_cap src src_len = Ok out /\
    sanitized dst wider src src_len = Ok full /\
    out = take dst_cap full.
Proof.
  intros Hcap Hd Hs. do 2 eexists.
  rewrite !sanitized_render by lia.
  split; [reflexivity|]. split; [reflexivity|].
  rewrite (render_take dst_cap wider) by lia.
  rewrite Nat.sub_0_r. reflexivity.
Qed.

Lemma sanitize_line_truncates_to_prefix_witness :
  exists out full,
    sanitized (replicate 16 NUL) 3 (bytes "a" ++ [TAB] ++ bytes "b") 3
    = Ok out /\
    sanitized (replicate 16 NUL) 16 (bytes "a" ++ [TAB] ++ bytes "b") 3
    = Ok full /\
    out = take 3 full.
Proof.
  apply (sanitize_line_truncates_to_prefix (replicate 16 NUL)
           (bytes "a" ++ [TAB] ++ bytes "b") 3 16 3); simpl; lia.
Defined.

(** X7: LF and CR are dropped wherever they stand, not only at the end
    of the line: a line with an LF or CR in it sanitizes to the same text
    as the line without that byte. *)
Theorem sanitize_line_drops_inner_newline (dst pre post : list byte)
    (b : byte) (dst_cap : nat) :
  dst_cap <= length dst ->
  code b = code LF \/ code b = code CR ->
  sanitized dst dst_cap (pre ++ b :: post) (length pre + 1 + length post)
  = sanitized dst dst_cap (pre ++ post) (length pre + length post).
Proof.
  intros Hd Hb.
  rewrite !sanitized_render by (rewrite ?length_app; simpl; lia).
  rewrite !take_ge by (rewrite ?length_app; simpl; lia).
  f_equal. apply render_drop_eol; [lia | exact Hb].
Qed.

Lemma sanitize_line_drops_inner_newline_witness :
  sanitized (replicate 8 NUL) 8 (bytes "ab" ++ CR :: bytes "cd") 5
  = sanitized (replicate 8 NUL) 8 (bytes "abcd") 4.
Proof.
  apply (sanitize_line_drops_inner_newline (replicate 8 NUL) (bytes "ab")
           (bytes "cd") CR 8); [simpl; lia | right; reflexivity].
Defined.

(** X8: sanitizing is idempotent: text that [sanitize_line] produced is
    returned unchanged when it is sanitized again with the same budget. *)
Theorem sanitize_line_idempotent (dst src out : list byte)
    (dst_cap src_len : nat) :
  dst_cap <= length dst -> src_len <= length src ->
  sanitized dst dst_cap src src_len = Ok out ->
  sanitized dst dst_cap out (length out) = Ok out.
Proof.
  intros Hd Hs Hout. rewrite sanitized_render in Hout by assumption.
  injection Hout as <-.
  rewrite sanitized_render, firstn_all by lia.
  rewrite render_plain_text by apply render_plain.
  pose proof (render_length dst_cap (take src_len src) 0 ltac:(lia)).
  rewrite take_ge by lia. reflexivity.
Qed.

Lemma sanitize_line_idempotent_witness :
  sanitized (replicate 8 NUL) 8 (bytes "a.      ") 8
  = Ok (bytes "a.      ").
Proof.
  apply (sanitize_line_idempotent (replicate 8 NUL)
           (bytes "a" ++ [ESC; TAB] ++ bytes "b") (bytes "a.      ") 8 4);
    [simpl; lia | simpl; lia | reflexivity].
Defined.

(** X9: a line with a NUL inside it is stored as a copy that ends at the
    NUL, but with the full length.  When the compositor later sanitizes
    [len] bytes of that entry with room for more than the copy, the read
    runs past the copy's terminating NUL. *)
Theorem embedded_nul_read_past_copy (rb : Ring.RingBuf)
    (dst pre post : list byte) (dst_cap : nat) :
  Ring.wf rb ->
  Forall Spec.plain pre -> post <> [] ->
  length pre + 2 <= dst_cap -> dst_cap <= length dst ->
  let line := pre ++ [NUL] ++ post in
  let rb' := Ring.ringbuf_push true rb line (length line) in
  let e := Ring.ringbuf_get rb' (Ring.count rb' - 1) in
  e = (Some pre, length line) /\
  sanitize_line dst dst_cap (c_object e.1) e.2 = Fault OobRead.
Proof.
  intros Hwf Hpre Hpost Hcap Hd line rb' e.
  assert (e = (Some pre, length line)) as He.
  { subst e rb'.
    destruct (get_push_newest true rb line (length line) Hwf)
      as [_ ->].
    unfold Spec.entry, Ring.strndup. cbn [Ring.p_alloc Ring.p_line Ring.p_len].
    rewrite firstn_all. do 2 f_equal. subst line. clear -Hpre.
    induction Hpre as [|b s [Hb _] _ IH]; [reflexivity|].
    cbn [app Ring.c_string] in *.
    destruct (N.eqb_spec (code b) 0) as [H0 | _]; [lia|].
    rewrite IH. reflexivity. }
  split; [exact He|]. rewrite He. cbn [fst snd c_object].
  unfold sanitize_line, line. rewrite !length_app.
  cbn [length app]. rewrite Nat.add_assoc.
  rewrite (sanitize_loop_app dst_cap _ (length pre + 1) (length post)).
  destruct (sanitize_loop_spec dst_cap (pre ++ [NUL]) (length pre + 1)
              0 0 dst) as (dst1 & Hrun & _);
    [rewrite length_app; simpl; lia | exact Hd | lia |].
  rewrite Hrun, bind_Ok. clear Hrun.
  rewrite drop_0, take_ge by (rewrite length_app; simpl; lia).
  rewrite render_app, render_plain_text by (exact Hpre || lia).
  rewrite Nat.sub_0_r, take_ge by lia.
  cbn [Nat.add]. cbn [Spec.render].
  assert ((length pre <? dst_cap) = true) as -> by (apply Nat.ltb_lt; lia).
  change (N.eqb (code NUL) (code LF) || N.eqb (code NUL) (code CR))
    with false.
  change (N.eqb (code NUL) (code TAB)) with false.
  cbn iota. rewrite length_app. cbn [length].
  destruct post as [|p post]; [contradiction|]. cbn [length sanitize_loop].
  assert ((length pre + 1 <? dst_cap) = true) as ->
    by (apply Nat.ltb_lt; lia).
  unfold load. rewrite lookup_ge_None_2; [reflexivity|].
  rewrite length_app. simpl. lia.
Qed.

Lemma embedded_nul_read_past_copy_witness :
  let line := bytes "ab" ++ [NUL] ++ bytes "c" in
  let rb' := Ring.ringbuf_push true (Ring.ringbuf_init 2) line 4 in
  Ring.ringbuf_get rb' 0 = (Some (bytes "ab"), 4) /\
  sanitize_line (replicate 8 SPACE) 8 (bytes "ab" ++ [NUL]) 4
  = Fault OobRead.
Proof.
  intros line rb'.
  destruct (embedded_nul_read_past_copy (Ring.ringbuf_init 2)
              (replicate 8 SPACE) (bytes "ab") (bytes "c") 8)
    as [He Hf].
  - apply wf_init. lia.
  - repeat constructor; discriminate.
  - discriminate.
  - simpl. lia.
  - simpl. lia.
  - split; [exact He | rewrite He in Hf; exact Hf].
Defined.

End MoreSanitizeFacts.

(** ** Draw buffer and terminal output *)

Section MoreDisplayFacts.

Import Display.

(** Whatever every [dbuf_append] keeps, composing a frame keeps. *)
Section Appends.

Variable P : State -> Prop.
Hypothesis P_append : forall s n st, P st -> P (dbuf_append s n st).

Lemma P_printf f st : P st -> P (dbuf_printf f st).
Proof.
  intros H. unfold dbuf_printf. destruct (0 <? _); [apply P_append|]; exact H.
Qed.

Ltac appends :=
  repeat first
    [ assumption
    | apply P_append
    | apply P_printf
    | match goal with |- P (if ?c then _ else _) => destruct c end ].

Lemma P_draw_row height cols base row san st san' st' :
  P st ->
  draw_row height cols base row san st = Ok (san', st') -> P st'.
Proof.
  intros H Hrun. unfold draw_row in Hrun.
  set (st1 := dbuf_append clear_line 5 st) in *.
  assert (P st1) as H1 by (apply P_append, H).
  clearbody st1.
  destruct (row <? Ring.count (g_ring st1));
    [destruct (Ring.ringbuf_get (g_ring st1) _) as [line len]|];
    cbv beta iota zeta in Hrun;
    (destruct (sanitize_line _ _ _ _) as [[slen san1]|f];
       [rewrite bind_Ok in Hrun | discriminate Hrun]);
    injection Hrun as _ <-; appends.
Qed.

Lemma P_draw_rows height cols base n : forall row san st st',
  P st -> draw_rows n height cols base row san st = Ok st' -> P st'.
Proof.
  induction n as [|n IH]; intros row san st st' H Hrun;
    cbn [draw_rows] in Hrun.
  - injection Hrun as <-. exact H.
  - destruct (draw_row height cols base row san st) as [[san1 st1]|f] eqn:E;
      [|discriminate Hrun].
    rewrite bind_Ok in Hrun.
    eapply IH; [|exact Hrun]. eapply P_draw_row; [exact H | exact E].
Qed.

Lemma P_build_redraw st st' : P st -> build_redraw st = Ok st' -> P st'.
Proof.
  intros H Hrun. unfold build_redraw in Hrun.
  match type of Hrun with
  | context [draw_rows ?n ?h ?c ?bs 0 ?san ?s1] =>
      destruct (draw_rows n h c bs 0 san s1) as [st2|f] eqn:E;
        [|discriminate Hrun];
      assert (P st2) as H2
        by (eapply P_draw_rows; [|exact E]; apply P_printf, H)
  end.
  rewrite bind_Ok in Hrun. injection Hrun as <-. appends.
Qed.

End Appends.

Lemma length_append s n st :
  g_draw_len (dbuf_append s n st) = g_draw_len st + min n (length s) /\
  g_draw_len (dbuf_append s n st) <= g_draw_len st + n /\
  g_draw_cap st <= g_draw_cap (dbuf_append s n st) /\
  g_draw_len st + n <= g_draw_cap (dbuf_append s n st).
Proof.
  unfold dbuf_append, dbuf_ensure, g_draw_len.
  destruct (Nat.ltb_spec (g_draw_cap st) (length (g_draw_buf st) + n));
    cbn [g_draw_buf g_draw_cap set_draw];
    rewrite length_app, length_take; lia.
Qed.

(** X10: the draw buffer never outgrows its allocation.  [dbuf_append]
    makes room before it copies, so an append of [n] bytes that its
    argument holds adds exactly these [n] bytes and the length stays
    within the capacity; so it does after every formatted append and
    after a whole composed frame.  The capacity never shrinks, and a reset
    keeps the allocation and empties the buffer.  A formatted append adds
    the whole text up to 255 bytes and the first 255 bytes of a longer
    one. *)
Theorem draw_buffer_within_capacity (st : State) :
  g_draw_len st <= g_draw_cap st ->
  (forall s n,
     n <= length s ->
     let st' := dbuf_append s n st in
     g_draw_buf st' = g_draw_buf st ++ take n s /\
     g_draw_len st' = g_draw_len st + n /\
     g_draw_len st' <= g_draw_cap st' /\
     g_draw_cap st <= g_draw_cap st') /\
  (forall f,
     let st' := dbuf_printf f st in
     g_draw_buf st' = g_draw_buf st ++ take 255 f /\
     g_draw_len st' <= g_draw_cap st' /\
     g_draw_cap st <= g_draw_cap st') /\
  (g_draw_len (dbuf_reset st) = 0 /\
   g_draw_cap (dbuf_reset st) = g_draw_cap st) /\
  (forall st',
     build_redraw st = Ok st' ->
     g_draw_len st' <= g_draw_cap st' /\ g_draw_cap st <= g_draw_cap st').
Proof.
  intros Hinv. split; [|split; [|split]].
  - intros s n Hn st'. subst st'.
    destruct (length_append s n st) as (H1 & _ & H3 & H4).
    split; [|lia].
    unfold dbuf_append, dbuf_ensure.
    destruct (_ <? _); reflexivity.
  - intros f st'. subst st'. split.
    + pose proof (draws_printf st st _ f (draws_start st)) as H.
      apply (draws_frame _ _ _ H).
    + unfold dbuf_printf. destruct (0 <? length f); [|lia].
      match goal with |- context [dbuf_append f ?n st] =>
        destruct (length_append f n st) as (_ & H2 & H3 & H4) end.
      lia.
  - split; reflexivity.
  - intros st' Hrun.
    apply (P_build_redraw
             (fun s => g_draw_len s <= g_draw_cap s /\
                       g_draw_cap st <= g_draw_cap s)) with (st := st);
      [|lia | exact Hrun].
    intros s n s0 [H1 H2].
    destruct (length_append s n s0) as (_ & H3 & H4 & H5). lia.
Qed.

Lemma draw_buffer_within_capacity_witness :
  let st' := dbuf_append hide_cursor 6 Sample.one_line in
  g_draw_len st' = 6 /\ 6 <= g_draw_cap st'.
Proof.
  intros st'.
  destruct (draw_buffer_within_capacity Sample.one_line (le_n 0))
    as (Happ & _).
  destruct (Happ hide_cursor 6) as (_ & Hlen & Hcap & _).
  - simpl. lia.
  - split; [exact Hlen | ].
    etransitivity; [|exact Hcap]. rewrite Hlen. apply le_n.
Defined.

(** *** Shape of the results, whether or not the history is readable *)

Lemma set_tty_same st : set_tty (tty st) st = st.
Proof. destruct st. reflexivity. Qed.

Lemma tty_dbuf_flush accepted st :
  tty (dbuf_flush accepted st)
  = tty st ++
    (if (0 <=? g_tty_fd st)%Z && (0 <? g_draw_len st)
     then [take (Z.to_nat accepted) (g_draw_buf st)] else []).
Proof.
  unfold dbuf_flush, tty_write, g_draw_len.
  destruct (_ && _); cbn [tty set_tty];
    [rewrite firstn_all | rewrite app_nil_r]; reflexivity.
Qed.

Lemma build_redraw_after st0 st b st' accepted :
  Spec.draws st0 st b -> build_redraw st = Ok st' ->
  exists b' cap w,
    dbuf_flush accepted st' = set_tty (tty st0 ++ w) (set_draw b' cap st0) /\
    length w <= 1 /\
    ((g_tty_fd st0 < 0)%Z -> w = []) /\
    ((0 <= g_tty_fd st0)%Z -> b' <> [] ->
     w = [take (Z.to_nat accepted) b']).
Proof.
  intros H Hrun.
  destruct (build_redraw_draws st0 st b st' H Hrun) as [b' [cap ->]].
  exists b', cap. eexists. split; [|split; [|split]].
  - rewrite dbuf_flush_tty_only, tty_dbuf_flush. reflexivity.
  - destruct (_ && _); simpl; lia.
  - intros Hfd. cbn [g_tty_fd set_draw].
    destruct (Z.leb_spec 0 (g_tty_fd st0)); [lia | reflexivity].
  - intros Hfd Hb. unfold g_draw_len. cbn [g_tty_fd g_draw_buf set_draw].
    destruct (Z.leb_spec 0 (g_tty_fd st0)); [|lia].
    destruct b'; [contradiction | reflexivity].
Qed.

Lemma redraw_window_shape accepted st st' :
  g_is_tty st = true ->
  redraw_window accepted st = Ok st' ->
  exists b cap w,
    st' = set_tty (tty st ++ w) (set_draw b cap st) /\
    length w <= 1 /\ ((g_tty_fd st < 0)%Z -> w = []).
Proof.
  intros Htty Hrun. unfold redraw_window in Hrun. rewrite Htty in Hrun.
  destruct (build_redraw (dbuf_reset st)) as [st1|f] eqn:E;
    [|discriminate Hrun].
  rewrite bind_Ok in Hrun. injection Hrun as <-.
  destruct (build_redraw_after st (dbuf_reset st) [] st1 accepted
              (draws_reset st st _ (draws_start st)) E)
    as (b & cap & w & -> & Hlen & Hfd & _).
  exists b, cap, w. auto.
Qed.

Lemma handle_resize_shape ws accepted st st' :
  handle_resize ws accepted st = Ok st' ->
  let st1 := get_terminal_size ws (set_resize false st) in
  let top := (g_term_rows st1 - window_height st1 + 1)%Z in
  exists b cap w,
    st' = set_tty (tty st ++ w)
            (set_draw b cap (set_window top (top - 1)%Z st1)) /\
    length w <= 1 /\
    ((g_tty_fd st < 0)%Z \/ g_started st = false -> w = []).
Proof.
  intros Hrun st1 top. unfold handle_resize in Hrun.
  fold st1 in Hrun. fold top in Hrun.
  destruct (ring_get_terminal_size ws (set_resize false st))
    as (_ & _ & Hstarted1 & _ & Hfd1 & _ & Htty1 & _).
  fold st1 in Hstarted1, Hfd1, Htty1.
  cbn [g_started g_tty_fd tty set_resize] in Hstarted1, Hfd1, Htty1.
  set (st2 := set_window top (top - 1)%Z st1) in *.
  change (g_started st2) with (g_started st1) in Hrun.
  rewrite Hstarted1 in Hrun.
  destruct (g_started st) eqn:Hstarted.
  - match type of Hrun with
    | context [build_redraw ?x] =>
        assert (exists bx, Spec.draws st2 x bx) as [bx Hx]
    end.
    { destruct (2 <=? _)%Z; eexists.
      - apply (draws_printf st2 (dbuf_reset st2) []).
        apply (draws_reset st2 st2 _ (draws_start st2)).
      - apply (draws_append st2 (dbuf_reset st2) [] scroll_reset 3).
        apply (draws_reset st2 st2 _ (draws_start st2)). }
    match type of Hrun with
    | context [build_redraw ?x] =>
        destruct (build_redraw x) as [st4|f] eqn:E; [|discriminate Hrun]
    end.
    rewrite bind_Ok in Hrun. injection Hrun as <-.
    destruct (build_redraw_after st2 _ bx st4 accepted Hx E)
      as (b & cap & w & -> & Hlen & Hfd & _).
    exists b, cap, w. change (tty st2) with (tty st1). rewrite Htty1.
    split; [reflexivity|]. split; [exact Hlen|].
    intros [Hneg | Hns]; [|discriminate Hns].
    apply Hfd. change (g_tty_fd st2) with (g_tty_fd st1). lia.
  - injection Hrun as <-.
    exists (g_draw_buf st2), (g_draw_cap st2), [].
    rewrite app_nil_r, <- Htty1. change (tty st1) with (tty st2).
    rewrite set_draw_same, set_tty_same. auto.
Qed.

Lemma get_cursor_row_shape pr st :
  exists w,
    (get_cursor_row pr st).2 = set_tty (tty st ++ w) st /\
    length w <= 1 /\
    ((g_tty_fd st < 0)%Z -> w = [] /\ (get_cursor_row pr st).1 = 0%Z).
Proof.
  unfold get_cursor_row.
  destruct (Z.ltb_spec (g_tty_fd st) 0) as [Hneg | Hfd].
  { exists []. rewrite app_nil_r, set_tty_same. auto. }
  destruct (tcgetattr_ok pr);
    [|exists []; rewrite app_nil_r, set_tty_same; simpl;
      split; [reflexivity | split; [lia | intros; lia]]].
  destruct (tcsetattr_ok pr);
    [|exists []; rewrite app_nil_r, set_tty_same; simpl;
      split; [reflexivity | split; [lia | intros; lia]]].
  eexists. cbn [fst snd negb]. split; [reflexivity|].
  split; [simpl; lia | intros; lia].
Qed.

Lemma setup_window_shape ws pr accepted st st' :
  g_is_tty st = true ->
  setup_window ws pr accepted st = Ok st' ->
  let st1 := get_terminal_size ws st in
  let row := (get_cursor_row pr st1).1 in
  let height := window_height st1 in
  let top :=
    if (0 <? row)%Z && (to_int (row + height - 1) <=? g_term_rows st1)%Z
    then row else (g_term_rows st1 - height + 1)%Z in
  exists b cap w,
    st' = set_started true
            (set_tty (tty st ++ w)
               (set_draw b cap (set_window top (top - 1)%Z st1))) /\
    length w <= 2 /\
    ((g_tty_fd st < 0)%Z -> w = []).
Proof.
  intros Htty Hrun st1 row height top. unfold setup_window in Hrun.
  rewrite Htty in Hrun. fold st1 in Hrun. fold height in Hrun.
  destruct (ring_get_terminal_size ws st)
    as (_ & _ & _ & _ & Hfd1 & _ & Htty1 & _).
  fold st1 in Hfd1, Htty1.
  destruct (get_cursor_row_shape pr st1) as (w1 & Hst & Hlen1 & Hneg1).
  subst row. destruct (get_cursor_row pr st1) as [row st2].
  cbn [fst snd] in *. subst st2.
  change (g_term_rows (set_tty (tty st1 ++ w1) st1))
    with (g_term_rows st1) in Hrun.
  set (below := (0 <? row)%Z
                && (to_int (row + height - 1) <=? g_term_rows st1)%Z) in *.
  set (newlines := if below then 0%Z else (height - 1)%Z).
  assert ((if below then (row, 0%Z)
           else ((g_term_rows st1 - height + 1)%Z, (height - 1)%Z))
          = (top, newlines)) as E
    by (subst top newlines; destruct below; reflexivity).
  rewrite E in Hrun. clear E.
  set (st3 := set_window top (top - 1)%Z (set_tty (tty st1 ++ w1) st1)) in *.
  match type of Hrun with
  | context [build_redraw ?x] =>
      assert (exists bx, Spec.draws st3 x bx) as [bx Hx]
  end.
  { assert (Spec.draws st3
              (dbuf_append hide_cursor 6
                 (reserve_rows (Z.to_nat newlines) (dbuf_reset st3)))
              (([] ++ replicate (Z.to_nat newlines) LF) ++ hide_cursor))
      as Hh.
    { apply (draws_append st3 _ _ hide_cursor 6).
      apply draws_reserve_rows.
      apply (draws_reset st3 st3 _ (draws_start st3)). }
    destruct (2 <=? _)%Z; eexists; [apply draws_printf|]; exact Hh. }
  match type of Hrun with
  | context [build_redraw ?x] =>
      destruct (build_redraw x) as [st4|f] eqn:E; [|discriminate Hrun]
  end.
  rewrite bind_Ok in Hrun. injection Hrun as <-.
  destruct (build_redraw_after st3 _ bx st4 accepted Hx E)
    as (b & cap & w & -> & Hlen & Hfd & _).
  exists b, cap, (w1 ++ w).
  split; [|split].
  - subst st3. cbn [tty set_tty set_window]. rewrite Htty1, app_assoc.
    reflexivity.
  - rewrite length_app. lia.
  - intros Hneg. destruct (Hneg1 ltac:(lia)) as [-> _].
    rewrite Hfd; [reflexivity|].
    subst st3. cbn [g_tty_fd set_tty set_window]. lia.
Qed.

(** X11: every display routine reaches the terminal through a single
    [write] of its whole frame: whenever it returns, [redraw_window] and
    [handle_resize] have issued at most one write and [setup_window] at
    most two (the cursor query, then the frame).  Nothing is written
    without a terminal descriptor, by [redraw_window] and [setup_window]
    when the output is not a terminal, and by [handle_resize] before the
    window is set up, which then leaves the draw buffer alone too. *)
Theorem display_writes_whole_frames (ws : option (Z * Z)) (pr : probe)
    (accepted : Z) (st : State) :
  (forall st', redraw_window accepted st = Ok st' ->
     exists w, tty st' = tty st ++ w /\ length w <= 1 /\
       ((g_tty_fd st < 0)%Z \/ g_is_tty st = false -> w = [])) /\
  (forall st', handle_resize ws accepted st = Ok st' ->
     exists w, tty st' = tty st ++ w /\ length w <= 1 /\
       ((g_tty_fd st < 0)%Z \/ g_started st = false -> w = []) /\
       (g_started st = false -> g_draw_buf st' = g_draw_buf st)) /\
  (forall st', setup_window ws pr accepted st = Ok st' ->
     exists w, tty st' = tty st ++ w /\ length w <= 2 /\
       ((g_tty_fd st < 0)%Z \/ g_is_tty st = false -> w = [])).
Proof.
  split; [|split]; intros st' Hrun.
  - destruct (g_is_tty st) eqn:Htty.
    + destruct (redraw_window_shape accepted st st' Htty Hrun)
        as (b & cap & w & -> & Hlen & Hfd).
      exists w. split; [reflexivity|]. split; [exact Hlen|].
      intros [Hneg | Hno]; [auto | discriminate Hno].
    + unfold redraw_window in Hrun. rewrite Htty in Hrun.
      injection Hrun as <-. exists []. rewrite app_nil_r. simpl. auto.
  - pose proof (handle_resize_shape ws accepted st st' Hrun) as Hshape.
    cbv zeta in Hshape. destruct Hshape as (b & cap & w & E & Hlen & Hfd).
    exists w. split; [rewrite E; reflexivity|]. split; [exact Hlen|].
    split; [exact Hfd|].
    intros Hns. unfold handle_resize in Hrun.
    destruct (ring_get_terminal_size ws (set_resize false st))
      as (_ & _ & Hstarted1 & _).
    cbn [g_started set_window] in Hrun.
    rewrite Hstarted1 in Hrun. cbn [g_started set_resize] in Hrun.
    rewrite Hns in Hrun. injection Hrun as <-.
    cbn [g_draw_buf set_window].
    unfold get_terminal_size. destruct ws as [[c r]|]; [|reflexivity].
    destruct (_ <=? _)%Z; [|reflexivity].
    destruct (0 <? c)%Z; destruct (0 <? r)%Z; reflexivity.
  - destruct (g_is_tty st) eqn:Htty.
    + pose proof (setup_window_shape ws pr accepted st st' Htty Hrun)
        as Hshape.
      cbv zeta in Hshape. destruct Hshape as (b & cap & w & E & Hlen & Hfd).
      exists w. split; [rewrite E; reflexivity|]. split; [exact Hlen|].
      intros [Hneg | Hno]; [auto | discriminate Hno].
    + unfold setup_window in Hrun. rewrite Htty in Hrun.
      injection Hrun as <-. exists []. rewrite app_nil_r. simpl. auto.
Qed.

Lemma rows_get_terminal_size ws st :
  (1 <= g_term_rows st)%Z -> (1 <= g_term_rows (get_terminal_size ws st))%Z.
Proof.
  intros H. unfold get_terminal_size. destruct ws as [[c r]|]; [|exact H].
  destruct (_ <=? _)%Z; [|exact H].
  destruct (0 <? c)%Z; destruct (Z.ltb_spec 0 r);
    cbn [g_term_rows set_size]; lia.
Qed.

(** X12: the window lies on the terminal.  Starting from a terminal of
    at least one row, whatever size the [ioctl] reports, [handle_resize]
    leaves at least one row, a window top of at least 1, the last window
    row [top + height - 1] within the terminal, and the scroll bottom on
    the row above the window; and so does [setup_window] for every row the
    cursor probe reports for which the sum [row + height - 1] of the fit
    test is within an [int]. *)
Theorem window_within_terminal (ws : option (Z * Z)) (pr : probe)
    (accepted : Z) (st st' : State) :
  (1 <= g_term_rows st)%Z ->
  handle_resize ws accepted st = Ok st' \/
  (g_is_tty st = true /\ setup_window ws pr accepted st = Ok st' /\
   ((get_cursor_row pr (get_terminal_size ws st)).1
    + window_height (get_terminal_size ws st) - 1 < 2 ^ 31)%Z) ->
  (1 <= g_term_rows st')%Z /\
  (1 <= window_height st')%Z /\
  (1 <= g_win_top st')%Z /\
  (g_win_top st' + window_height st' - 1 <= g_term_rows st')%Z /\
  g_scroll_bottom st' = (g_win_top st' - 1)%Z.
Proof.
  intros Hrows [Hrun | (Htty & Hrun & Hsum)].
  - pose proof (handle_resize_shape ws accepted st st' Hrun) as Hshape.
    cbv zeta in Hshape. destruct Hshape as (b & cap & w & -> & _).
    pose proof (rows_get_terminal_size ws (set_resize false st) Hrows)
      as Hrows1.
    set (st1 := get_terminal_size ws (set_resize false st)) in *.
    cbn [g_term_rows g_win_top g_scroll_bottom set_tty set_draw set_window].
    change (window_height (set_tty _ _)) with (window_height st1).
    rewrite window_height_clamp. lia.
  - pose proof (setup_window_shape ws pr accepted st st' Htty Hrun)
      as Hshape.
    cbv zeta in Hshape. destruct Hshape as (b & cap & w & -> & _).
    pose proof (rows_get_terminal_size ws st Hrows) as Hrows1.
    set (st1 := get_terminal_size ws st) in *.
    cbn [g_term_rows g_win_top g_scroll_bottom set_started set_tty set_draw
         set_window].
    change (window_height (set_started _ _)) with (window_height st1).
    pose proof (get_cursor_row_range pr st1) as Hrange.
    revert Hsum Hrange. generalize (get_cursor_row pr st1).1. intros row.
    intros Hsum Hrange.
    pose proof (window_height_clamp st1) as Hclamp.
    destruct (Z.ltb_spec 0 row); cbn [andb]; [|lia].
    rewrite to_int_small by lia.
    destruct (Z.leb_spec (row + window_height st1 - 1) (g_term_rows st1));
      lia.
Qed.

Lemma window_within_terminal_witness :
  exists st',
    handle_resize (Some (80, 1)%Z) 1000 Sample.established = Ok st' /\
    g_term_rows st' = 1%Z /\ window_height st' = 1%Z /\
    (1 <= g_win_top st')%Z.
Proof.
  assert (exists st',
            handle_resize (Some (80, 1)%Z) 1000 Sample.established = Ok st')
    as [st' E] by (eexists; vm_compute; reflexivity).
  exists st'. split; [exact E|].
  destruct (window_within_terminal (Some (80, 1)%Z) (mkProbe true true 4 [])
              1000 Sample.established st')
    as (H1 & H2 & H3 & H4 & _); [simpl; lia | left; exact E |].
  assert (g_term_rows st' = 1%Z) as Hrows
    by (vm_compute in E; injection E as <-; reflexivity).
  repeat split; [exact Hrows | lia | exact H3].
Defined.

(** X13: a frame is composed from scratch and sent whole.  For a
    readable history on a terminal, [redraw_window] returns with exactly
    the frame in the draw buffer, whatever the buffer held before, and the
    terminal is offered that frame in one write; a second redraw with no
    new line in between composes and offers the same bytes again. *)
Theorem redraw_window_repeatable (a1 a2 : Z) (st : State) :
  g_is_tty st = true -> (0 <= g_tty_fd st)%Z ->
  Spec.readable (g_ring st) ->
  exists st1 st2,
    redraw_window a1 st = Ok st1 /\
    redraw_window a2 st1 = Ok st2 /\
    g_draw_buf st1 = Spec.frame Spec.oldest_first st /\
    g_draw_buf st2 = g_draw_buf st1 /\
    tty st1 = tty st ++ [take (Z.to_nat a1) (g_draw_buf st1)] /\
    tty st2 = tty st1 ++ [take (Z.to_nat a2) (g_draw_buf st1)].
Proof.
  intros Htty Hfd Hread.
  destruct (compose_and_flush st (dbuf_reset st) [] a1
              (draws_reset st st _ (draws_start st)) Hread)
    as (st4 & cap & out & Hrun & Hflush & Hout).
  specialize (Hout Hfd). subst out.
  set (st1 := set_tty _ _) in Hflush.
  destruct (compose_and_flush st1 (dbuf_reset st1) [] a2
              (draws_reset st1 st1 _ (draws_start st1)) Hread)
    as (st5 & cap' & out' & Hrun' & Hflush' & Hout').
  specialize (Hout' Hfd). subst out'.
  exists st1. eexists.
  split; [unfold redraw_window; rewrite Htty, Hrun, bind_Ok, Hflush; reflexivity|].
  split; [unfold redraw_window;
          change (g_is_tty st1) with (g_is_tty st);
          rewrite Htty, Hrun', bind_Ok, Hflush'; reflexivity|].
  repeat split.
Qed.

Lemma redraw_window_repeatable_witness :
  exists st1 st2,
    redraw_window 1000 Sample.one_line = Ok st1 /\
    redraw_window 1000 st1 = Ok st2 /\
    tty st2 = [g_draw_buf st1; g_draw_buf st1].
Proof.
  destruct (redraw_window_repeatable 1000 1000 Sample.one_line)
    as (st1 & st2 & H1 & H2 & Hb & _ & Ht1 & Ht2);
    [reflexivity | simpl; lia | repeat constructor |].
  exists st1, st2. split; [exact H1|]. split; [exact H2|].
  rewrite Ht2, Ht1, take_ge; [reflexivity|].
  rewrite Hb. vm_compute. lia.
Defined.

(** *** The cursor probe *)

Lemma digit_code b : isdigit b = true -> (48 <= code b <= 57)%N.
Proof.
  unfold isdigit. intros H. apply andb_true_iff in H. destruct H as [H1 H2].
  apply N.leb_le in H1. apply N.leb_le in H2. lia.
Qed.

Lemma digits_step acc b l :
  isdigit b = true ->
  digits acc (b :: l) = digits (acc * 10 + (Z.of_N (code b) - 48)) l.
Proof. intros H. cbn [digits]. rewrite H. reflexivity. Qed.

Lemma digits_stop acc b l : isdigit b = false -> digits acc (b :: l) = acc.
Proof. intros H. cbn [digits]. rewrite H. reflexivity. Qed.

Lemma bytes_String c s : bytes (String c s) = byte_of_ascii c :: bytes s.
Proof. reflexivity. Qed.

Lemma digits_uint_acc u : forall p rest,
  digits (Z.pos p) (bytes (NilEmpty.string_of_uint u) ++ rest)
  = digits (Z.pos (Pos.of_uint_acc u p)) rest.
Proof.
  induction u as [|u IH|u IH|u IH|u IH|u IH|u IH|u IH|u IH|u IH|u IH];
    intros p rest; [reflexivity|..];
    cbn [NilEmpty.string_of_uint Pos.of_uint_acc];
    rewrite bytes_String, <- app_comm_cons, digits_step by reflexivity;
    rewrite <- IH; f_equal;
    match goal with
    | |- context [code ?b] =>
        let c := eval vm_compute in (code b) in change (code b) with c
    end; lia.
Qed.

Lemma digits_uint u : forall rest,
  digits 0 (bytes (NilZero.string_of_uint u) ++ rest)
  = digits (Z.of_N (Pos.of_uint u)) rest.
Proof.
  induction u as [|u IH|u IH|u IH|u IH|u IH|u IH|u IH|u IH|u IH|u IH];
    intros rest; [reflexivity|..].
  - cbn [NilZero.string_of_uint NilEmpty.string_of_uint Pos.of_uint].
    rewrite bytes_String, <- app_comm_cons, digits_step by reflexivity.
    rewrite <- IH. destruct u; reflexivity.
  - apply (digits_uint_acc u 1).
  - apply (digits_uint_acc u 2).
  - apply (digits_uint_acc u 3).
  - apply (digits_uint_acc u 4).
  - apply (digits_uint_acc u 5).
  - apply (digits_uint_acc u 6).
  - apply (digits_uint_acc u 7).
  - apply (digits_uint_acc u 8).
  - apply (digits_uint_acc u 9).
Qed.

Lemma digits_fmt_u n rest :
  digits 0 (fmt_u n ++ rest) = digits (Z.of_N n) rest.
Proof.
  unfold fmt_u. rewrite digits_uint.
  change (Pos.of_uint (N.to_uint n)) with (N.of_uint (N.to_uint n)).
  rewrite DecimalN.Unsigned.of_to. reflexivity.
Qed.

Lemma isdigit_uint u :
  Forall (fun b => isdigit b = true) (bytes (NilEmpty.string_of_uint u)).
Proof.
  induction u; cbn [NilEmpty.string_of_uint]; [constructor|..];
    rewrite bytes_String; constructor; (reflexivity || assumption).
Qed.

Lemma isdigit_fmt_u n :
  Forall (fun b => isdigit b = true) (fmt_u n) /\ fmt_u n <> [].
Proof.
  unfold fmt_u. destruct (N.to_uint n) as [|u|u|u|u|u|u|u|u|u|u];
    (split; [|discriminate]); [repeat constructor|..];
    match goal with
    | |- Forall _ (bytes (NilZero.string_of_uint ?d)) =>
        apply (isdigit_uint d)
    end.
Qed.

Lemma read_response_upto body : forall n tail,
  Forall (fun b => code b <> code "R"%byte) body ->
  length body < n ->
  read_response n (body ++ "R"%byte :: tail) = body ++ ["R"%byte].
Proof.
  induction body as [|b body IH]; intros n tail Hbody Hn;
    (destruct n as [|n]; [simpl in Hn; lia|]); cbn [read_response app].
  - reflexivity.
  - inversion Hbody as [|? ? Hb Hrest]; subst.
    destruct (N.eqb_spec (code b) (code "R"%byte)); [contradiction|].
    rewrite IH by (simpl in Hn; assumption || lia). reflexivity.
Qed.

(** X14: the cursor probe reads back what the terminal reports, as an
    [int].  When the terminal answers the query with a Device Status
    Report [ESC [ row ; col R] of at most 31 bytes, [get_cursor_row]
    returns [row] kept within a [long] and cut to an [int]: [row] itself
    for every row below 2^31, whatever the column, and for instance 20 for
    a reported row of 2^32 + 20.  Bytes that follow the [R] are not
    consumed by the parse, and the only output is the 4-byte query. *)
Theorem get_cursor_row_reads_report (pr : probe) (st : State)
    (row col : N) (tail : list byte) :
  (0 <= g_tty_fd st)%Z ->
  tcgetattr_ok pr = true -> tcsetattr_ok pr = true ->
  response pr
  = ESC :: bytes "[" ++ fmt_u row ++ bytes ";" ++ fmt_u col
      ++ bytes "R" ++ tail ->
  length (fmt_u row) + length (fmt_u col) + 4 <= 31 ->
  get_cursor_row pr st
  = (to_int (Z.min (2 ^ 63 - 1) (Z.of_N row)),
     set_tty (tty st ++ [take (Z.to_nat (query_accepted pr)) dsr_query]) st)
  /\
  ((Z.of_N row < 2 ^ 31)%Z -> (get_cursor_row pr st).1 = Z.of_N row) /\
  (row = (2 ^ 32 + 20)%N -> (get_cursor_row pr st).1 = 20%Z).
Proof.
  intros Hfd Hget Hset Hresp Hlen.
  assert (get_cursor_row pr st
          = (to_int (Z.min (2 ^ 63 - 1) (Z.of_N row)),
             set_tty (tty st ++ [take (Z.to_nat (query_accepted pr))
                                   dsr_query]) st)) as Hrun.
  { unfold get_cursor_row.
    destruct (Z.ltb_spec (g_tty_fd st) 0); [lia|].
    rewrite Hget, Hset. cbn [negb]. f_equal.
    destruct (isdigit_fmt_u row) as [Hrow Hrow_ne].
    destruct (isdigit_fmt_u col) as [Hcol _].
    set (body := ESC :: bytes "[" ++ fmt_u row ++ bytes ";" ++ fmt_u col).
    assert (response pr = body ++ "R"%byte :: tail) as ->.
    { rewrite Hresp. subst body. rewrite <- !app_comm_cons, <- !app_assoc.
      reflexivity. }
    assert (Forall (fun b => code b <> 0%N /\ code b <> code "R"%byte) body)
      as Hbody.
    { subst body. constructor; [split; discriminate|].
      rewrite !Forall_app. repeat split.
      - repeat constructor; discriminate.
      - eapply Forall_impl; [exact Hrow|]. intros b Hb.
        apply digit_code in Hb. change (code "R"%byte) with 82%N. lia.
      - repeat constructor; discriminate.
      - eapply Forall_impl; [exact Hcol|]. intros b Hb.
        apply digit_code in Hb. change (code "R"%byte) with 82%N. lia. }
    rewrite read_response_upto.
    2:{ eapply Forall_impl; [exact Hbody|]. intros b [_ Hb]. exact Hb. }
    2:{ subst body. cbn [length]. rewrite !length_app. simpl. lia. }
    rewrite c_string_text.
    2:{ rewrite Forall_app. split.
        - eapply Forall_impl; [exact Hbody|]. intros b [Hb _]. exact Hb.
        - repeat constructor. discriminate. }
    subst body. rewrite <- !app_comm_cons.
    change (bytes "[") with ["["%byte]. cbn [app strchr].
    change (N.eqb (code ESC) (code "["%byte)) with false.
    change (N.eqb (code "["%byte) (code "["%byte)) with true.
    cbn iota. cbn [drop].
    destruct (fmt_u row) as [|d ds] eqn:E; [contradiction|].
    inversion Hrow as [|? ? Hd Hds]; subst.
    pose proof (digit_code d Hd) as Hcode.
    unfold atoi, strtol. rewrite <- !app_comm_cons, drop_0.
    cbn [skip_space].
    assert (isspace d = false) as ->.
    { unfold isspace. destruct (N.eqb_spec (code d) 32); [lia|].
      destruct (N.leb_spec (code d) 13); [lia|].
      rewrite andb_false_r. reflexivity. }
    destruct (N.eqb_spec (code d) (code "-"%byte)) as [H1|_];
      [change (code "-"%byte) with 45%N in H1; lia|].
    destruct (N.eqb_spec (code d) (code "+"%byte)) as [H1|_];
      [change (code "+"%byte) with 43%N in H1; lia|].
    rewrite <- !app_assoc, app_comm_cons, <- E, digits_fmt_u.
    assert (forall acc l, digits acc (bytes ";" ++ l) = acc) as Hstop
      by (intros acc l; apply digits_stop; reflexivity).
    rewrite Hstop. f_equal. lia. }
  split; [exact Hrun|]. rewrite Hrun. cbn [fst]. split.
  - intros Hsmall. rewrite Z.min_r by lia. apply to_int_small. lia.
  - intros ->. reflexivity.
Qed.

Lemma get_cursor_row_reads_report_witness :
  (get_cursor_row (mkProbe true true 4 (ESC :: bytes "[20;1R" ++ [LF]))
     (Sample.at_start 5)).1 = 20%Z.
Proof.
  destruct (get_cursor_row_reads_report
              (mkProbe true true 4 (ESC :: bytes "[20;1R" ++ [LF]))
              (Sample.at_start 5) 20 1 [LF]) as (_ & Hsmall & _);
    [simpl; lia | reflexivity | reflexivity | reflexivity | simpl; lia |].
  apply Hsmall. simpl. lia.
Defined.

End MoreDisplayFacts.

(** ** The loop without a terminal, and line numbers *)

Section MoreTeeFacts.

Import Display Tee TeeSpec.

Lemma handle_resize_idle ws accepted st :
  g_started st = false ->
  exists st',
    handle_resize ws accepted st = Ok st' /\
    g_started st' = false /\ g_is_tty st' = g_is_tty st /\
    g_ring st' = g_ring st /\ tty st' = tty st.
Proof.
  intros Hns. unfold handle_resize.
  destruct (ring_get_terminal_size ws (set_resize false st))
    as (Hring1 & _ & Hstarted1 & Hity1 & _ & _ & Htty1 & _).
  set (st1 := get_terminal_size ws (set_resize false st)) in *.
  cbn [g_ring g_started g_is_tty tty set_resize]
    in Hring1, Hstarted1, Hity1, Htty1.
  set (top := (g_term_rows st1 - window_height st1 + 1)%Z).
  change (g_started (set_window top (top - 1)%Z st1)) with (g_started st1).
  rewrite Hstarted1, Hns. eexists. split; [reflexivity|].
  cbn [g_started g_is_tty g_ring tty set_window].
  rewrite Hstarted1. auto.
Qed.

Lemma loop_body_passthrough ev s :
  g_is_tty (disp s) = false -> g_started (disp s) = false ->
  exists s',
    loop_body ev s = Ok s' /\
    g_is_tty (disp s') = false /\ g_started (disp s') = false /\
    stdout s' = stdout s ++ ev_line ev /\
    g_ring (disp s') = g_ring (disp s) /\
    tty (disp s') = tty (disp s).
Proof.
  intros Hno Hns. unfold loop_body.
  set (d0 := if ev_sigwinch ev then set_resize true (disp s) else disp s).
  assert (g_is_tty d0 = false /\ g_started d0 = false /\
          g_ring d0 = g_ring (disp s) /\ tty d0 = tty (disp s))
    as (Hno0 & Hns0 & Hring0 & Htty0)
    by (subst d0; destruct (ev_sigwinch ev); auto).
  assert (exists d1,
            (if g_resize d0
             then handle_resize (ev_winsize ev) (ev_resize_accepted ev) d0
             else Ok d0) = Ok d1 /\
            g_is_tty d1 = false /\ g_started d1 = false /\
            g_ring d1 = g_ring (disp s) /\ tty d1 = tty (disp s))
    as (d1 & -> & Hno1 & Hns1 & Hring1 & Htty1).
  { destruct (g_resize d0); [|exists d0; auto].
    destruct (handle_resize_idle (ev_winsize ev) (ev_resize_accepted ev)
                d0 Hns0) as (d1 & Hrun & H1 & H2 & H3 & H4).
    exists d1. split; [exact Hrun|]. rewrite H2, H3, H4. auto. }
  rewrite bind_Ok.
  set (d2 := set_total_lines (size_t (g_total_lines d1 + 1)) d1).
  destruct (write_to_files_spec ev (set_disp d2 s)) as (Hd & Ho & _).
  cbv zeta in Hd, Ho.
  change (g_is_tty d2) with (g_is_tty d1). rewrite Hno1.
  eexists. split; [reflexivity|].
  cbn [disp stdout set_stdout]. rewrite Hd, Ho, firstn_all.
  cbn [disp stdout set_disp].
  change (g_is_tty d2) with (g_is_tty d1).
  change (g_started d2) with (g_started d1).
  change (g_ring d2) with (g_ring d1). change (tty d2) with (tty d1).
  auto.
Qed.

(** X15: without a terminal the program is a plain tee.  When the
    controlling terminal could not be opened, every line read is copied to
    standard output as it is, whatever its bytes (NUL included), the line
    history stays untouched and nothing is written to a terminal, also
    when a window-size signal arrives; the loop never faults. *)
Theorem passthrough_copies_input (input : list event) (s : Sash) :
  g_is_tty (disp s) = false -> g_started (disp s) = false ->
  Forall (fun ev => ev_line ev <> []) input ->
  exists s',
    main_loop input s = Ok s' /\
    stdout s' = stdout s ++ concat (map ev_line input) /\
    g_ring (disp s') = g_ring (disp s) /\
    tty (disp s') = tty (disp s).
Proof.
  revert s. induction input as [|ev rest IH]; intros s Hno Hns Hlines.
  - exists s. cbn. rewrite app_nil_r. auto.
  - inversion Hlines as [|? ? Hne Hrest]; subst. cbn [main_loop].
    assert ((0 <? length (ev_line ev)) = true) as ->
      by (apply Nat.ltb_lt; destruct (ev_line ev);
          [contradiction | simpl; lia]).
    destruct (loop_body_passthrough ev s Hno Hns)
      as (s1 & Hrun & Hno1 & Hns1 & Hout1 & Hring1 & Htty1).
    rewrite Hrun, bind_Ok.
    destruct (IH s1 Hno1 Hns1 Hrest) as (s' & Hrun' & Hout & Hring & Htty).
    exists s'. split; [exact Hrun'|].
    rewrite Hout, Hout1, Hring, Hring1, Htty, Htty1.
    cbn [map concat]. rewrite <- app_assoc. auto.
Qed.

Lemma passthrough_copies_input_witness :
  exists s',
    main_loop Sample.two_lines MoreSamples.no_terminal = Ok s' /\
    stdout s' = bytes "a" ++ [LF] ++ bytes "b" ++ [LF].
Proof.
  destruct (passthrough_copies_input Sample.two_lines
              MoreSamples.no_terminal)
    as (s' & Hrun & Hout & _);
    [reflexivity | reflexivity | repeat constructor; discriminate |].
  exists s'. split; [exact Hrun | exact Hout].
Defined.

(** The loop numbers the lines it reads: the number composed for a row
    that shows a history entry is the position in the input of the line
    behind that entry. *)
Lemma loop_numbers_lines (input : list event) (s : Sash) (cap : nat) :
  1 <= cap ->
  g_ring (disp s) = Ring.ringbuf_init cap ->
  g_total_lines (disp s) = 0%Z ->
  g_is_tty (disp s) = true ->
  length (sink s) = length (g_files s) ->
  Forall (fun ev => text_line true (ev_line ev)) input ->
  (Z.of_nat (length input) < 2 ^ 64)%Z ->
  exists s',
    main_loop input s = Ok s' /\
    ready s' /\
    forall row idx,
      row < Spec.height (disp s') ->
      Spec.oldest_first (Ring.count (g_ring (disp s')))
        (Spec.height (disp s')) row = Some idx ->
      exists k ev,
        size_t (Spec.base (disp s') + Z.of_nat row) = Z.of_nat (S k) /\
        input !! k = Some ev /\
        Ring.ringbuf_get (g_ring (disp s')) idx
        = Spec.entry (Ring.mkPush (ev_line ev) (length (ev_line ev))
                        (ev_alloc ev)).
Proof.
  intros Hcap Hring Htotal Htty Hsinks Htext Hn.
  assert (ready s) as Hready.
  { unfold ready. rewrite Hring, Htotal.
    split; [apply wf_init; lia|]. split; [apply Forall_nil_2|].
    split; [exact Hsinks | lia]. }
  rewrite <- Htty in Htext.
  destruct (main_loop_spec input s Hready Htext)
    as (s' & Hrun & Hready' & _ & Htotal' & Hring' & _).
  exists s'. split; [exact Hrun|]. split; [exact Hready'|].
  clear Hready'.
  rewrite Htty, Hring in Hring'. rewrite Htotal in Htotal'.
  intros row idx Hrow Hidx.
  unfold Spec.base. rewrite Htotal', Hring' in *.
  set (n := length input) in *.
  assert (length (pushes input) = n) as Hlen
    by (unfold pushes; apply length_map).
  rewrite count_push_all, Hlen in *.
  set (height := Spec.height (disp s')) in *.
  unfold Spec.oldest_first in Hidx.
  destruct (Nat.ltb_spec row (min n cap)) as [Hlt | _];
    [|discriminate Hidx].
  injection Hidx as <-.
  set (k := n - min (min n cap) height + row).
  assert (exists ev, input !! k = Some ev) as [ev Hev]
    by (apply lookup_lt_is_Some_2; subst k; fold n; lia).
  exists k, ev. split; [|split; [exact Hev|]].
  - unfold size_t. cbn [Z.add].
    rewrite (Z.mod_small (Z.of_nat n)) by lia.
    rewrite (Z.mod_small (Z.of_nat n - _ + 1)) by lia.
    rewrite Z.mod_small by (subst k; lia). subst k. lia.
  - set (idx := if min n cap <=? height then row
                else min n cap - height + row).
    assert (idx < min n cap) as Hin
      by (subst idx; destruct (Nat.leb_spec (min n cap) height); lia).
    pose proof (lookup_retained (Ring.push_all (Ring.ringbuf_init cap)
                                   (pushes input)) idx) as Hget.
    rewrite count_push_all, Hlen in Hget. specialize (Hget Hin).
    rewrite retained_push_all, lookup_lastn in Hget by lia.
    rewrite length_map, Hlen in Hget.
    replace (n - cap + idx) with k in Hget
      by (subst k idx; destruct (Nat.leb_spec (min n cap) height); lia).
    set (got := Ring.ringbuf_get _ idx) in *. clearbody got.
    change map with (@fmap list _) in Hget.
    unfold pushes in Hget. change map with (@fmap list _) in Hget.
    rewrite !list_lookup_fmap, Hev in Hget. cbn in Hget.
    injection Hget as Hget. symmetry. exact Hget.
Qed.

(** X16: the number in the gutter is the line's position in the input.
    Starting from an empty history of any capacity and a line counter of
    0, after the loop has read [n] lines of text the frame that
    [build_redraw] composes into the draw buffer is the move to the top
    row, the rows and the move that parks the cursor; and each row that
    shows a history entry is the line clear, the gutter with the number
    [k + 1] and the sanitized text of the [k]-th line read (counting from
    0; nothing for a line whose copy found no memory), followed by a line
    feed on all rows but the last.  So the rows are numbered
    consecutively and the newest line carries [n]. *)
Theorem line_numbers_are_input_positions (input : list event) (s : Sash)
    (cap : nat) :
  1 <= cap ->
  g_ring (disp s) = Ring.ringbuf_init cap ->
  g_total_lines (disp s) = 0%Z ->
  g_is_tty (disp s) = true ->
  length (sink s) = length (g_files s) ->
  Forall (fun ev => text_line true (ev_line ev)) input ->
  (Z.of_nat (length input) < 2 ^ 64)%Z ->
  exists s' st',
    main_loop input s = Ok s' /\
    build_redraw (disp s') = Ok st' /\
    g_draw_buf st'
    = g_draw_buf (disp s')
      ++ take 255 (cursor_to (g_win_top (disp s')))
      ++ concat (Spec.rows Spec.oldest_first (disp s'))
      ++ (if (0 <? g_scroll_bottom (disp s'))%Z
          then take 255 (cursor_to (g_scroll_bottom (disp s'))) else []) /\
    forall row idx,
      row < Spec.height (disp s') ->
      Spec.oldest_first (Ring.count (g_ring (disp s')))
        (Spec.height (disp s')) row = Some idx ->
      exists k ev,
        input !! k = Some ev /\
        Ring.ringbuf_get (g_ring (disp s')) idx
        = Spec.entry (Ring.mkPush (ev_line ev) (length (ev_line ev))
                        (ev_alloc ev)) /\
        Spec.rows Spec.oldest_first (disp s') !! row
        = Some (clear_line
                ++ Spec.gutter (disp s')
                     (take 255 (fmt_5zu (Z.of_nat (S k)) ++ BAR))
                ++ Spec.render (Spec.content_cols (disp s')) 0
                     (if ev_alloc ev then ev_line ev else [])
                ++ (if row <? Spec.height (disp s') - 1 then [LF] else [])).
Proof.
  intros Hcap Hring Htotal Htty Hsinks Htext Hn.
  destruct (loop_numbers_lines input s cap Hcap Hring Htotal Htty Hsinks
              Htext Hn) as (s' & Hrun & Hready & Hrows).
  destruct Hready as (_ & Hread & _).
  destruct (build_redraw_spec (disp s') Hread) as (st' & Hbuild & Hdraws).
  exists s', st'. split; [exact Hrun|]. split; [exact Hbuild|].
  split; [exact (proj1 (draws_frame _ _ _ Hdraws))|].
  intros row idx Hrow Hidx.
  destruct (Hrows row idx Hrow Hidx) as (k & ev & Hnum & Hev & Hget).
  exists k, ev. split; [exact Hev|]. split; [exact Hget|].
  unfold Spec.rows. change map with (@fmap list _).
  rewrite list_lookup_fmap, lookup_seq_lt by exact Hrow.
  cbn [fmap option_fmap option_map Nat.add].
  unfold Spec.row_bytes, Spec.row_text. rewrite Hidx, Hget, Hnum.
  assert (text_line true (ev_line ev)) as [_ Hnul].
  { exact (Forall_lookup_1 _ _ _ _ Htext Hev). }
  rewrite entry_whole_line by (cbn; auto). cbn [Ring.p_alloc Ring.p_line].
  destruct (ev_alloc ev).
  - cbn [c_object]. rewrite take_app_length, <- !app_assoc. reflexivity.
  - cbn [c_object]. rewrite take_0, <- !app_assoc. reflexivity.
Qed.

Lemma line_numbers_are_input_positions_witness :
  exists s' st',
    main_loop [MoreSamples.line "a"; MoreSamples.line "b";
               MoreSamples.line "c"] MoreSamples.numbered = Ok s' /\
    build_redraw (disp s') = Ok st' /\
    Spec.rows Spec.oldest_first (disp s') !! 1
    = Some (clear_line ++ bytes "    3" ++ BAR ++ bytes "c").
Proof.
  destruct (line_numbers_are_input_positions
              [MoreSamples.line "a"; MoreSamples.line "b";
               MoreSamples.line "c"] MoreSamples.numbered 2)
    as (s' & st' & Hrun & Hbuild & _ & _);
    [lia | reflexivity | reflexivity | reflexivity | reflexivity
    | repeat constructor; discriminate | simpl; lia |].
  exists s', st'. split; [exact Hrun|]. split; [exact Hbuild|].
  assert (main_loop [MoreSamples.line "a"; MoreSamples.line "b";
                     MoreSamples.line "c"] MoreSamples.numbered = Ok s')
    as Hval by exact Hrun.
  vm_compute in Hval. injection Hval as Hval.
  rewrite <- Hval. reflexivity.
Defined.

(** *** Frames on the terminal *)





End MoreTeeFacts.

(** ** The child's command line *)

Section ProcessFacts.

Import Display Process.

Lemma join_len_from (argv : list (list byte)) : forall acc,
  fold_left (fun len arg => len + (length arg + 1)) argv acc
  = acc + length (concat (map (cons SPACE) argv)).
Proof.
  induction argv as [|arg rest IH]; intros acc; cbn [fold_left map concat].
  - simpl. lia.
  - rewrite IH, length_app. cbn [length]. lia.
Qed.

Lemma memcpy_ok dst p src :
  p + length src <= length dst ->
  memcpy dst p src (length src)
  = Ok (take p dst ++ src ++ drop (p + length src) dst).
Proof.
  intros H. unfold memcpy.
  destruct (Nat.leb_spec (p + length src) (length dst)); [|lia].
  rewrite firstn_all. reflexivity.
Qed.

(** The second loop behind the first argument: every further argument
    goes in after one space. *)
Lemma join_loop_rest argv : forall i p buf,
  0 < i ->
  p + length (concat (map (cons SPACE) argv)) <= length buf ->
  join_loop argv i p buf
  = Ok (p + length (concat (map (cons SPACE) argv)),
        take p buf ++ concat (map (cons SPACE) argv)
        ++ drop (p + length (concat (map (cons SPACE) argv))) buf).
Proof.
  induction argv as [|arg rest IH]; intros i p buf Hi Hfit;
    cbn [join_loop map concat] in *.
  - cbn [length app]. rewrite Nat.add_0_r, take_drop. reflexivity.
  - rewrite length_app in Hfit. cbn [length] in Hfit.
    assert ((0 <? i) = true) as -> by (apply Nat.ltb_lt; exact Hi).
    unfold store.
    assert ((p <? length buf) = true) as -> by (apply Nat.ltb_lt; lia).
    rewrite !bind_Ok, memcpy_ok by (rewrite length_insert; lia).
    rewrite bind_Ok.
    set (buf1 := take (S p) (<[p:=SPACE]> buf) ++ arg
                 ++ drop (S p + length arg) (<[p:=SPACE]> buf)).
    assert (length buf1 = length buf) as Hlen1.
    { subst buf1.
      rewrite !length_app, length_take, length_drop, length_insert. lia. }
    assert (take (S p + length arg) buf1 = take p buf ++ SPACE :: arg)
      as Htake1.
    { subst buf1. rewrite app_assoc, take_app_length'.
      - rewrite take_S_insert by lia.
        rewrite <- app_assoc. reflexivity.
      - rewrite length_app, length_take, length_insert. lia. }
    assert (forall k, S p + length arg <= k -> drop k buf1 = drop k buf)
      as Hdrop1.
    { intros k Hk. subst buf1. rewrite app_assoc, drop_app_ge.
      - rewrite length_app, length_take, length_insert.
        rewrite drop_drop, drop_insert_below by lia.
        f_equal. lia.
      - rewrite length_app, length_take, length_insert. lia. }
    rewrite IH by lia. f_equal. f_equal.
    + rewrite length_app. cbn [length]. lia.
    + rewrite Htake1, Hdrop1 by lia. rewrite length_app. cbn [length].
      rewrite <- !app_assoc. cbn [app].
      do 5 f_equal. lia.
Qed.

(** X17: [join_args] fills its allocation exactly.  For a command of at
    least one word the block of [sum (strlen + 1)] bytes receives the
    words separated by single spaces and the terminating NUL in its last
    byte: no write falls outside the block and no byte of it is left
    uninitialised.  For an empty argument vector the block has no byte and
    the terminating NUL is written outside it. *)
Theorem join_args_fills_allocation (junk : byte) :
  (forall arg rest,
     join_args junk (arg :: rest)
     = Ok (arg ++ concat (map (cons SPACE) rest) ++ [NUL]) /\
     length (arg ++ concat (map (cons SPACE) rest) ++ [NUL])
     = join_len (arg :: rest)) /\
  join_args junk [] = Fault OobWrite.
Proof.
  split; [|reflexivity].
  intros arg rest. unfold join_args, join_len.
  cbn [fold_left Nat.add]. rewrite join_len_from.
  set (tail := concat (map (cons SPACE) rest)).
  split; [|rewrite !length_app; simpl; lia].
  set (buf := replicate (length arg + 1 + length tail) junk).
  assert (length buf = length arg + 1 + length tail) as Hlen
    by apply length_replicate.
  cbn [join_loop Nat.ltb Nat.leb]. rewrite bind_Ok.
  rewrite memcpy_ok by lia. rewrite bind_Ok, take_0. cbn [Nat.add app].
  set (buf1 := arg ++ drop (length arg) buf).
  assert (length buf1 = length buf) as Hlen1
    by (subst buf1; rewrite length_app, length_drop; lia).
  rewrite join_loop_rest by (fold tail; lia). rewrite bind_Ok.
  unfold store. fold tail.
  match goal with
  | |- context [length ?l] =>
      lazymatch l with
      | take _ buf1 ++ _ =>
          assert (length l = length buf) as Hlen2
      end
  end.
  { rewrite !length_app, length_take, length_drop. lia. }
  rewrite Hlen2.
  assert ((length arg + length tail <? length buf) = true) as ->
    by (apply Nat.ltb_lt; lia).
  f_equal. subst buf1.
  rewrite take_app_length, drop_app_ge, drop_drop by lia.
  match goal with
  | |- context [drop ?k buf] =>
      assert (length (drop k buf) = 1) as Hone
        by (rewrite length_drop; lia);
      destruct (drop k buf) as [|x [|y l]]; try discriminate Hone
  end.
  rewrite app_assoc.
  replace (length arg + length tail)
    with (length (arg ++ tail) + 0) by (rewrite length_app; lia).
  rewrite insert_app_r, <- app_assoc. reflexivity.
Qed.

End ProcessFacts.

(** ** Process exit *)

Section ExitFacts.

Import Display Tee TeeSpec Exit.

(** *** How long a printed number is *)

Lemma length_string_of_uint u :
  length (bytes (NilEmpty.string_of_uint u)) = Decimal.nb_digits u.
Proof.
  induction u; cbn [NilEmpty.string_of_uint Decimal.nb_digits];
    [reflexivity|..]; rewrite bytes_String; cbn [length]; congruence.
Qed.

Lemma of_uint_acc_lower u : forall p,
  (Z.pos p * 10 ^ Z.of_nat (Decimal.nb_digits u)
   <= Z.pos (Pos.of_uint_acc u p))%Z.
Proof.
  induction u as [|u IH|u IH|u IH|u IH|u IH|u IH|u IH|u IH|u IH|u IH];
    intros p; cbn [Decimal.nb_digits Pos.of_uint_acc];
    [simpl; lia|..];
    (etransitivity; [|apply IH]);
    rewrite Nat2Z.inj_succ, Z.pow_succ_r by lia;
    pose proof (Z.pow_pos_nonneg 10 (Z.of_nat (Decimal.nb_digits u))
                  ltac:(lia) ltac:(lia));
    nia.
Qed.

Lemma nzhead_head u :
  match Decimal.nzhead u with
  | Decimal.D0 _ => False
  | _ => True
  end.
Proof. induction u; cbn [Decimal.nzhead]; auto. Qed.

Lemma length_fmt_u (n : N) (k : nat) :
  1 <= k -> (Z.of_N n < 10 ^ Z.of_nat k)%Z -> length (fmt_u n) <= k.
Proof.
  intros Hk Hn. unfold fmt_u.
  pose proof (DecimalN.Unsigned.of_to n) as Hof.
  pose proof (DecimalN.Unsigned.to_of (N.to_uint n)) as Hnorm.
  rewrite Hof in Hnorm.
  set (u := N.to_uint n) in *. clearbody u. subst n.
  unfold Decimal.unorm in Hnorm. pose proof (nzhead_head u) as Hhead.
  destruct (Decimal.nzhead u) as [|v|v|v|v|v|v|v|v|v|v] eqn:E;
    try contradiction; subst u;
    [simpl; lia|..];
    unfold NilZero.string_of_uint; rewrite length_string_of_uint;
    cbn [Decimal.nb_digits];
    unfold N.of_uint in Hn; cbn [Pos.of_uint] in Hn;
    match type of Hn with
    | context [Pos.of_uint_acc v ?p] =>
        pose proof (of_uint_acc_lower v p) as Hlow
    end;
    (destruct (Nat.le_gt_cases (S (Decimal.nb_digits v)) k) as [|Hgt];
       [assumption|]);
    (assert (10 ^ Z.of_nat k <= 10 ^ Z.of_nat (Decimal.nb_digits v))%Z
       by (apply Z.pow_le_mono_r; lia));
    cbn [Z.of_N] in Hn;
    pose proof (Z.pow_pos_nonneg 10 (Z.of_nat (Decimal.nb_digits v))
                  ltac:(lia) ltac:(lia));
    nia.
Qed.

Lemma length_fmt_d (z : Z) : int_range z -> length (fmt_d z) <= 11.
Proof.
  intros [Hlo Hhi]. unfold fmt_d. destruct (Z.ltb_spec z 0).
  - rewrite length_app. cbn [bytes length list_byte_of_string].
    pose proof (length_fmt_u (Z.to_N (- z)) 10 ltac:(lia)) as H1.
    rewrite Z2N.id in H1 by lia.
    change (Z.of_nat 10) with 10%Z in H1. simpl length. lia.
  - pose proof (length_fmt_u (Z.to_N z) 10 ltac:(lia)) as H1.
    rewrite Z2N.id in H1 by lia.
    change (Z.of_nat 10) with 10%Z in H1. lia.
Qed.

(** *** [cleanup] *)

Lemma close_loop_spec n : forall i s,
  let s' := close_loop n i s in
  closed s'
  = closed s
    ++ List.filter (fun j => default false (g_files s !! j)) (seq i n) /\
  g_files s' = g_files s /\ sink s' = sink s /\ disp s' = disp s /\
  write_errors s' = write_errors s /\ stdout s' = stdout s /\
  g_flush s' = g_flush s.
Proof.
  induction n as [|n IH]; intros i s; cbn [close_loop seq List.filter].
  - rewrite app_nil_r. repeat split.
  - specialize (IH (S i)
                  (if default false (g_files s !! i) then fclose i s else s)).
    cbv zeta in IH. destruct IH as (Hc & Hf & Hs & Hd & He & Ho & Hfl).
    rewrite Hc, Hf, Hs, Hd, He, Ho, Hfl.
    destruct (default false (g_files s !! i)); cbn [fclose closed g_files];
      rewrite <- ?app_assoc; repeat split.
Qed.

Lemma length_teardown after :
  int_range after -> 0 < length (teardown after) <= 64.
Proof.
  intros H. pose proof (length_fmt_d after H) as Hd.
  unfold teardown, cursor_to. rewrite !length_app. cbn [length].
  rewrite !length_app.
  change (length scroll_reset) with 3.
  change (length (bytes "[")) with 1.
  change (length (bytes ";1H")) with 3.
  change (length show_cursor) with 6. lia.
Qed.

Lemma restore_terminal_spec accepted st :
  int_range (g_win_top st + window_height st) ->
  int_range (g_term_rows st) ->
  let after := Z.min (g_win_top st + window_height st) (g_term_rows st) in
  restore_terminal accepted st
  = Ok (set_tty
          (tty st ++
           (if g_is_tty st && g_started st && (0 <=? g_tty_fd st)%Z
            then [take (Z.to_nat accepted) (teardown after)] else []))
          st).
Proof.
  intros Hsum Hrows after. unfold restore_terminal.
  destruct (g_is_tty st && g_started st && (0 <=? g_tty_fd st)%Z) eqn:Hon;
    [|rewrite app_nil_r, set_tty_same; reflexivity].
  assert ((if (g_term_rows st <? g_win_top st + window_height st)%Z
           then g_term_rows st
           else (g_win_top st + window_height st)%Z) = after) as ->
    by (subst after; destruct (Z.ltb_spec (g_term_rows st)
                                 (g_win_top st + window_height st)); lia).
  assert (int_range after) as Hafter
    by (unfold int_range in *; subst after; lia).
  pose proof (length_teardown after Hafter) as Hlen.
  destruct (Nat.ltb_spec 0 (length (teardown after))); [|lia].
  destruct (Nat.leb_spec (length (teardown after)) 64); [|lia].
  unfold tty_write.
  apply andb_true_iff in Hon. destruct Hon as [_ Hfd]. rewrite Hfd.
  assert ((0 <? length (teardown after)) = true) as ->
    by (apply Nat.ltb_lt; lia).
  cbn [andb]. do 4 f_equal.
  destruct (Nat.le_gt_cases (length (teardown after)) 63) as [Hfit | Hfull].
  - rewrite (take_ge (teardown after) 63) by lia.
    rewrite take_app_length. reflexivity.
  - assert (length (teardown after) = 64) as E by lia.
    exfalso. clear -E Hafter. revert E.
    pose proof (length_fmt_d after Hafter) as Hd.
    unfold teardown, cursor_to. rewrite !length_app. cbn [length].
    rewrite !length_app.
    change (length scroll_reset) with 3.
    change (length (bytes "[")) with 1.
    change (length (bytes ";1H")) with 3.
    change (length show_cursor) with 6. lia.
Qed.

(** [cleanup] up to its two frees: [q] is the process in front of
    [ringbuf_free]. *)
Lemma cleanup_steps accepted p :
  let st := disp (sash p) in
  let after := Z.min (g_win_top st + window_height st) (g_term_rows st) in
  int_range (g_win_top st + window_height st) ->
  int_range (g_term_rows st) ->
  exists q,
    cleanup accepted p
    = (q' ← ringbuf_free q; Ok (display_free_drawbuf q')) /\
    ring_freed q = ring_freed p /\
    tty (disp (sash q))
    = tty st ++
      (if g_is_tty st && g_started st && (0 <=? g_tty_fd st)%Z
       then [take (Z.to_nat accepted) (teardown after)] else []) /\
    closed (sash q)
    = closed (sash p)
      ++ List.filter (fun j => default false (g_files (sash p) !! j))
           (seq 0 (g_nfiles (sash p))) /\
    g_files (sash q) = [] /\
    sink (sash q) = sink (sash p) /\
    g_tty q = false /\
    tty_closed q = (if g_tty p then S (tty_closed p) else tty_closed p) /\
    terminated q
    = terminated p
      ++ (if (0 <? g_child_pid p)%Z then [g_child_pid p] else []) /\
    (0 <? g_child_pid q)%Z = false /\
    g_ring (disp (sash q)) = g_ring st /\
    g_win_top (disp (sash q)) = g_win_top st /\
    g_term_rows (disp (sash q)) = g_term_rows st /\
    window_height (disp (sash q)) = window_height st.
Proof.
  intros st after Hsum Hrows. unfold cleanup.
  set (p0 := if (0 <? g_child_pid p)%Z
             then mkProc (sash p) (g_tty p) 0
                    (terminated p ++ [g_child_pid p]) (tty_closed p)
                    (ring_freed p) (draw_buf_freed p)
             else p).
  assert (sash p0 = sash p /\ g_tty p0 = g_tty p /\
          tty_closed p0 = tty_closed p /\
          (0 <? g_child_pid p0)%Z = false /\
          ring_freed p0 = ring_freed p /\
          terminated p0
          = terminated p
            ++ (if (0 <? g_child_pid p)%Z then [g_child_pid p] else []))
    as (Hs0 & Ht0 & Hc0 & Hpid0 & Hfreed0 & Hterm0).
  { subst p0. destruct (0 <? g_child_pid p)%Z eqn:E; cbn;
      rewrite ?app_nil_r; repeat split; auto. }
  rewrite Hs0. fold st.
  rewrite (restore_terminal_spec accepted st Hsum Hrows). fold after.
  rewrite bind_Ok.
  set (w := if g_is_tty st && g_started st && (0 <=? g_tty_fd st)%Z
            then [take (Z.to_nat accepted) (teardown after)] else []).
  set (s1 := set_disp (set_tty (tty st ++ w) st) (sash p)).
  destruct (close_loop_spec (g_nfiles s1) 0 s1)
    as (Hc & Hf & Hs & Hd & He & Ho & Hfl).
  cbv zeta in Hc, Hf, Hs, Hd, He, Ho, Hfl.
  set (s2 := close_loop (g_nfiles s1) 0 s1) in *.
  rewrite Ht0, Hfreed0, Hc0, Hterm0.
  eexists. split; [reflexivity|].
  destruct (g_tty p);
    cbn [sash disp set_disp tty set_tty_fd closed sink g_files g_tty
         tty_closed terminated ring_freed g_child_pid g_ring g_win_top
         g_term_rows];
    unfold window_height;
    cbn [g_win_height g_term_rows set_tty_fd];
    rewrite ?Hd, ?Hc, ?Hs; repeat split; first [exact Hpid0 | reflexivity].
Qed.



Lemma cleanup_closed accepted p :
  int_range (g_win_top (disp (sash p)) + window_height (disp (sash p))) ->
  int_range (g_term_rows (disp (sash p))) ->
  ring_freed p = false ->
  exists p',
    cleanup accepted p = Ok p' /\
    closed (sash p')
    = closed (sash p)
      ++ List.filter (fun j => default false (g_files (sash p) !! j))
           (seq 0 (g_nfiles (sash p))).
Proof.
  intros Hsum Hrows Hring.
  destruct (cleanup_steps accepted p Hsum Hrows)
    as (q & Hrun & Hfreed & _ & Hclosed & _).
  rewrite Hring in Hfreed. rewrite Hrun. unfold ringbuf_free.
  rewrite Hfreed. eexists. split; [reflexivity | exact Hclosed].
Qed.

(** X19: no output file is left open and none is closed twice.  Over a
    whole run, the loop over any lines of text followed by [cleanup], each
    file that was open at the start has been closed exactly once, by the
    write error that disabled it or else at exit, and a file that could
    not be opened has never been closed. *)
Theorem every_file_closed_once (input : list event) (s s1 : Sash)
    (accepted : Z) (tty_open : bool) (pid : Z) :
  ready s ->
  Forall (fun ev => text_line (g_is_tty (disp s)) (ev_line ev)) input ->
  main_loop input s = Ok s1 ->
  int_range (g_win_top (disp s1) + window_height (disp s1)) ->
  int_range (g_term_rows (disp s1)) ->
  exists p',
    cleanup accepted (mkProc s1 tty_open pid [] 0 false false) = Ok p' /\
    forall (i : nat) (open : bool),
      g_files s !! i = Some open ->
      count_occ Nat.eq_dec (closed (sash p')) i
      = count_occ Nat.eq_dec (closed s) i + (if open then 1 else 0).
Proof.
  intros Hready Htext Hrun Hsum Hrows.
  destruct (main_loop_spec input s Hready Htext)
    as (s' & Hrun' & _ & _ & _ & _ & _ & Hfiles & Hsinks & _ & Hclosed).
  rewrite Hrun in Hrun'. injection Hrun' as <-.
  destruct (cleanup_closed accepted (mkProc s1 tty_open pid [] 0 false false)
              Hsum Hrows eq_refl) as (p' & Hexit & Hc).
  exists p'. split; [exact Hexit|].
  intros i open Hopen. rewrite Hc. cbn [sash]. rewrite Hclosed.
  rewrite !count_occ_app, count_occ_filter_seq.
  rewrite (count_occ_diagnostics i input (g_files s) open Hopen).
  destruct Hready as (_ & _ & Hlen & _).
  destruct (lookup_lt_is_Some_2 (sink s) i) as [data Hdata];
    [rewrite Hlen; apply (lookup_lt_Some _ _ _ Hopen)|].
  destruct (Hsinks i open data Hopen Hdata) as [_ Hfinal].
  rewrite <- Hfiles in Hfinal. rewrite Hfinal.
  pose proof (lookup_lt_Some _ _ _ Hfinal) as Hlt.
  cbn [Nat.leb andb Nat.add default from_option id]. unfold g_nfiles.
  assert ((i <? length (g_files s1)) = true) as ->
    by (apply Nat.ltb_lt; exact Hlt).
  rewrite (sink_run_open_data i input open data []).
  destruct open.
  - destruct (sink_run i input (true, [])).1; cbn; lia.
  - rewrite sink_run_not_open. cbn. lia.
Qed.

Lemma every_file_closed_once_witness :
  exists s1 p',
    main_loop Sample.two_lines Sample.tee_start = Ok s1 /\
    cleanup 1000 (mkProc s1 true 0 [] 0 false false) = Ok p' /\
    count_occ Nat.eq_dec (closed (sash p')) 0 = 1 /\
    count_occ Nat.eq_dec (closed (sash p')) 1 = 1.
Proof.
  assert (exists s1, main_loop Sample.two_lines Sample.tee_start = Ok s1)
    as [s1 Hrun] by (eexists; vm_compute; reflexivity).
  assert (disp s1 = disp s1 /\
          int_range (g_win_top (disp s1) + window_height (disp s1)) /\
          int_range (g_term_rows (disp s1))) as (_ & Hsum & Hrows).
  { pose proof Hrun as Hval. vm_compute in Hval. injection Hval as <-.
    unfold int_range. vm_compute.
    repeat split; (discriminate || reflexivity). }
  destruct (every_file_closed_once Sample.two_lines Sample.tee_start s1
              1000 true 0) as (p' & Hexit & Hcount);
    [ split; [apply wf_init; simpl; lia|]; split; [apply Forall_nil_2|];
      split; [reflexivity | simpl; lia]
    | repeat constructor; simpl; discriminate
    | exact Hrun | exact Hsum | exact Hrows |].
  exists s1, p'. split; [exact Hrun|]. split; [exact Hexit|].
  split; [apply (Hcount 0 true) | apply (Hcount 1 true)]; reflexivity.
Defined.

End ExitFacts.
